(** * Expiration notification scheduler of expire-ai (FoodTracker backend)

    A shallow embedding of the server's notification service
    ([checkAndSendExpirationNotifications], [sendPushNotification]), of the
    manual trigger of [cronService.ts], of the day arithmetic
    ([calculateDaysUntilExpiration]) and of the [NotificationLog] table with
    its unique index on [(foodItemId, type)].

    JavaScript [Date] values are their time value, a number of milliseconds
    since the epoch, as [Z].  Promises are computations in a state-and-error
    monad over a [World]: the three tables, the requests made to the Expo
    gateway, the console.  An [await] that rejects is a [Throw]. *)

From Stdlib Require Import ZArith List String Bool Lia Arith.
From Stdlib Require Import Ascii DecimalString DecimalZ DecimalPos Sorted Permutation.
Import ListNotations.

Local Open Scope Z_scope.

(** ** Dates *)

(** [1000 * 60 * 60 * 24], the divisor both day computations use. *)
Definition msPerDay : Z := 1000 * 60 * 60 * 24.

(** The host's local time zone, as ECMAScript's [LocalTZA(t, isUTC)]: the
    offset of local time at a UTC instant, and at a local time value. *)
Record TimeZone := {
  LocalTZA_utc : Z -> Z;
  LocalTZA_local : Z -> Z
}.

Section Dates.
Variable tz : TimeZone.

Definition LocalTime (t : Z) : Z := t + LocalTZA_utc tz t.
Definition UTC (t : Z) : Z := t - LocalTZA_local tz t.
Definition Day (t : Z) : Z := t / msPerDay.
Definition TimeWithinDay (t : Z) : Z := t mod msPerDay.
Definition MakeDate (day time : Z) : Z := day * msPerDay + time.

(** [d.setHours(0, 0, 0, 0)]: midnight, local time, of [d]'s local day. *)
Definition setHours0 (t : Z) : Z := UTC (MakeDate (Day (LocalTime t)) 0).

(** [d.setDate(d.getDate() + n)]: the local day number moves by [n]
    ([MakeDay] carries a day-of-month overflow into the next month), the
    local time of day is kept. *)
Definition addDate (t n : Z) : Z :=
  let lt := LocalTime t in UTC (MakeDate (Day lt + n) (TimeWithinDay lt)).

(** Two instants of one local calendar day. *)
Definition same_calendar_day (a b : Z) : Prop :=
  Day (LocalTime a) = Day (LocalTime b).
End Dates.

(** [Math.ceil(a / b)] for integral [a] and positive [b]; the quotients the
    scheduler forms are far below the range where the double division rounds
    to a neighbouring integer. *)
Definition Math_ceil_div (a b : Z) : Z := - ((- a) / b).

(** [calculateDaysUntilExpiration], with the [new Date()] it reads as [now]. *)
Definition calculateDaysUntilExpiration (tz : TimeZone) (now expirationDate : Z) : Z :=
  let expDate := setHours0 tz expirationDate in
  let today := setHours0 tz now in
  let diffTime := expDate - today in
  let diffDays := Math_ceil_div diffTime msPerDay in
  diffDays.

(** ** Tables (the Prisma schema of the first migration) *)

Record User := {
  u_id : string;
  pushToken : option string
}.

Record FoodItem := {
  f_id : string;
  name : string;
  purchaseDate : Z;
  expirationDate : Z;
  isEstimated : bool;
  userId : string
}.

(** A row of [NotificationLog] as the scheduler writes it; [id] and [sentAt]
    are filled in by the storage defaults and never read by the server. *)
Record NotificationLog := {
  foodItemId : string;
  type : string
}.

Record ExpoNotification := {
  to : string;
  title : string;
  body : string;
  data : string  (* { foodItemId } *)
}.

(** ** The gateway and the other writers *)

(** What [fetch] does: resolve with a response ([text = None] when reading
    the body rejects) or reject. *)
Record Response := {
  ok : bool;
  text : option string
}.

Inductive FetchOutcome :=
| Resolves (r : Response)
| Rejects.

(** Everything outside the run: the outcome of the n-th request to
    exp.host, and the rows other writers (an overlapping run) commit to
    [NotificationLog] while that request is in flight. *)
Record Environment := {
  gateway : nat -> FetchOutcome;
  concurrent : nat -> list NotificationLog
}.

Definition no_concurrent_writer (env : Environment) : Prop :=
  forall n, concurrent env n = [].

(** ** The world and the promise monad *)

Inductive Event :=
| EvFetch (notification : ExpoNotification) (outcome : FetchOutcome)
| EvCreate (row : NotificationLog)
| EvCreateRejected (row : NotificationLog).

Record World := {
  users : list User;
  foodItems : list FoodItem;
  notificationLog : list NotificationLog;
  trace : list Event;
  console : list string;
  requests : nat
}.

Definition set_notificationLog (tbl : list NotificationLog) (w : World) : World :=
  {| users := users w; foodItems := foodItems w; notificationLog := tbl;
     trace := trace w; console := console w; requests := requests w |}.

Definition add_event (e : Event) (w : World) : World :=
  {| users := users w; foodItems := foodItems w;
     notificationLog := notificationLog w;
     trace := trace w ++ [e]; console := console w; requests := requests w |}.

Definition add_console (line : string) (w : World) : World :=
  {| users := users w; foodItems := foodItems w;
     notificationLog := notificationLog w;
     trace := trace w; console := console w ++ [line]; requests := requests w |}.

Definition next_request (w : World) : World :=
  {| users := users w; foodItems := foodItems w;
     notificationLog := notificationLog w;
     trace := trace w; console := console w; requests := S (requests w) |}.

Inductive Error :=
| NetworkError
| BodyReadError
| UniqueConstraintFailed (row : NotificationLog).   (* Prisma P2002 *)

Inductive Completion (A : Type) :=
| Normal (a : A)
| Throw (e : Error).
Arguments Normal {A} a.
Arguments Throw {A} e.

Definition M (A : Type) : Type := World -> Completion A * World.

Definition ret {A} (a : A) : M A := fun w => (Normal a, w).

Definition bind {A B} (m : M A) (k : A -> M B) : M B :=
  fun w => match m w with
           | (Normal a, w') => k a w'
           | (Throw e, w') => (Throw e, w')
           end.

Definition try_catch {A} (m : M A) (handler : Error -> M A) : M A :=
  fun w => match m w with
           | (Normal a, w') => (Normal a, w')
           | (Throw e, w') => handler e w'
           end.

Notation "x <- m ;; k" := (bind m (fun x => k))
  (at level 61, m at next level, right associativity).
Notation "m ;;; k" := (bind m (fun _ => k))
  (at level 61, right associativity).

(** [for (const x of l) { await f(x) }] *)
Fixpoint forM_ {A} (l : list A) (f : A -> M unit) : M unit :=
  match l with
  | [] => ret tt
  | x :: rest => f x ;;; forM_ rest f
  end.

Definition console_error (line : string) : M unit :=
  fun w => (Normal tt, add_console line w).

Definition console_log (line : string) : M unit :=
  fun w => (Normal tt, add_console line w).

(** ** Storage: NotificationLog and its unique index *)

Definition same_key (a b : NotificationLog) : bool :=
  String.eqb (foodItemId a) (foodItemId b) && String.eqb (type a) (type b).

Definition table_findUnique (key : NotificationLog) (tbl : list NotificationLog)
  : option NotificationLog :=
  find (same_key key) tbl.

(** INSERT under [CREATE UNIQUE INDEX "NotificationLog_foodItemId_type_key"]:
    refused when a row with the same [(foodItemId, type)] is there. *)
Definition table_insert (row : NotificationLog) (tbl : list NotificationLog)
  : option (list NotificationLog) :=
  if existsb (same_key row) tbl then None else Some (tbl ++ [row]).

(** Rows committed by other writers, one INSERT each, under the same index. *)
Definition commit_all (rows tbl : list NotificationLog) : list NotificationLog :=
  fold_left (fun t r => match table_insert r t with
                        | Some t' => t'
                        | None => t
                        end) rows tbl.

(** [prisma.notificationLog.findUnique({ where: { foodItemId_type } })] *)
Definition notificationLog_findUnique (key : NotificationLog)
  : M (option NotificationLog) :=
  fun w => (Normal (table_findUnique key (notificationLog w)), w).

(** [prisma.notificationLog.create({ data })] *)
Definition notificationLog_create (row : NotificationLog) : M NotificationLog :=
  fun w => match table_insert row (notificationLog w) with
           | Some tbl => (Normal row, set_notificationLog tbl (add_event (EvCreate row) w))
           | None => (Throw (UniqueConstraintFailed row), add_event (EvCreateRejected row) w)
           end.

Definition has_token (u : User) : bool :=
  match pushToken u with Some _ => true | None => false end.

Definition in_window (today threeDaysFromNow : Z) (item : FoodItem) : bool :=
  (today <=? expirationDate item) && (expirationDate item <=? threeDaysFromNow).

(** [prisma.user.findMany({ where: { pushToken: { not: null } },
      include: { foodItems: { where: { expirationDate: { gte, lte } } } } })] *)
Definition user_findMany (today threeDaysFromNow : Z)
  : M (list (User * list FoodItem)) :=
  fun w =>
    (Normal
       (map (fun u =>
               (u, filter (fun item => String.eqb (userId item) (u_id u)
                                       && in_window today threeDaysFromNow item)
                          (foodItems w)))
            (filter has_token (users w))),
     w).

(** A JavaScript truthiness test on [string | null]: [null] and the empty
    string are falsy. *)
Definition truthy (s : option string) : option string :=
  match s with
  | Some v => if String.eqb v "" then None else Some v
  | None => None
  end.

(** The three [if / else if] branches on [daysUntilExpiration]; the result is
    the triple [(notificationType, title, body)], initially [(null, '', '')]. *)
Definition select_notification (daysUntilExpiration : Z) (item : FoodItem)
  : option string * string * string :=
  if daysUntilExpiration =? 0 then
    (Some "expiry_day"%string, "Food Expiring Today!"%string,
     (name item ++ " expires today. Use it before it goes bad!")%string)
  else if daysUntilExpiration =? 1 then
    (Some "one_day"%string, "Food Expiring Tomorrow"%string,
     (name item ++ " expires tomorrow. Plan to use it soon!")%string)
  else if daysUntilExpiration =? 3 then
    (Some "three_day"%string, "Food Expiring Soon"%string,
     (name item ++ " expires in 3 days.")%string)
  else (None, ""%string, ""%string).

(** ** The notification service *)

Section Service.
Variable tz : TimeZone.
Variable env : Environment.

(** [await fetch('https://exp.host/--/api/v2/push/send', ...)]: the request
    goes out, and while it is in flight the other writers commit. *)
Definition fetch_push (notification : ExpoNotification) : M Response :=
  fun w =>
    let outcome := gateway env (requests w) in
    let tbl := commit_all (concurrent env (requests w)) (notificationLog w) in
    let w' := next_request
                (set_notificationLog tbl
                   (add_event (EvFetch notification outcome) w)) in
    match outcome with
    | Resolves r => (Normal r, w')
    | Rejects => (Throw NetworkError, w')
    end.

(** [await response.text()] *)
Definition response_text (r : Response) : M string :=
  fun w => match text r with
           | Some s => (Normal s, w)
           | None => (Throw BodyReadError, w)
           end.

Definition sendPushNotification (notification : ExpoNotification) : M unit :=
  try_catch
    (response <- fetch_push notification ;;
     if negb (ok response) then
       t <- response_text response ;;
       console_error ("Failed to send push notification: " ++ t)%string
     else ret tt)
    (fun error => console_error "Error sending push notification:"%string).

(** The day offset the loop body computes for [item]. *)
Definition daysUntilExpiration (today : Z) (item : FoodItem) : Z :=
  let expirationDate := setHours0 tz (expirationDate item) in
  Math_ceil_div (expirationDate - today) msPerDay.

(** The body of the inner loop, for one item of a user whose token is
    [token]. *)
Definition processItem (today : Z) (token : string) (item : FoodItem) : M unit :=
  let '(notificationType, title, body) :=
    select_notification (daysUntilExpiration today item) item in
  match truthy notificationType with
  | Some notificationType =>
      existingLog <- notificationLog_findUnique
                       {| foodItemId := f_id item; type := notificationType |} ;;
      match existingLog with
      | None =>
          sendPushNotification
            {| to := token; title := title; body := body; data := f_id item |} ;;;
          _ <- notificationLog_create
                 {| foodItemId := f_id item; type := notificationType |} ;;
          ret tt
      | Some _ => ret tt
      end
  | None => ret tt
  end.

(** The body of the outer loop. *)
Definition processUser (today : Z) (entry : User * list FoodItem) : M unit :=
  let '(user, items) := entry in
  match truthy (pushToken user) with
  | None => ret tt                                       (* continue *)
  | Some token => forM_ items (processItem today token)
  end.

(** [checkAndSendExpirationNotifications], with the [new Date()] it reads
    as [now]. *)
Definition checkAndSendExpirationNotifications (now : Z) : M unit :=
  let today := setHours0 tz now in
  let threeDaysFromNow := addDate tz today 3 in
  let oneDayFromNow := addDate tz today 1 in
  users <- user_findMany today threeDaysFromNow ;;
  forM_ users (processUser today).

(** [triggerNotificationCheck] of cronService.ts *)
Definition triggerNotificationCheck (now : Z) : M unit :=
  console_log "[CRON] Manually triggering notification check at"%string ;;;
  checkAndSendExpirationNotifications now.

(** The callback [initializeCronJobs] schedules for 9:00 every day. *)
Definition cronJob (now : Z) : M unit :=
  console_log "[CRON] Running daily expiration notification check at"%string ;;;
  try_catch
    (checkAndSendExpirationNotifications now ;;;
     console_log "[CRON] Expiration notification check completed successfully"%string)
    (fun error =>
       console_error "[CRON] Error running expiration notification check:"%string).

(** Several runs, one after the other, at the clock readings [nows]. *)
Definition runs (nows : list Z) : M unit :=
  forM_ nows checkAndSendExpirationNotifications.
End Service.

(** What the handler of [POST /api/notifications/trigger] answers: the JSON
    body of [res.json], or the error it hands to [next]. *)
Inductive Reply :=
| Json (success : bool) (message : string)
| NextError (e : Error).

Definition triggerRoute (tz : TimeZone) (env : Environment) (now : Z)
  : World -> Reply * World :=
  fun w => match triggerNotificationCheck tz env now w with
           | (Normal _, w') => (Json true "Notification check triggered"%string, w')
           | (Throw e, w') => (NextError e, w')
           end.

(** ** Reading a run *)

(** The items a run is handed by its query, and the (token, item) pairs its
    loops reach. *)
Definition queried (tz : TimeZone) (now : Z) (w : World) : list (User * list FoodItem) :=
  match user_findMany (setHours0 tz now) (addDate tz (setHours0 tz now) 3) w with
  | (Normal l, _) => l
  | (Throw _, _) => []
  end.

Definition considered (tz : TimeZone) (now : Z) (w : World) : list (User * FoodItem) :=
  flat_map (fun entry => map (pair (fst entry)) (snd entry)) (queried tz now w).

Definition worklist (tz : TimeZone) (now : Z) (w : World) : list (string * FoodItem) :=
  flat_map (fun entry => match truthy (pushToken (fst entry)) with
                         | None => []
                         | Some token => map (pair token) (snd entry)
                         end) (queried tz now w).

(** The events of a trace that are requests to the gateway for the item
    [itemId] under the title [t]. *)
Definition dispatch_for (itemId t : string) (e : Event) : bool :=
  match e with
  | EvFetch n _ => String.eqb (data n) itemId && String.eqb (title n) t
  | _ => false
  end.

Definition dispatches (itemId t : string) (tr : list Event) : nat :=
  List.length (filter (dispatch_for itemId t) tr).

Definition is_fetch (e : Event) : bool :=
  match e with EvFetch _ _ => true | _ => false end.

(** The rows of a table under one key. *)
Definition rows_for (key : NotificationLog) (tbl : list NotificationLog) : nat :=
  List.length (filter (same_key key) tbl).

(** At most one row per [(foodItemId, type)]. *)
Definition unique_keys (tbl : list NotificationLog) : Prop :=
  forall key, (rows_for key tbl <= 1)%nat.

(** The specification's template table, by type tag: the title.  (The code
    has no such table; [select_notification_templates] compares its three
    branches with this one.) *)
Definition title_of (ty : string) : string :=
  if String.eqb ty "expiry_day" then "Food Expiring Today!"
  else if String.eqb ty "one_day" then "Food Expiring Tomorrow"
  else if String.eqb ty "three_day" then "Food Expiring Soon"
  else "".

(** The specification's threshold table, [{3 -> three_day, 1 -> one_day,
    0 -> expiry_day}]; compared with the code's branches in
    [select_notification_kind]. *)
Definition kind_of_offset (d : Z) : option string :=
  if d =? 3 then Some "three_day"%string
  else if d =? 1 then Some "one_day"%string
  else if d =? 0 then Some "expiry_day"%string
  else None.

(** The console lines [sendPushNotification] writes for an outcome. *)
Definition complaints (o : FetchOutcome) : list string :=
  match o with
  | Resolves r =>
      if ok r then []
      else match text r with
           | Some t => [("Failed to send push notification: " ++ t)%string]
           | None => ["Error sending push notification:"%string]
           end
  | Rejects => ["Error sending push notification:"%string]
  end.

(** The world [sendPushNotification] leaves. *)
Definition sent_world (env : Environment) (notification : ExpoNotification)
  (w : World) : World :=
  {| users := users w; foodItems := foodItems w;
     notificationLog := commit_all (concurrent env (requests w)) (notificationLog w);
     trace := trace w ++ [EvFetch notification (gateway env (requests w))];
     console := console w ++ complaints (gateway env (requests w));
     requests := S (requests w) |}.

(** In a stretch of trace, every created row comes right after the request
    for its item and kind. *)
Fixpoint create_follows_fetch (prev : option Event) (tr : list Event) : bool :=
  match tr with
  | [] => true
  | e :: rest =>
      match e with
      | EvCreate row =>
          match prev with
          | Some (EvFetch n _) =>
              String.eqb (data n) (foodItemId row)
              && String.eqb (title n) (title_of (type row))
          | _ => false
          end
      | _ => true
      end && create_follows_fetch (Some e) rest
  end.

(** One completed step of the inner loop that went to the gateway: the
    notification, its type, what the gateway did. *)
Record Job := {
  job_notification : ExpoNotification;
  job_type : string;
  job_outcome : FetchOutcome
}.

Definition job_row (j : Job) : NotificationLog :=
  {| foodItemId := data (job_notification j); type := job_type j |}.

Definition job_events (j : Job) : list Event :=
  [EvFetch (job_notification j) (job_outcome j); EvCreate (job_row j)].

(** [j] is the notification the loop body builds for a pair of [wl]. *)
Definition job_from (tz : TimeZone) (today : Z) (wl : list (string * FoodItem))
  (j : Job) : Prop :=
  exists token item,
    In (token, item) wl
    /\ select_notification (daysUntilExpiration tz today item) item
       = (Some (job_type j), title (job_notification j), body (job_notification j))
    /\ to (job_notification j) = token
    /\ data (job_notification j) = f_id item.

(** From [w] to [w'] the run did a sequence of jobs and nothing else: each
    one request and one created row, for pairs of [wl], no key twice and no
    key that [w] already had. *)
Definition grows (tz : TimeZone) (today : Z) (wl : list (string * FoodItem))
  (w w' : World) : Prop :=
  exists jobs,
    users w' = users w
    /\ foodItems w' = foodItems w
    /\ notificationLog w' = notificationLog w ++ map job_row jobs
    /\ trace w' = trace w ++ flat_map job_events jobs
    /\ requests w' = (requests w + List.length jobs)%nat
    /\ (forall key, (rows_for key (map job_row jobs) <= 1)%nat)
    /\ (forall key, In key (notificationLog w) ->
                    rows_for key (map job_row jobs) = 0%nat)
    /\ Forall (job_from tz today wl) jobs.

(** The pair of [item] and the kind of its offset, if it has one, is in the
    log of [w]. *)
Definition eligible_logged (tz : TimeZone) (today : Z) (item : FoodItem)
  (w : World) : Prop :=
  forall ty t b,
    select_notification (daysUntilExpiration tz today item) item = (Some ty, t, b) ->
    In {| foodItemId := f_id item; type := ty |} (notificationLog w).

(** The specification's template table, by type tag: the body for an item's
    name. *)
Definition body_of (ty label : string) : string :=
  if String.eqb ty "expiry_day"
  then (label ++ " expires today. Use it before it goes bad!")%string
  else if String.eqb ty "one_day"
  then (label ++ " expires tomorrow. Plan to use it soon!")%string
  else if String.eqb ty "three_day"
  then (label ++ " expires in 3 days.")%string
  else ""%string.

(** The three type tags. *)
Definition is_kind (ty : string) : Prop :=
  (ty = "expiry_day" \/ ty = "one_day" \/ ty = "three_day")%string.

(** The events a computation added to the trace, from [w] to [w']. *)
Definition new_events (w w' : World) : list Event :=
  skipn (List.length (trace w)) (trace w').

(** A request of the trace is the one the loop body builds for a pair of
    [wl] whose offset is one of the thresholds. *)
Definition fetch_from (tz : TimeZone) (today : Z) (wl : list (string * FoodItem))
  (e : Event) : Prop :=
  match e with
  | EvFetch n _ =>
      exists token item,
        In (token, item) wl /\ to n = token /\ data n = f_id item
        /\ select_notification (daysUntilExpiration tz today item) item
           = (kind_of_offset (daysUntilExpiration tz today item), title n, body n)
        /\ kind_of_offset (daysUntilExpiration tz today item) <> None
  | _ => True
  end.

(** ** The states the server can reach

    The migration creates [NotificationLog] empty.  From there: runs of the
    scheduler from the cron job or the manual trigger, in any environment
    (so also with overlapping runs that commit meanwhile); a [create] of any
    row by any writer; and the other routes, which write [User] and
    [FoodItem] only. *)
Inductive reachable (tz : TimeZone) : World -> Prop :=
| reach_migrated (us : list User) (fs : list FoodItem) :
    reachable tz {| users := us; foodItems := fs; notificationLog := [];
                    trace := []; console := []; requests := 0 |}
| reach_trigger (env : Environment) (now : Z) (w : World) :
    reachable tz w -> reachable tz (snd (triggerNotificationCheck tz env now w))
| reach_cron (env : Environment) (now : Z) (w : World) :
    reachable tz w -> reachable tz (snd (cronJob tz env now w))
| reach_create (row : NotificationLog) (w : World) :
    reachable tz w -> reachable tz (snd (notificationLog_create row w))
| reach_routes (us : list User) (fs : list FoodItem) (w : World) :
    reachable tz w ->
    reachable tz {| users := us; foodItems := fs;
                    notificationLog := notificationLog w;
                    trace := trace w; console := console w;
                    requests := requests w |}.

(** ** Scenarios

    The reference date of the specification's scenario, 2024-06-10, with the
    server on UTC or on a fixed offset of four hours west (New York in
    June). *)
Definition utc : TimeZone :=
  {| LocalTZA_utc := fun _ => 0; LocalTZA_local := fun _ => 0 |}.

Definition hour : Z := 60 * 60 * 1000.
Definition minute : Z := 60 * 1000.

Definition edt : TimeZone :=
  {| LocalTZA_utc := fun _ => - (4 * hour); LocalTZA_local := fun _ => - (4 * hour) |}.

(** 2024-06-10T00:00:00Z *)
Definition june10 : Z := 1717977600000.

(** The cron job's clock reading on June 10, 09:00. *)
Definition nine_am : Z := june10 + 9 * hour.

Definition tempUser : User :=
  {| u_id := "temp-user-id"; pushToken := Some "ExponentPushToken[abc]"%string |}.

Definition item_expiring (ident label : string) (days : Z) : FoodItem :=
  {| f_id := ident; name := label; purchaseDate := june10 - 2 * msPerDay;
     expirationDate := june10 + days * msPerDay + 12 * hour;
     isEstimated := true; userId := "temp-user-id" |}.

Definition itemA : FoodItem := item_expiring "A" "Milk" 3.
Definition itemB : FoodItem := item_expiring "B" "Eggs" 1.
Definition itemC : FoodItem := item_expiring "C" "Ham" 0.
Definition itemD : FoodItem := item_expiring "D" "Rice" 2.

(** Items that expire at midnight of their day, so that the one three days
    ahead is inside the window of the query. *)
Definition item_at_midnight (ident label : string) (days : Z) : FoodItem :=
  {| f_id := ident; name := label; purchaseDate := june10 - 2 * msPerDay;
     expirationDate := june10 + days * msPerDay;
     isEstimated := true; userId := "temp-user-id" |}.

Definition itemA0 : FoodItem := item_at_midnight "A" "Milk" 3.
Definition itemB0 : FoodItem := item_at_midnight "B" "Eggs" 1.
Definition itemC0 : FoodItem := item_at_midnight "C" "Ham" 0.
Definition itemD0 : FoodItem := item_at_midnight "D" "Rice" 2.

(** A second user, who never registered a token, and an item of theirs that
    expires today. *)
Definition guestUser : User := {| u_id := "guest"; pushToken := None |}.

Definition itemG : FoodItem :=
  {| f_id := "G"; name := "Tea"; purchaseDate := june10 - 2 * msPerDay;
     expirationDate := june10; isEstimated := false; userId := "guest" |}.

Definition two_users_world : World :=
  {| users := [tempUser; guestUser];
     foodItems := [itemA0; itemA; item_at_midnight "E" "Jam" (-1); itemG];
     notificationLog := []; trace := []; console := []; requests := 0 |}.

Definition fresh_world (items : list FoodItem) : World :=
  {| users := [tempUser]; foodItems := items; notificationLog := [];
     trace := []; console := []; requests := 0 |}.

Definition accepted : FetchOutcome :=
  Resolves {| ok := true; text := Some "{}"%string |}.

Definition refused : FetchOutcome :=
  Resolves {| ok := false; text := Some "Too Many Requests"%string |}.

(** The gateway accepts everything; nobody else writes. *)
Definition gateway_up : Environment :=
  {| gateway := fun _ => accepted; concurrent := fun _ => [] |}.

(** The gateway is unreachable; nobody else writes. *)
Definition gateway_down : Environment :=
  {| gateway := fun _ => Rejects; concurrent := fun _ => [] |}.

(** The second request is refused, the others accepted. *)
Definition second_refused : Environment :=
  {| gateway := fun n => if Nat.eqb n 1 then refused else accepted;
     concurrent := fun _ => [] |}.

(** An overlapping run logs (B, one_day) while this run's first request is
    in flight. *)
Definition overlapping_run : Environment :=
  {| gateway := fun _ => accepted;
     concurrent := fun n =>
       if Nat.eqb n 0 then [{| foodItemId := "B"; type := "one_day" |}] else [] |}.

(** ** The date utilities of the app ([dateUtils]) *)

Inductive TrafficLightStatus := Green | Yellow | Red.

Definition getTrafficLightStatus (daysUntilExpiration : Z) : TrafficLightStatus :=
  if daysUntilExpiration <=? 0 then Red
  else if daysUntilExpiration <=? 3 then Yellow
  else Green.

(** [`${n}`] for an integral number [n]: decimal digits, a minus sign for a
    negative one. *)
Definition Number_toString (n : Z) : string :=
  NilZero.string_of_int (Z.to_int n).

Definition formatRelativeExpiration (daysUntilExpiration : Z) : string :=
  if daysUntilExpiration =? 0 then "Expires today"%string
  else if daysUntilExpiration =? 1 then "Expires tomorrow"%string
  else if daysUntilExpiration >? 1 then
    ("Expires in " ++ Number_toString daysUntilExpiration ++ " days")%string
  else if daysUntilExpiration =? -1 then "Expired yesterday"%string
  else ("Expired " ++ Number_toString (Z.abs daysUntilExpiration) ++ " days ago")%string.

(** [addDays]: a copy of [date] moved by [setDate(getDate() + days)]. *)
Definition addDays (tz : TimeZone) (date days : Z) : Z :=
  let result := date in
  addDate tz result days.

(** The two local midnights [calculateDaysUntilExpiration] subtracts, and
    the zone's offsets there. *)
Definition local_midnight (tz : TimeZone) (t : Z) : Z :=
  MakeDate (Day (LocalTime tz t)) 0.

Definition calendar_days_between (tz : TimeZone) (now expirationDate : Z) : Z :=
  Day (LocalTime tz expirationDate) - Day (LocalTime tz now).

Definition offset_change (tz : TimeZone) (now expirationDate : Z) : Z :=
  LocalTZA_local tz (local_midnight tz expirationDate)
  - LocalTZA_local tz (local_midnight tz now).

(** [{ ...item, daysUntilExpiration, status }] *)
Record FoodItemWithStatus := {
  base : FoodItem;
  days_until_expiration : Z;
  status : TrafficLightStatus
}.

(** [Array.prototype.sort] with the comparator
    [(a, b) => a.daysUntilExpiration - b.daysUntilExpiration]: the sort is
    stable, so the result is the one of an insertion that keeps an element
    before the equal ones that followed it. *)
Fixpoint insert_by_days (x : FoodItemWithStatus) (l : list FoodItemWithStatus)
  : list FoodItemWithStatus :=
  match l with
  | [] => [x]
  | y :: rest =>
      if days_until_expiration x <=? days_until_expiration y
      then x :: y :: rest
      else y :: insert_by_days x rest
  end.

Definition sort_by_days (l : list FoodItemWithStatus) : list FoodItemWithStatus :=
  fold_right insert_by_days [] l.

(** [addStatusToItems] of the [useFoodItems] hook, with the [new Date()] it
    reads as [now]. *)
Definition addStatusToItems (tz : TimeZone) (now : Z) (items : list FoodItem)
  : list FoodItemWithStatus :=
  sort_by_days
    (map (fun item =>
            let daysUntilExpiration :=
              calculateDaysUntilExpiration tz now (expirationDate item) in
            let status := getTrafficLightStatus daysUntilExpiration in
            {| base := item; days_until_expiration := daysUntilExpiration;
               status := status |})
         items).

(** How bad a light is: red before yellow before green. *)
Definition severity (s : TrafficLightStatus) : Z :=
  match s with Red => 0 | Yellow => 1 | Green => 2 end.

(** New York around the end of daylight saving time in 2024: clocks go from
    02:00 EDT back to 01:00 EST on November 3 (06:00 UTC). *)
Definition nov3 : Z := 1717977600000 + 146 * msPerDay.

Definition new_york_2024 : TimeZone :=
  {| LocalTZA_utc := fun t =>
       if t <? nov3 + 6 * (60 * 60 * 1000)
       then - (4 * (60 * 60 * 1000)) else - (5 * (60 * 60 * 1000));
     LocalTZA_local := fun t =>
       if t <? nov3 + 2 * (60 * 60 * 1000)
       then - (4 * (60 * 60 * 1000)) else - (5 * (60 * 60 * 1000)) |}.

(** ** Errors and the error handler ([middleware/errorHandler]) *)

(** [AppError]; [details] is the list of the messages it carries, if any. *)
Record AppError := {
  code : string;
  message : string;
  statusCode : Z;
  details : option (list string)
}.

(** What a handler can throw and pass to [next]: an [AppError], or an error
    that is not an instance of it (the ones of the promise monad, or any
    other [Error], with its name and message). *)
Inductive Thrown :=
| ThrownApp (e : AppError)
| ThrownError (e : Error)
| ThrownOther (errorName errorMessage : string).

Definition notFoundError (resource : string) : AppError :=
  {| code := "FOOD_ITEM_NOT_FOUND"; message := (resource ++ " not found")%string;
     statusCode := 404; details := None |}.

Definition validationError (msg : string) (ds : option (list string)) : AppError :=
  {| code := "VALIDATION_ERROR"; message := msg; statusCode := 400; details := ds |}.

Definition imageProcessingError (msg : string) : AppError :=
  {| code := "IMAGE_PROCESSING_FAILED"; message := msg; statusCode := 422;
     details := None |}.

(** The JSON bodies the server answers with. *)
Inductive ResponseBody :=
| BodyApiError (errorCode errorMessage : string) (errorDetails : option (list string))
| BodySuccess (success : bool) (successMessage : string)
| BodyFoodItem (item : FoodItem)
| BodyEmpty.

Record HttpResponse := {
  http_status : Z;
  http_body : ResponseBody
}.

(** [errorHandler]: the error-handling middleware of [index.ts]. *)
Definition errorHandler (err : Thrown) : World -> HttpResponse * World :=
  fun w =>
    let w' := add_console "Error:" w in
    match err with
    | ThrownApp e =>
        ({| http_status := statusCode e;
            http_body := BodyApiError (code e) (message e) (details e) |}, w')
    | _ =>
        ({| http_status := 500;
            http_body := BodyApiError "INTERNAL_ERROR"
                           "An unexpected error occurred" None |}, w')
    end.

(** A route handler either answers or hands an error to [next]; Express then
    runs [errorHandler], which [index.ts] installs after the routes. *)
Inductive Outcome :=
| Responded (r : HttpResponse)
| NextWith (err : Thrown).

Definition with_errorHandler (handler : World -> Outcome * World)
  : World -> HttpResponse * World :=
  fun w => match handler w with
           | (Responded r, w') => (r, w')
           | (NextWith err, w') => errorHandler err w'
           end.

(** [handleValidationErrors], for the messages [ms] of the validators that
    failed: the 400 answer, or [None] for [next()]. *)
Definition handleValidationErrors (ms : list string) : option HttpResponse :=
  match ms with
  | [] => None
  | _ =>
      let error := validationError "Validation failed" (Some ms) in
      Some {| http_status := statusCode error;
              http_body := BodyApiError (code error) (message error) (details error) |}
  end.

(** ** The routes of [routes/notifications] *)

Definition TEMP_USER_ID : string := "temp-user-id".

(** A value of the JSON body of a request (arrays left out). *)
Inductive JsValue :=
| JsUndefined
| JsNull
| JsBoolean (b : bool)
| JsNumber (n : Z)
| JsString (s : string)
| JsObject.

(** [body('pushToken').isString().notEmpty().withMessage(...)]: the messages
    of the validators that fail.  [isString] wants a string; [notEmpty]
    wants the value, turned into a string, not to be the empty one. *)
Definition validate_pushToken (v : JsValue) : list string :=
  (match v with JsString _ => [] | _ => ["Invalid value"%string] end)
  ++ (match v with
      | JsUndefined | JsNull | JsString EmptyString => ["Push token is required"%string]
      | _ => []
      end).

Definition set_users (us : list User) (w : World) : World :=
  {| users := us; foodItems := foodItems w; notificationLog := notificationLog w;
     trace := trace w; console := console w; requests := requests w |}.

Definition set_foodItems (fs : list FoodItem) (w : World) : World :=
  {| users := users w; foodItems := fs; notificationLog := notificationLog w;
     trace := trace w; console := console w; requests := requests w |}.

(** [prisma.user.upsert({ where: { id }, update: { pushToken },
      create: { id, pushToken } })] *)
Definition user_upsert (id : string) (token : option string) : World -> World :=
  fun w =>
    if existsb (fun u => String.eqb (u_id u) id) (users w)
    then set_users
           (map (fun u => if String.eqb (u_id u) id
                          then {| u_id := u_id u; pushToken := token |}
                          else u) (users w)) w
    else set_users (users w ++ [{| u_id := id; pushToken := token |}]) w.

(** [POST /api/notifications/register] *)
Definition registerRoute (pushTokenField : JsValue) : World -> Outcome * World :=
  fun w =>
    match handleValidationErrors (validate_pushToken pushTokenField) with
    | Some r => (Responded r, w)
    | None =>
        match pushTokenField with
        | JsString pushToken =>
            (Responded {| http_status := 200;
                          http_body := BodySuccess true "Push token registered" |},
             user_upsert TEMP_USER_ID (Some pushToken) w)
        | _ => (NextWith (ThrownOther "PrismaClientValidationError"
                            "Invalid value provided. Expected String or Null."), w)
        end
    end.

Definition POST_notifications_register (pushTokenField : JsValue)
  : World -> HttpResponse * World :=
  with_errorHandler (registerRoute pushTokenField).

(** [POST /api/notifications/trigger], through to the answer. *)
Definition POST_notifications_trigger (tz : TimeZone) (env : Environment) (now : Z)
  : World -> HttpResponse * World :=
  with_errorHandler
    (fun w => match triggerRoute tz env now w with
              | (Json success msg, w') =>
                  (Responded {| http_status := 200;
                                http_body := BodySuccess success msg |}, w')
              | (NextError e, w') => (NextWith (ThrownError e), w')
              end).

(** Every stored token is one the loop's truthiness guard lets through. *)
Definition tokens_truthy (w : World) : Prop :=
  forall u token, In u (users w) -> pushToken u = Some token -> token <> ""%string.

(** ** The routes of [routes/foodItems] that read and delete one item *)

Section FoodItemRoutes.
(** validator.js's [isUUID], which [param('id').isUUID()] applies. *)
Variable isUUID : string -> bool.

(** [validateFoodItemId] *)
Definition validateFoodItemId (id : string) : option HttpResponse :=
  handleValidationErrors
    (if isUUID id then [] else ["Invalid food item ID"%string]).

(** [prisma.foodItem.findUnique({ where: { id } })] *)
Definition foodItem_findUnique (id : string) (w : World) : option FoodItem :=
  find (fun item => String.eqb (f_id item) id) (foodItems w).

(** [prisma.foodItem.delete({ where: { id } })] *)
Definition foodItem_delete (id : string) (w : World) : option World :=
  match foodItem_findUnique id w with
  | Some _ =>
      Some (set_foodItems
              (filter (fun item => negb (String.eqb (f_id item) id)) (foodItems w)) w)
  | None => None
  end.

(** [GET /api/food-items/:id] *)
Definition getFoodItemRoute (id : string) : World -> Outcome * World :=
  fun w =>
    match validateFoodItemId id with
    | Some r => (Responded r, w)
    | None =>
        match foodItem_findUnique id w with
        | Some foodItem =>
            if negb (String.eqb (userId foodItem) TEMP_USER_ID)
            then (NextWith (ThrownApp (notFoundError "Food item")), w)
            else (Responded {| http_status := 200;
                               http_body := BodyFoodItem foodItem |}, w)
        | None => (NextWith (ThrownApp (notFoundError "Food item")), w)
        end
    end.

(** [DELETE /api/food-items/:id] *)
Definition deleteFoodItemRoute (id : string) : World -> Outcome * World :=
  fun w =>
    match validateFoodItemId id with
    | Some r => (Responded r, w)
    | None =>
        match foodItem_findUnique id w with
        | Some existing =>
            if negb (String.eqb (userId existing) TEMP_USER_ID)
            then (NextWith (ThrownApp (notFoundError "Food item")), w)
            else match foodItem_delete id w with
                 | Some w' =>
                     (Responded {| http_status := 204; http_body := BodyEmpty |}, w')
                 | None => (NextWith (ThrownOther "PrismaClientKnownRequestError"
                                      "Record to delete does not exist."), w)
                 end
        | None => (NextWith (ThrownApp (notFoundError "Food item")), w)
        end
    end.

Definition GET_foodItem (id : string) : World -> HttpResponse * World :=
  with_errorHandler (getFoodItemRoute id).

Definition DELETE_foodItem (id : string) : World -> HttpResponse * World :=
  with_errorHandler (deleteFoodItemRoute id).
End FoodItemRoutes.

(** ** Image data: [middleware/validation], [services/llmService] and
    [routes/scan]

    A JavaScript string is the sequence of its code units; the characters the
    tests below look for are all ASCII. *)

(** [\w] *)
Definition is_word_char (c : ascii) : bool :=
  (Ascii.leb "a" c && Ascii.leb c "z") || (Ascii.leb "A" c && Ascii.leb c "Z")
  || (Ascii.leb "0" c && Ascii.leb c "9") || Ascii.eqb c "_".

(** [[A-Za-z0-9+/]] *)
Definition is_base64_char (c : ascii) : bool :=
  (Ascii.leb "a" c && Ascii.leb c "z") || (Ascii.leb "A" c && Ascii.leb c "Z")
  || (Ascii.leb "0" c && Ascii.leb c "9") || Ascii.eqb c "+" || Ascii.eqb c "/".

(** What is left of [s] after the prefix [p], if [s] starts with it. *)
Fixpoint strip_prefix (p s : string) : option string :=
  match p with
  | EmptyString => Some s
  | String a p' =>
      match s with
      | String b s' => if Ascii.eqb a b then strip_prefix p' s' else None
      | EmptyString => None
      end
  end.

(** [s] without its longest prefix of word characters. *)
Fixpoint skip_word (s : string) : string :=
  match s with
  | String c rest => if is_word_char c then skip_word rest else s
  | EmptyString => s
  end.

(** [value.replace(/^data:image\/\w+;base64,/, '')]: no word character can
    stand for the [;], so [\w+] takes the whole run of word characters. *)
Definition strip_data_uri (value : string) : string :=
  match strip_prefix "data:image/" value with
  | Some (String c rest) =>
      if is_word_char c then
        match strip_prefix ";base64," (skip_word rest) with
        | Some payload => payload
        | None => value
        end
      else value
  | _ => value
  end.

Fixpoint all_padding (s : string) : bool :=
  match s with
  | EmptyString => true
  | String c rest => Ascii.eqb c "=" && all_padding rest
  end.

Fixpoint base64_then_padding (s : string) : bool :=
  match s with
  | EmptyString => true
  | String c rest => if is_base64_char c then base64_then_padding rest
                     else all_padding s
  end.

(** [/^[A-Za-z0-9+/]+=*$/.test(s)] *)
Definition base64Regex_test (s : string) : bool :=
  match s with
  | String c _ => is_base64_char c && base64_then_padding s
  | EmptyString => false
  end.

Definition validPrefixes : list string :=
  ["iVBORw0KGgo"; "/9j/"; "R0lGOD"; "UklGR"]%string.

(** [isValidBase64Image], on a string. *)
Definition isValidBase64Image (value : string) : bool :=
  if String.eqb value "" then false
  else
    let base64Data := strip_data_uri value in
    if (String.length base64Data <? 100)%nat then false
    else if negb (base64Regex_test (substring 0 100 base64Data)) then false
    else existsb (fun p => prefix p base64Data) validPrefixes.

(** [validateImageUpload]: the messages of the validators of [body('image')]
    that fail. *)
Definition validateImageUpload (image : JsValue) : list string :=
  (match image with JsString _ => [] | _ => ["Invalid value"%string] end)
  ++ (match image with
      | JsUndefined | JsNull | JsString EmptyString => ["Image data is required"%string]
      | _ => []
      end)
  ++ (match image with
      | JsString value =>
          if isValidBase64Image value then []
          else ["Invalid image data. Expected base64-encoded PNG, JPEG, GIF, or WebP image."%string]
      | _ => ["Invalid image data. Expected base64-encoded PNG, JPEG, GIF, or WebP image."%string]
      end).

(** [detectImageFormat] *)
Definition detectImageFormat (base64 : string) : string :=
  let header := substring 0 20 base64 in
  if prefix "iVBORw0KGgo" header then "png"
  else if prefix "/9j/" header then "jpeg"
  else if prefix "R0lGOD" header then "gif"
  else if prefix "UklGR" header then "webp"
  else "jpeg".

(** The [imageUrl] that [processReceiptImage] and [processLabelImage] build
    from their argument before they call the model. *)
Definition imageUrl_of (imageBase64 : string) : string :=
  if negb (prefix "data:" imageBase64)
  then ("data:image/" ++ detectImageFormat imageBase64 ++ ";base64," ++ imageBase64)%string
  else imageBase64.

(** The test [routes/scan] makes for "a file path instead of base64". *)
Definition looks_like_file_path (image : string) : bool :=
  prefix "file://" image || prefix "/" image || prefix "content://" image.

(** [haystack.includes(needle)] *)
Definition includes (haystack needle : string) : bool :=
  match index 0 needle haystack with Some _ => true | None => false end.

(** [content.match(/\[[\s\S]*\]/)]: from the first [[] to the last []]
    after it. *)
Fixpoint from_first (c : ascii) (s : string) : option string :=
  match s with
  | EmptyString => None
  | String a rest => if Ascii.eqb a c then Some s else from_first c rest
  end.

Fixpoint up_to_last (c : ascii) (s : string) : option string :=
  match s with
  | EmptyString => None
  | String a rest =>
      match up_to_last c rest with
      | Some p => Some (String a p)
      | None => if Ascii.eqb a c then Some (String a EmptyString) else None
      end
  end.

Definition match_bracketed (content : string) : option string :=
  match from_first "[" content with
  | Some (String a rest) =>
      match up_to_last "]" rest with
      | Some p => Some (String a p)
      | None => None
      end
  | _ => None
  end.

Section Scan.
(** The text of the constant [RECEIPT_PROMPT]. *)
Variable RECEIPT_PROMPT : string.
(** The values [JSON.parse] returns, and [JSON.parse] itself: a value, or the
    message of the [SyntaxError] it throws. *)
Variable JSON : Type.
Variable JSON_parse : string -> string + JSON.
(** [openai.chat.completions.create] for a prompt and an image URL: the
    [content] of the first choice ([None] when there is none), or the name
    and message of the error the call throws. *)
Variable openai : string -> string -> (string * string) + option string.

(** What [processReceiptImage] returns: [{ items }]. *)
Inductive ScanReceiptResponse :=
| ParsedItems (items : JSON)
| NoItems.                       (* { items: [] } *)

Definition error_message (err : Thrown) : option string :=
  match err with
  | ThrownApp e => Some (message e)
  | ThrownOther _ m => Some m
  | ThrownError _ => None
  end.

(** The [try] block of [processReceiptImage]. *)
Definition processReceiptImage_try (imageBase64 : string)
  : World -> (Thrown + ScanReceiptResponse) * World :=
  fun w =>
    let imageUrl := imageUrl_of imageBase64 in
    match openai RECEIPT_PROMPT imageUrl with
    | inl (errorName, errorMessage) => (inl (ThrownOther errorName errorMessage), w)
    | inr content =>
        let w1 := add_console (match content with Some c => c | None => "undefined" end) w in
        match truthy content with
        | None => (inl (ThrownApp (imageProcessingError "No response from LLM")), w1)
        | Some content =>
            match match_bracketed content with
            | None => (inr NoItems, w1)
            | Some jsonMatch =>
                match JSON_parse jsonMatch with
                | inl m => (inl (ThrownOther "SyntaxError" m), w1)
                | inr items => (inr (ParsedItems items), w1)
                end
            end
        end
    end.

(** [processReceiptImage]: the [try] block and its [catch]. *)
Definition processReceiptImage (imageBase64 : string)
  : World -> (Thrown + ScanReceiptResponse) * World :=
  fun w =>
    match processReceiptImage_try imageBase64 w with
    | (inr r, w') => (inr r, w')
    | (inl error, w') =>
        match error_message error with
        | Some m =>
            if includes m "No response" then (inl error, w')
            else (inl (ThrownApp (imageProcessingError "Failed to process receipt image")),
                  add_console "LLM processing error:" w')
        | None =>
            (inl (ThrownApp (imageProcessingError "Failed to process receipt image")),
             add_console "LLM processing error:" w')
        end
    end.

(** The answer of [POST /api/scan/receipt]: a status with an error body, or
    200 with the result. *)
Inductive ScanAnswer :=
| ScanError (r : HttpResponse)
| ScanOk (result : ScanReceiptResponse).

(** [POST /api/scan/receipt], for the [image] field of the body, through
    [validateImageUpload], the handler and [errorHandler]. *)
Definition POST_scan_receipt (imageField : JsValue) : World -> ScanAnswer * World :=
  fun w =>
    match handleValidationErrors (validateImageUpload imageField) with
    | Some r => (ScanError r, w)
    | None =>
        match imageField with
        | JsString image =>
            let w1 := add_console "[SCAN] Image preview (first 50 chars):"
                        (add_console "[SCAN] Image data length:"
                           (add_console "[SCAN] Receipt scan request received" w)) in
            if looks_like_file_path image then
              (ScanError
                 {| http_status := 400;
                    http_body :=
                      BodyApiError "INVALID_IMAGE_DATA"
                        "Received file path instead of base64-encoded image data. Please convert the image to base64 before sending."
                        None |},
               add_console "[SCAN] ERROR: Received file path instead of base64 data" w1)
            else
              match processReceiptImage image w1 with
              | (inr result, w2) =>
                  (ScanOk result,
                   add_console "[SCAN] Receipt processing complete, items found:" w2)
              | (inl error, w2) =>
                  let '(r, w3) := errorHandler error
                                    (add_console "[SCAN] Receipt scan error:" w2) in
                  (ScanError r, w3)
              end
        | _ =>
            let '(r, w1) := errorHandler (ThrownOther "TypeError"
                                            "image.substring is not a function") w in
            (ScanError r, w1)
        end
    end.
End Scan.

(** The two error answers of the scan routes that come from [errorHandler]:
    for an [AppError] made by [imageProcessingError], and for any other
    error. *)
Definition failed_422 (msg : string) : HttpResponse :=
  {| http_status := 422;
     http_body := BodyApiError "IMAGE_PROCESSING_FAILED" msg None |}.

Definition internal_500 : HttpResponse :=
  {| http_status := 500;
     http_body := BodyApiError "INTERNAL_ERROR" "An unexpected error occurred" None |}.

(** validator.js's [isUUID] for the ids of the scenarios below: 8-4-4-4-12
    hexadecimal digits. *)
Definition is_hex_char (c : ascii) : bool :=
  (Ascii.leb "0" c && Ascii.leb c "9") || (Ascii.leb "a" c && Ascii.leb c "f")
  || (Ascii.leb "A" c && Ascii.leb c "F").

Fixpoint has_shape (shape : list nat) (s : string) : bool :=
  match shape with
  | [] => match s with EmptyString => true | _ => false end
  | O :: groups =>
      match groups, s with
      | [], EmptyString => true
      | _ :: _, String c rest => Ascii.eqb c "-" && has_shape groups rest
      | _, _ => false
      end
  | S k :: groups =>
      match s with
      | String c rest => is_hex_char c && has_shape (k :: groups) rest
      | EmptyString => false
      end
  end.

Definition uuid_shape (s : string) : bool := has_shape [8; 4; 4; 4; 12]%nat s.

Definition milk_id : string := "3f2b8c1e-0a1b-4c2d-8e3f-000000000001".

Definition milk : FoodItem :=
  {| f_id := milk_id; name := "Milk"; purchaseDate := june10 - 2 * msPerDay;
     expirationDate := june10; isEstimated := true; userId := "temp-user-id" |}.

Definition guest_tea : FoodItem :=
  {| f_id := "3f2b8c1e-0a1b-4c2d-8e3f-000000000002"; name := "Tea";
     purchaseDate := june10 - 2 * msPerDay; expirationDate := june10;
     isEstimated := false; userId := "guest" |}.

(** Image data for the scenarios: the first characters of a PNG and of a
    JPEG in base64, followed by a hundred [A]. *)
Fixpoint copies (n : nat) (c : ascii) : string :=
  match n with
  | O => EmptyString
  | S k => String c (copies k c)
  end.

Definition sample_png : string :=
  ("iVBORw0KGgoAAAANSUhEUgAA" ++ copies 100 "A")%string.

Definition sample_jpeg : string :=
  ("/9j/4AAQSkZJRgABAQEASABI" ++ copies 100 "A")%string.

(** The requests to the gateway in a trace. *)
Definition fetches (tr : list Event) : nat :=
  List.length (filter is_fetch tr).

(** [v] is [w] after some computation of the service: the same users and
    food items, and a log, a trace and a console that were only added to. *)
Definition extends (w v : World) : Prop :=
  users v = users w /\ foodItems v = foodItems w
  /\ (exists added, notificationLog v = notificationLog w ++ added)
  /\ (exists new, trace v = trace w ++ new)
  /\ (exists lines, console v = console w ++ lines).

(** The console lines the requests of a stretch of trace left: for each
    request what [sendPushNotification] writes for its outcome. *)
Definition failure_lines (tr : list Event) : list string :=
  flat_map (fun e => match e with
                     | EvFetch _ o => complaints o
                     | _ => []
                     end) tr.

(** ** Overlapping runs

    A run gives up control at each [await] and does what lies between two
    awaits at once.  The points at which a run can be found: before its
    query; before the loop body of the next pair, with the pairs still to
    do; before the request for a pair whose row [findUnique] did not find;
    before the [create] that follows the request; and at its end. *)
Inductive RunPoint :=
| BeforeQuery
| BeforeLookup (todo : list (string * FoodItem))
| BeforeSend (notification : ExpoNotification) (row : NotificationLog)
    (todo : list (string * FoodItem))
| BeforeCreate (row : NotificationLog) (todo : list (string * FoodItem))
| RunEnded (c : Completion unit).

Section Overlap.
Variable tz : TimeZone.
Variable env : Environment.
Variable now : Z.

(** A run goes on from one point to the next. *)
Definition advance (p : RunPoint) : World -> RunPoint * World :=
  fun w =>
    let today := setHours0 tz now in
    match p with
    | BeforeQuery => (BeforeLookup (worklist tz now w), w)
    | BeforeLookup [] => (RunEnded (Normal tt), w)
    | BeforeLookup ((token, item) :: todo) =>
        let '(notificationType, title, body) :=
          select_notification (daysUntilExpiration tz today item) item in
        match truthy notificationType with
        | Some notificationType =>
            let row := {| foodItemId := f_id item; type := notificationType |} in
            match notificationLog_findUnique row w with
            | (Normal None, w') =>
                (BeforeSend {| to := token; title := title; body := body;
                               data := f_id item |} row todo, w')
            | (Normal (Some _), w') => (BeforeLookup todo, w')
            | (Throw e, w') => (RunEnded (Throw e), w')
            end
        | None => (BeforeLookup todo, w)
        end
    | BeforeSend notification row todo =>
        match sendPushNotification env notification w with
        | (Normal _, w') => (BeforeCreate row todo, w')
        | (Throw e, w') => (RunEnded (Throw e), w')
        end
    | BeforeCreate row todo =>
        match notificationLog_create row w with
        | (Normal _, w') => (BeforeLookup todo, w')
        | (Throw e, w') => (RunEnded (Throw e), w')
        end
    | RunEnded c => (RunEnded c, w)
    end.

(** Two runs on one database and one gateway; the schedule says which of
    them goes on next ([true]: the first). *)
Fixpoint interleave (schedule : list bool) (a b : RunPoint) (w : World)
  : RunPoint * RunPoint * World :=
  match schedule with
  | [] => (a, b, w)
  | true :: rest => let '(a', w') := advance a w in interleave rest a' b w'
  | false :: rest => let '(b', w') := advance b w in interleave rest a b' w'
  end.
End Overlap.

(** A zone without clock changes: local time is UTC plus [offset]
    throughout. *)
Definition fixed_offset (offset : Z) (tz : TimeZone) : Prop :=
  forall t, LocalTZA_utc tz t = offset /\ LocalTZA_local tz t = offset.

(** ** Keys and the unique index *)

Definition NotificationLog_eq_dec (a b : NotificationLog) : {a = b} + {a <> b}.
Proof. decide equality; apply string_dec. Defined.

Lemma same_key_eq (a b : NotificationLog) : same_key a b = true <-> a = b.
Proof.
  unfold same_key. rewrite andb_true_iff, !String.eqb_eq.
  destruct a as [ia ta], b as [ib tb]; simpl. split.
  - intros [-> ->]. reflexivity.
  - intros H. injection H as -> ->. split; reflexivity.
Qed.

Lemma same_key_refl (a : NotificationLog) : same_key a a = true.
Proof. apply same_key_eq. reflexivity. Qed.

Lemma same_key_neq (a b : NotificationLog) : same_key a b = false <-> a <> b.
Proof.
  rewrite <- not_true_iff_false, same_key_eq. reflexivity.
Qed.

Lemma rows_for_app (key : NotificationLog) (l1 l2 : list NotificationLog) :
  rows_for key (l1 ++ l2) = (rows_for key l1 + rows_for key l2)%nat.
Proof. unfold rows_for. rewrite filter_app, length_app. reflexivity. Qed.

Lemma rows_for_zero (key : NotificationLog) (tbl : list NotificationLog) :
  rows_for key tbl = 0%nat <-> ~ In key tbl.
Proof.
  unfold rows_for. induction tbl as [|r tbl IH]; simpl.
  - tauto.
  - destruct (same_key key r) eqn:E; simpl.
    + apply same_key_eq in E. subst r. split; [discriminate | intros H; exfalso; auto].
    + apply same_key_neq in E. rewrite IH. split.
      * intros H [H1 | H1]; [congruence | auto].
      * intros H H1. apply H. right. exact H1.
Qed.

Lemma rows_for_pos (key : NotificationLog) (tbl : list NotificationLog) :
  In key tbl <-> (1 <= rows_for key tbl)%nat.
Proof.
  split.
  - intros H. destruct (rows_for key tbl) eqn:E; [|lia].
    apply rows_for_zero in E. contradiction.
  - intros H. destruct (in_dec NotificationLog_eq_dec key tbl) as [i | n].
    + exact i.
    + apply rows_for_zero in n. lia.
Qed.

Lemma existsb_same_key (row : NotificationLog) (tbl : list NotificationLog) :
  existsb (same_key row) tbl = true <-> In row tbl.
Proof.
  rewrite existsb_exists. split.
  - intros [x [Hx E]]. apply same_key_eq in E. subst x. exact Hx.
  - intros H. exists row. split; [exact H | apply same_key_refl].
Qed.

Lemma existsb_same_key_false (row : NotificationLog) (tbl : list NotificationLog) :
  existsb (same_key row) tbl = false <-> ~ In row tbl.
Proof. rewrite <- not_true_iff_false, existsb_same_key. reflexivity. Qed.

Lemma findUnique_None (key : NotificationLog) (tbl : list NotificationLog) :
  table_findUnique key tbl = None <-> ~ In key tbl.
Proof.
  unfold table_findUnique. split.
  - intros H Hin. apply (find_none _ _ H) in Hin. rewrite same_key_refl in Hin.
    discriminate.
  - intros H. destruct (find (same_key key) tbl) eqn:E; [|reflexivity].
    apply find_some in E. destruct E as [Hin E]. apply same_key_eq in E.
    subst n. contradiction.
Qed.

Lemma findUnique_Some (key : NotificationLog) (tbl : list NotificationLog) :
  (exists r, table_findUnique key tbl = Some r) <-> In key tbl.
Proof.
  destruct (table_findUnique key tbl) eqn:E.
  - split; [intros _ | intros _; eauto].
    apply find_some in E. destruct E as [Hin E]. apply same_key_eq in E.
    subst n. exact Hin.
  - split; [intros [r H]; discriminate | intros H].
    apply findUnique_None in E. contradiction.
Qed.

Lemma unique_keys_nil : unique_keys [].
Proof. intros key. unfold rows_for. simpl. lia. Qed.

Lemma unique_keys_snoc (row : NotificationLog) (tbl : list NotificationLog) :
  unique_keys tbl -> ~ In row tbl -> unique_keys (tbl ++ [row]).
Proof.
  intros U Hn key. rewrite rows_for_app.
  unfold rows_for at 2. simpl.
  destruct (same_key key row) eqn:E; simpl.
  - apply same_key_eq in E. subst key. apply rows_for_zero in Hn. lia.
  - specialize (U key). lia.
Qed.

Lemma table_insert_unique (row : NotificationLog) (tbl tbl' : list NotificationLog) :
  unique_keys tbl -> table_insert row tbl = Some tbl' -> unique_keys tbl'.
Proof.
  unfold table_insert. intros U H.
  destruct (existsb (same_key row) tbl) eqn:E; [discriminate|].
  injection H as <-. apply unique_keys_snoc; [exact U|].
  apply existsb_same_key_false. exact E.
Qed.

Lemma commit_all_unique (rows tbl : list NotificationLog) :
  unique_keys tbl -> unique_keys (commit_all rows tbl).
Proof.
  unfold commit_all. revert tbl.
  induction rows as [|r rows IH]; simpl; intros tbl U; [exact U|].
  apply IH. destruct (table_insert r tbl) eqn:E; [|exact U].
  eapply table_insert_unique; eauto.
Qed.

Lemma commit_all_incl (rows tbl : list NotificationLog) (key : NotificationLog) :
  In key tbl -> In key (commit_all rows tbl).
Proof.
  unfold commit_all. revert tbl.
  induction rows as [|r rows IH]; simpl; intros tbl H; [exact H|].
  apply IH. unfold table_insert.
  destruct (existsb (same_key r) tbl); [exact H|].
  apply in_or_app. left. exact H.
Qed.

Lemma commit_all_nil (tbl : list NotificationLog) : commit_all [] tbl = tbl.
Proof. reflexivity. Qed.

(** ** The thresholds *)

Lemma select_notification_cases (d : Z) (item : FoodItem) :
  (d = 0 /\ select_notification d item =
     (Some "expiry_day"%string, "Food Expiring Today!"%string,
      (name item ++ " expires today. Use it before it goes bad!")%string))
  \/ (d = 1 /\ select_notification d item =
     (Some "one_day"%string, "Food Expiring Tomorrow"%string,
      (name item ++ " expires tomorrow. Plan to use it soon!")%string))
  \/ (d = 3 /\ select_notification d item =
     (Some "three_day"%string, "Food Expiring Soon"%string,
      (name item ++ " expires in 3 days.")%string))
  \/ (d <> 0 /\ d <> 1 /\ d <> 3 /\
      select_notification d item = (None, ""%string, ""%string)).
Proof.
  unfold select_notification.
  destruct (Z.eqb_spec d 0) as [-> | H0]; [left; split; reflexivity|].
  destruct (Z.eqb_spec d 1) as [-> | H1]; [right; left; split; reflexivity|].
  destruct (Z.eqb_spec d 3) as [-> | H3];
    [right; right; left; split; reflexivity|].
  right; right; right. repeat split; assumption.
Qed.

Lemma select_notification_kind (d : Z) (item : FoodItem) :
  fst (fst (select_notification d item)) = kind_of_offset d.
Proof.
  unfold kind_of_offset.
  destruct (select_notification_cases d item)
    as [[-> E] | [[-> E] | [[-> E] | (H0 & H1 & H3 & E)]]]; rewrite E; simpl;
    try reflexivity.
  destruct (Z.eqb_spec d 3); [contradiction|].
  destruct (Z.eqb_spec d 1); [contradiction|].
  destruct (Z.eqb_spec d 0); [contradiction|]. reflexivity.
Qed.

Lemma select_notification_Some (d : Z) (item : FoodItem) (ty t b : string) :
  select_notification d item = (Some ty, t, b) ->
  truthy (Some ty) = Some ty /\ t = title_of ty /\ kind_of_offset d = Some ty
  /\ (d = 0 \/ d = 1 \/ d = 3).
Proof.
  intros E. pose proof (select_notification_kind d item) as K.
  destruct (select_notification_cases d item)
    as [[-> E'] | [[-> E'] | [[-> E'] | (H0 & H1 & H3 & E')]]];
    rewrite E' in E; inversion E; subst; simpl; auto 10.
Qed.

Lemma select_notification_None (d : Z) (item : FoodItem) (t b : string) :
  select_notification d item = (None, t, b) -> d <> 0 /\ d <> 1 /\ d <> 3.
Proof.
  intros E.
  destruct (select_notification_cases d item)
    as [[-> E'] | [[-> E'] | [[-> E'] | (H0 & H1 & H3 & E')]]];
    rewrite E' in E; try discriminate. auto.
Qed.

Lemma title_of_inj_kind (d : Z) (ty ty' : string) :
  kind_of_offset d = Some ty ->
  (ty' = "expiry_day" \/ ty' = "one_day" \/ ty' = "three_day")%string ->
  title_of ty = title_of ty' -> ty = ty'.
Proof.
  unfold kind_of_offset. intros K V.
  destruct (d =? 3); [|destruct (d =? 1); [|destruct (d =? 0); [|discriminate]]];
    injection K as <-; destruct V as [-> | [-> | ->]]; simpl; intros H;
    first [reflexivity | discriminate H].
Qed.

(** ** The steps of a run *)

Section Steps.
Variable tz : TimeZone.
Variable env : Environment.

Lemma sendPushNotification_run (notification : ExpoNotification) (w : World) :
  sendPushNotification env notification w
  = (Normal tt, sent_world env notification w).
Proof.
  unfold sendPushNotification, try_catch, bind, fetch_push, sent_world,
    complaints, response_text, console_error, ret.
  destruct (gateway env (requests w)) as [[o t] |]; simpl.
  - destruct o; simpl.
    + rewrite app_nil_r. reflexivity.
    + destruct t; reflexivity.
  - reflexivity.
Qed.

Lemma processItem_no_threshold (today : Z) (token : string) (item : FoodItem)
  (w : World) :
  kind_of_offset (daysUntilExpiration tz today item) = None ->
  processItem tz env today token item w = (Normal tt, w).
Proof.
  intros K. unfold processItem.
  rewrite <- select_notification_kind with (item := item) in K.
  destruct (select_notification _ item) as [[ty t] b]. simpl in K. subst ty.
  reflexivity.
Qed.

Lemma processItem_logged (today : Z) (token : string) (item : FoodItem)
  (w : World) (ty t b : string) :
  select_notification (daysUntilExpiration tz today item) item = (Some ty, t, b) ->
  In {| foodItemId := f_id item; type := ty |} (notificationLog w) ->
  processItem tz env today token item w = (Normal tt, w).
Proof.
  intros E Hin. unfold processItem. rewrite E.
  destruct (select_notification_Some _ _ _ _ _ E) as [T _]. rewrite T.
  unfold bind, notificationLog_findUnique.
  apply findUnique_Some in Hin. destruct Hin as [r ->]. reflexivity.
Qed.

Lemma processItem_send (today : Z) (token : string) (item : FoodItem)
  (w : World) (ty t b : string) :
  select_notification (daysUntilExpiration tz today item) item = (Some ty, t, b) ->
  ~ In {| foodItemId := f_id item; type := ty |} (notificationLog w) ->
  let key := {| foodItemId := f_id item; type := ty |} in
  let w1 := sent_world env
              {| to := token; title := t; body := b; data := f_id item |} w in
  processItem tz env today token item w
  = if existsb (same_key key) (notificationLog w1)
    then (Throw (UniqueConstraintFailed key), add_event (EvCreateRejected key) w1)
    else (Normal tt,
          set_notificationLog (notificationLog w1 ++ [key])
            (add_event (EvCreate key) w1)).
Proof.
  intros E Hn key w1. unfold processItem. rewrite E.
  destruct (select_notification_Some _ _ _ _ _ E) as [T _]. rewrite T.
  unfold bind at 1. unfold notificationLog_findUnique.
  apply findUnique_None in Hn. rewrite Hn.
  unfold bind at 1. rewrite sendPushNotification_run. fold w1.
  unfold bind, notificationLog_create, table_insert. fold key.
  destruct (existsb (same_key key) (notificationLog w1)); reflexivity.
Qed.
End Steps.

(** ** Loops *)

Lemma forM_cons {A} (x : A) (l : list A) (f : A -> M unit) (w : World) :
  forM_ (x :: l) f w
  = match f x w with
    | (Normal _, w') => forM_ l f w'
    | (Throw e, w') => (Throw e, w')
    end.
Proof. reflexivity. Qed.

(** A loop whose steps all complete, each in a reflexive and transitive
    relation [R] to the world before; what a step establishes ([Q]) and later
    steps keep holds at the end for every element. *)
Lemma forM_rel {A} (R : World -> World -> Prop) (Q : A -> World -> Prop)
  (f : A -> M unit) (l : list A) :
  (forall w, R w w) ->
  (forall w1 w2 w3, R w1 w2 -> R w2 w3 -> R w1 w3) ->
  (forall x w w', Q x w -> R w w' -> Q x w') ->
  (forall x w, In x l -> exists w', f x w = (Normal tt, w') /\ R w w' /\ Q x w') ->
  forall w, exists w',
    forM_ l f w = (Normal tt, w') /\ R w w' /\ forall x, In x l -> Q x w'.
Proof.
  intros Rrefl Rtrans Qstable. induction l as [|x l IH]; intros Hstep w.
  - exists w. repeat split; [apply Rrefl | intros x []].
  - destruct (Hstep x w (or_introl eq_refl)) as (w1 & E1 & R1 & Q1).
    destruct (IH (fun y v Hy => Hstep y v (or_intror Hy)) w1) as (w2 & E2 & R2 & Q2).
    exists w2. rewrite forM_cons, E1. repeat split.
    + exact E2.
    + eapply Rtrans; eauto.
    + intros y [<- | Hy]; [eapply Qstable; eauto | auto].
Qed.

(** An invariant of the world that every step keeps, thrown or not. *)
Lemma forM_inv {A} (I : World -> Prop) (f : A -> M unit) (l : list A) :
  (forall x w, In x l -> I w -> I (snd (f x w))) ->
  forall w, I w -> I (snd (forM_ l f w)).
Proof.
  induction l as [|x l IH]; intros Hstep w Hw; [exact Hw|].
  rewrite forM_cons. specialize (Hstep x w (or_introl eq_refl) Hw) as H1.
  destruct (f x w) as [[[] | e] w1]; simpl in *.
  - apply IH; [|exact H1]. intros y v Hy. apply Hstep. right. exact Hy.
  - exact H1.
Qed.

(** A loop whose steps all leave [w] as it is. *)
Lemma forM_idle {A} (f : A -> M unit) (l : list A) (w : World) :
  (forall x, In x l -> f x w = (Normal tt, w)) -> forM_ l f w = (Normal tt, w).
Proof.
  induction l as [|x l IH]; intros H; [reflexivity|].
  rewrite forM_cons, (H x (or_introl eq_refl)). apply IH.
  intros y Hy. apply H. right. exact Hy.
Qed.

(** A step that throws ends the loop: the rest is not run. *)
Lemma forM_throw {A} (f : A -> M unit) (x : A) (rest : list A) (w w' : World)
  (e : Error) :
  f x w = (Throw e, w') -> forM_ (x :: rest) f w = (Throw e, w').
Proof. intros H. rewrite forM_cons, H. reflexivity. Qed.

Lemma forM_app {A} (l1 l2 : list A) (f : A -> M unit) (w : World) :
  forM_ (l1 ++ l2) f w
  = match forM_ l1 f w with
    | (Normal _, w') => forM_ l2 f w'
    | (Throw e, w') => (Throw e, w')
    end.
Proof.
  revert w. induction l1 as [|x l1 IH]; intros w; [reflexivity|].
  rewrite <- app_comm_cons, !forM_cons.
  destruct (f x w) as [[[] | e] w1]; [apply IH | reflexivity].
Qed.

(** ** Growth of the log *)

Section Growth.
Variable tz : TimeZone.
Variable today : Z.
Variable wl : list (string * FoodItem).

Lemma grows_refl (w : World) : grows tz today wl w w.
Proof.
  exists []. simpl. rewrite !app_nil_r, Nat.add_0_r.
  repeat split; auto.
Qed.

Lemma grows_trans (w1 w2 w3 : World) :
  grows tz today wl w1 w2 -> grows tz today wl w2 w3 -> grows tz today wl w1 w3.
Proof.
  intros (j1 & U1 & F1 & L1 & T1 & N1 & A1 & B1 & V1)
         (j2 & U2 & F2 & L2 & T2 & N2 & A2 & B2 & V2).
  exists (j1 ++ j2).
  rewrite map_app, flat_map_app, length_app, !app_assoc.
  repeat split; try congruence.
  - rewrite N2, N1. lia.
  - intros key. rewrite rows_for_app.
    specialize (A1 key). specialize (A2 key).
    destruct (rows_for key (map job_row j1)) as [|n] eqn:E; [lia|].
    assert (In key (notificationLog w2)) as Hin.
    { rewrite L1. apply in_or_app. right. apply rows_for_pos. lia. }
    rewrite (B2 key Hin). lia.
  - intros key Hin. rewrite rows_for_app, (B1 key Hin).
    rewrite (B2 key); [reflexivity|]. rewrite L1. apply in_or_app. left. exact Hin.
  - apply Forall_app. split; assumption.
Qed.

Lemma grows_log_incl (w w' : World) (key : NotificationLog) :
  grows tz today wl w w' -> In key (notificationLog w) -> In key (notificationLog w').
Proof.
  intros (j & _ & _ & L & _) H. rewrite L. apply in_or_app. left. exact H.
Qed.

Lemma grows_unique (w w' : World) :
  grows tz today wl w w' -> unique_keys (notificationLog w) ->
  unique_keys (notificationLog w').
Proof.
  intros (j & _ & _ & L & _ & _ & A & B & _) U key.
  rewrite L, rows_for_app. specialize (U key). specialize (A key).
  destruct (rows_for key (notificationLog w)) as [|n] eqn:E; [lia|].
  rewrite (B key); [lia|]. apply rows_for_pos. lia.
Qed.
End Growth.

(** ** A run without concurrent writers *)

Lemma worklist_In (tz : TimeZone) (now : Z) (w : World) (token : string)
  (item : FoodItem) :
  In (token, item) (worklist tz now w) <->
  exists entry, In entry (queried tz now w)
                /\ truthy (pushToken (fst entry)) = Some token
                /\ In item (snd entry).
Proof.
  unfold worklist. rewrite in_flat_map. split.
  - intros (entry & He & H). exists entry.
    destruct (truthy (pushToken (fst entry))) as [tok|]; [|destruct H].
    apply in_map_iff in H. destruct H as (it & E & Hit). inversion E; subst.
    auto.
  - intros (entry & He & T & Hit). exists entry. split; [exact He|].
    rewrite T. apply in_map. exact Hit.
Qed.

Lemma check_unfold (tz : TimeZone) (env : Environment) (now : Z) (w : World) :
  checkAndSendExpirationNotifications tz env now w
  = forM_ (queried tz now w) (processUser tz env (setHours0 tz now)) w.
Proof. reflexivity. Qed.

Lemma queried_same_tables (tz : TimeZone) (now now' : Z) (w w' : World) :
  users w' = users w -> foodItems w' = foodItems w ->
  setHours0 tz now' = setHours0 tz now ->
  queried tz now' w' = queried tz now w.
Proof.
  intros U F D. unfold queried, user_findMany. rewrite U, F, D. reflexivity.
Qed.

Lemma worklist_same_tables (tz : TimeZone) (now now' : Z) (w w' : World) :
  users w' = users w -> foodItems w' = foodItems w ->
  setHours0 tz now' = setHours0 tz now ->
  worklist tz now' w' = worklist tz now w.
Proof.
  intros U F D. unfold worklist. rewrite (queried_same_tables tz now now' w w'); auto.
Qed.

Section Sequential.
Variable tz : TimeZone.
Variable env : Environment.
Hypothesis alone : no_concurrent_writer env.

Lemma processItem_sequential (today : Z) (wl : list (string * FoodItem))
  (token : string) (item : FoodItem) (w : World) :
  In (token, item) wl ->
  exists w', processItem tz env today token item w = (Normal tt, w')
             /\ grows tz today wl w w'
             /\ eligible_logged tz today item w'.
Proof.
  intros Hwl.
  destruct (select_notification (daysUntilExpiration tz today item) item)
    as [[[ty|] t] b] eqn:E.
  - destruct (in_dec NotificationLog_eq_dec
                {| foodItemId := f_id item; type := ty |} (notificationLog w))
      as [Hin | Hn].
    + exists w. split; [eapply processItem_logged; eauto|].
      split; [apply grows_refl|].
      intros ty' t' b' E'. rewrite E in E'. inversion E'; subst. exact Hin.
    + pose proof (processItem_send tz env today token item w ty t b E Hn) as P.
      cbv zeta in P. unfold sent_world in P at 1. simpl notificationLog in P.
      rewrite alone, commit_all_nil in P.
      apply existsb_same_key_false in Hn. rewrite Hn in P.
      eexists. split; [exact P|]. split.
      * exists [{| job_notification :=
                     {| to := token; title := t; body := b; data := f_id item |};
                   job_type := ty;
                   job_outcome := gateway env (requests w) |}].
        unfold sent_world, job_row, job_events. simpl.
        rewrite <- app_assoc, Nat.add_1_r. simpl.
        repeat split.
        -- intros key. unfold rows_for. simpl.
           destruct (same_key key _); simpl; lia.
        -- intros key Hin. unfold rows_for. simpl.
           destruct (same_key key _) eqn:K; [|reflexivity].
           apply same_key_eq in K. subst key.
           apply existsb_same_key_false in Hn. contradiction.
        -- constructor; [|constructor]. exists token, item. simpl. auto.
      * intros ty' t' b' E'. rewrite E in E'. inversion E'; subst.
        simpl. apply in_or_app. right. left. reflexivity.
  - exists w. split.
    + apply processItem_no_threshold.
      rewrite <- select_notification_kind with (item := item), E. reflexivity.
    + split; [apply grows_refl|]. intros ty' t' b' E'. rewrite E in E'.
      discriminate.
Qed.

Lemma eligible_logged_grows (today : Z) (wl : list (string * FoodItem))
  (item : FoodItem) (w w' : World) :
  eligible_logged tz today item w -> grows tz today wl w w' ->
  eligible_logged tz today item w'.
Proof.
  intros H G ty t b E. eapply grows_log_incl; eauto.
Qed.

Lemma processUser_sequential (today : Z) (wl : list (string * FoodItem))
  (entry : User * list FoodItem) (w : World) :
  (forall token item, truthy (pushToken (fst entry)) = Some token ->
                      In item (snd entry) -> In (token, item) wl) ->
  exists w', processUser tz env today entry w = (Normal tt, w')
             /\ grows tz today wl w w'
             /\ forall token item,
                  truthy (pushToken (fst entry)) = Some token ->
                  In item (snd entry) -> eligible_logged tz today item w'.
Proof.
  intros Hwl. destruct entry as [user items]. unfold processUser. simpl in *.
  destruct (truthy (pushToken user)) as [token|].
  - destruct (forM_rel (grows tz today wl) (eligible_logged tz today)
                (processItem tz env today token) items
                (grows_refl tz today wl) (grows_trans tz today wl)
                (eligible_logged_grows today wl)) with (w := w)
      as (w' & E & G & Q).
    + intros item v Hin. apply processItem_sequential. apply Hwl; auto.
    + exists w'. repeat split; auto.
  - exists w. repeat split; [apply grows_refl | discriminate].
Qed.

Lemma run_sequential (now : Z) (w : World) :
  exists w',
    checkAndSendExpirationNotifications tz env now w = (Normal tt, w')
    /\ grows tz (setHours0 tz now) (worklist tz now w) w w'
    /\ forall token item, In (token, item) (worklist tz now w) ->
                          eligible_logged tz (setHours0 tz now) item w'.
Proof.
  rewrite check_unfold.
  set (today := setHours0 tz now). set (wl := worklist tz now w).
  destruct (forM_rel (grows tz today wl)
              (fun entry v => forall token item,
                   truthy (pushToken (fst entry)) = Some token ->
                   In item (snd entry) -> eligible_logged tz today item v)
              (processUser tz env today) (queried tz now w)
              (grows_refl tz today wl) (grows_trans tz today wl))
    with (w := w) as (w' & E & G & Q).
  - intros entry v v' H G token item T Hin.
    eapply eligible_logged_grows; eauto.
  - intros entry v Hentry. apply processUser_sequential.
    intros token item T Hin. apply worklist_In. exists entry. auto.
  - exists w'. repeat split; auto.
    intros token item Hin. apply worklist_In in Hin.
    destruct Hin as (entry & He & T & Hit). eapply Q; eauto.
Qed.
End Sequential.

(** ** Counting requests and rows *)

Lemma kind_of_offset_is_kind (d : Z) (ty : string) :
  kind_of_offset d = Some ty -> is_kind ty.
Proof.
  unfold kind_of_offset, is_kind. intros K.
  destruct (d =? 3); [|destruct (d =? 1); [|destruct (d =? 0); [|discriminate]]];
    injection K as <-; auto.
Qed.

Lemma dispatches_app (itemId t : string) (a b : list Event) :
  dispatches itemId t (a ++ b) = (dispatches itemId t a + dispatches itemId t b)%nat.
Proof. unfold dispatches. rewrite filter_app, length_app. reflexivity. Qed.

Lemma job_from_title (tz : TimeZone) (today : Z) (wl : list (string * FoodItem))
  (j : Job) :
  job_from tz today wl j ->
  title (job_notification j) = title_of (job_type j)
  /\ exists d, kind_of_offset d = Some (job_type j).
Proof.
  intros (token & item & _ & E & _).
  destruct (select_notification_Some _ _ _ _ _ E) as (_ & T & K & _). eauto.
Qed.

Lemma job_dispatch_same_key (tz : TimeZone) (today : Z)
  (wl : list (string * FoodItem)) (j : Job) (itemId ty : string) :
  job_from tz today wl j -> is_kind ty ->
  dispatch_for itemId (title_of ty) (EvFetch (job_notification j) (job_outcome j))
  = same_key {| foodItemId := itemId; type := ty |} (job_row j).
Proof.
  intros J V. destruct (job_from_title _ _ _ _ J) as (T & d & K).
  unfold dispatch_for, same_key, job_row. simpl. rewrite T.
  rewrite (String.eqb_sym itemId). f_equal.
  destruct (String.eqb_spec ty (job_type j)) as [-> | Hne].
  - apply String.eqb_refl.
  - apply String.eqb_neq. intros H. apply Hne. symmetry.
    eapply title_of_inj_kind; eauto.
Qed.

Lemma dispatches_jobs (tz : TimeZone) (today : Z) (wl : list (string * FoodItem))
  (jobs : list Job) (itemId ty : string) :
  Forall (job_from tz today wl) jobs -> is_kind ty ->
  dispatches itemId (title_of ty) (flat_map job_events jobs)
  = rows_for {| foodItemId := itemId; type := ty |} (map job_row jobs).
Proof.
  intros F V. induction F as [|j jobs J F IH]; [reflexivity|].
  unfold dispatches, rows_for in *. cbn [flat_map job_events app map filter].
  rewrite (job_dispatch_same_key tz today wl j itemId ty J V).
  cbn [dispatch_for].
  destruct (same_key _ (job_row j)); cbn [List.length]; rewrite IH; reflexivity.
Qed.

Lemma create_follows_fetch_jobs (tz : TimeZone) (today : Z)
  (wl : list (string * FoodItem)) (jobs : list Job) (prev : option Event) :
  Forall (job_from tz today wl) jobs ->
  create_follows_fetch prev (flat_map job_events jobs) = true.
Proof.
  intros F. revert prev. induction F as [|j jobs J F IH]; intros prev;
    [reflexivity|].
  destruct (job_from_title _ _ _ _ J) as (T & _).
  cbn [flat_map job_events app create_follows_fetch job_row foodItemId type].
  rewrite T, !String.eqb_refl, IH. reflexivity.
Qed.

(** What [grows] says of the counts: between [w] and [w'] there are as many
    requests for a pair as new rows for it. *)
Lemma grows_counts (tz : TimeZone) (today : Z) (wl : list (string * FoodItem))
  (w w' : World) (itemId ty : string) :
  grows tz today wl w w' -> is_kind ty ->
  (dispatches itemId (title_of ty) (trace w')
   + rows_for {| foodItemId := itemId; type := ty |} (notificationLog w)
   = dispatches itemId (title_of ty) (trace w)
     + rows_for {| foodItemId := itemId; type := ty |} (notificationLog w'))%nat.
Proof.
  intros (jobs & _ & _ & L & T & _ & _ & _ & F) V.
  rewrite L, T, dispatches_app, rows_for_app.
  rewrite (dispatches_jobs tz today wl jobs itemId ty F V). lia.
Qed.

Lemma grows_trace (tz : TimeZone) (today : Z) (wl : list (string * FoodItem))
  (w w' : World) :
  grows tz today wl w w' ->
  exists new, trace w' = trace w ++ new
              /\ create_follows_fetch None new = true
              /\ forall n o, In (EvFetch n o) new ->
                   exists token item,
                     In (token, item) wl /\ to n = token /\ data n = f_id item
                     /\ select_notification (daysUntilExpiration tz today item) item
                        = (kind_of_offset (daysUntilExpiration tz today item),
                           title n, body n)
                     /\ kind_of_offset (daysUntilExpiration tz today item) <> None.
Proof.
  intros (jobs & _ & _ & _ & T & _ & _ & _ & F).
  exists (flat_map job_events jobs). split; [exact T|].
  split; [eapply create_follows_fetch_jobs; eauto|].
  intros n o Hin. apply in_flat_map in Hin. destruct Hin as (j & Hj & He).
  rewrite Forall_forall in F. specialize (F j Hj).
  destruct He as [He | [He | []]]; [|discriminate]. inversion He; subst.
  destruct F as (token & item & Hwl & E & Hto & Hdata).
  exists token, item. destruct (select_notification_Some _ _ _ _ _ E) as (_ & _ & K & _).
  rewrite K. repeat split; auto. discriminate.
Qed.

(** ** Runs that find everything logged *)

Lemma processItem_idle (tz : TimeZone) (env : Environment) (today : Z)
  (token : string) (item : FoodItem) (w : World) :
  eligible_logged tz today item w ->
  processItem tz env today token item w = (Normal tt, w).
Proof.
  intros H.
  destruct (select_notification (daysUntilExpiration tz today item) item)
    as [[[ty|] t] b] eqn:E.
  - eapply processItem_logged; eauto.
  - apply processItem_no_threshold.
    rewrite <- select_notification_kind with (item := item), E. reflexivity.
Qed.

Lemma run_idle (tz : TimeZone) (env : Environment) (now : Z) (w : World) :
  (forall token item, In (token, item) (worklist tz now w) ->
                      eligible_logged tz (setHours0 tz now) item w) ->
  checkAndSendExpirationNotifications tz env now w = (Normal tt, w).
Proof.
  intros H. rewrite check_unfold. apply forM_idle. intros [user items] Hentry.
  unfold processUser. destruct (truthy (pushToken user)) as [token|] eqn:T;
    [|reflexivity].
  apply forM_idle. intros item Hitem. apply processItem_idle. apply (H token).
  apply worklist_In. exists (user, items). auto.
Qed.

Lemma runs_after_first (tz : TimeZone) (env : Environment) (now : Z)
  (rest : list Z) (w : World) :
  no_concurrent_writer env ->
  (forall n, In n rest -> setHours0 tz n = setHours0 tz now) ->
  runs tz env (now :: rest) w = checkAndSendExpirationNotifications tz env now w.
Proof.
  intros alone Hday. unfold runs. rewrite forM_cons.
  destruct (run_sequential tz env alone now w) as (w' & E & G & Q). rewrite E.
  assert (users w' = users w /\ foodItems w' = foodItems w) as [U F].
  { destruct G as (jobs & U & F & _). auto. }
  clear E G. induction rest as [|n rest IH]; [reflexivity|].
  rewrite forM_cons, run_idle.
  - apply IH. intros m Hm. apply Hday. right. exact Hm.
  - intros token item Hin.
    rewrite (worklist_same_tables tz now n w w') in Hin; auto;
      [|apply Hday; left; reflexivity].
    unfold eligible_logged. rewrite (Hday n (or_introl eq_refl)).
    apply (Q token item Hin).
Qed.

(** ** Runs in any environment *)

Lemma new_events_app (w w' : World) (new : list Event) :
  trace w' = trace w ++ new -> new_events w w' = new.
Proof.
  intros E. unfold new_events. rewrite E, skipn_app, skipn_all, Nat.sub_diag.
  reflexivity.
Qed.

Lemma new_events_same (w : World) : new_events w w = [].
Proof. apply new_events_app. rewrite app_nil_r. reflexivity. Qed.

Section AnyEnvironment.
Variable tz : TimeZone.
Variable env : Environment.

(** The three ways the loop body can go. *)
Lemma processItem_cases (today : Z) (token : string) (item : FoodItem)
  (w : World) :
  processItem tz env today token item w = (Normal tt, w)
  \/ exists ty t b,
      select_notification (daysUntilExpiration tz today item) item = (Some ty, t, b)
      /\ ~ In {| foodItemId := f_id item; type := ty |} (notificationLog w)
      /\ let key := {| foodItemId := f_id item; type := ty |} in
         let w1 := sent_world env
                     {| to := token; title := t; body := b; data := f_id item |} w in
         (In key (notificationLog w1)
          /\ processItem tz env today token item w
             = (Throw (UniqueConstraintFailed key),
                add_event (EvCreateRejected key) w1))
         \/ (~ In key (notificationLog w1)
             /\ processItem tz env today token item w
                = (Normal tt,
                   set_notificationLog (notificationLog w1 ++ [key])
                     (add_event (EvCreate key) w1))).
Proof.
  destruct (select_notification (daysUntilExpiration tz today item) item)
    as [[[ty|] t] b] eqn:E.
  - destruct (in_dec NotificationLog_eq_dec
                {| foodItemId := f_id item; type := ty |} (notificationLog w))
      as [Hin | Hn].
    + left. eapply processItem_logged; eauto.
    + right. exists ty, t, b. split; [reflexivity|]. split; [exact Hn|].
      pose proof (processItem_send tz env today token item w ty t b E Hn) as P.
      cbv zeta in *.
      destruct (existsb (same_key {| foodItemId := f_id item; type := ty |})
                  (notificationLog (sent_world env
                     {| to := token; title := t; body := b; data := f_id item |} w)))
        eqn:X.
      * left. split; [apply existsb_same_key; exact X | exact P].
      * right. split; [apply existsb_same_key_false; exact X | exact P].
  - left. apply processItem_no_threshold.
    rewrite <- select_notification_kind with (item := item), E. reflexivity.
Qed.

Lemma processItem_unique (today : Z) (token : string) (item : FoodItem)
  (w : World) :
  unique_keys (notificationLog w) ->
  unique_keys (notificationLog (snd (processItem tz env today token item w))).
Proof.
  intros U.
  destruct (processItem_cases today token item w)
    as [-> | (ty & t & b & _ & _ & [[Hin ->] | [Hn ->]])]; simpl.
  - exact U.
  - apply commit_all_unique. exact U.
  - apply unique_keys_snoc; [apply commit_all_unique; exact U | exact Hn].
Qed.

Lemma run_unique (now : Z) (w : World) :
  unique_keys (notificationLog w) ->
  unique_keys (notificationLog
                 (snd (checkAndSendExpirationNotifications tz env now w))).
Proof.
  rewrite check_unfold.
  apply (forM_inv (fun v => unique_keys (notificationLog v))).
  intros [user items] v _ U. unfold processUser.
  destruct (truthy (pushToken user)); [|exact U].
  revert U. apply (forM_inv (fun v => unique_keys (notificationLog v))).
  intros item v' _. apply processItem_unique.
Qed.

(** Every request a run makes is for a pair of its work list, at an offset
    that is a threshold. *)
Lemma processItem_fetches (today : Z) (wl : list (string * FoodItem))
  (token : string) (item : FoodItem) (w0 w : World) :
  In (token, item) wl ->
  (exists new, trace w = trace w0 ++ new /\ Forall (fetch_from tz today wl) new) ->
  exists new, trace (snd (processItem tz env today token item w)) = trace w0 ++ new
              /\ Forall (fetch_from tz today wl) new.
Proof.
  intros Hwl (new & T & F).
  assert (fetch_from tz today wl
            (EvFetch {| to := token;
                        title := snd (fst (select_notification
                                             (daysUntilExpiration tz today item) item));
                        body := snd (select_notification
                                       (daysUntilExpiration tz today item) item);
                        data := f_id item |} (gateway env (requests w)))
          \/ fst (fst (select_notification
                         (daysUntilExpiration tz today item) item)) = None) as Hf.
  { destruct (select_notification (daysUntilExpiration tz today item) item)
      as [[[ty|] t] b] eqn:E; [left | right; reflexivity].
    exists token, item. simpl.
    destruct (select_notification_Some _ _ _ _ _ E) as (_ & _ & K & _).
    rewrite K. repeat split; auto. discriminate. }
  destruct (processItem_cases today token item w)
    as [-> | (ty & t & b & E & _ & [[_ ->] | [_ ->]])]; simpl.
  - exists new. auto.
  - rewrite E in Hf. destruct Hf as [Hf | Hf]; [|discriminate]. simpl in Hf.
    exists (new ++ [EvFetch {| to := token; title := t; body := b; data := f_id item |}
                      (gateway env (requests w));
                    EvCreateRejected {| foodItemId := f_id item; type := ty |}]).
    rewrite T, <- !app_assoc. split; [reflexivity|].
    apply Forall_app. split; [exact F|]. repeat constructor. exact Hf.
  - rewrite E in Hf. destruct Hf as [Hf | Hf]; [|discriminate]. simpl in Hf.
    exists (new ++ [EvFetch {| to := token; title := t; body := b; data := f_id item |}
                      (gateway env (requests w));
                    EvCreate {| foodItemId := f_id item; type := ty |}]).
    rewrite T, <- !app_assoc. split; [reflexivity|].
    apply Forall_app. split; [exact F|]. repeat constructor. exact Hf.
Qed.

Lemma run_fetches (now : Z) (w : World) :
  exists new,
    trace (snd (checkAndSendExpirationNotifications tz env now w)) = trace w ++ new
    /\ Forall (fetch_from tz (setHours0 tz now) (worklist tz now w)) new.
Proof.
  rewrite check_unfold.
  set (today := setHours0 tz now). set (wl := worklist tz now w).
  apply (forM_inv (fun v => exists new, trace v = trace w ++ new
                                        /\ Forall (fetch_from tz today wl) new)).
  - intros [user items] v Hentry I. unfold processUser.
    destruct (truthy (pushToken user)) as [token|] eqn:T; [|exact I].
    revert I.
    apply (forM_inv (fun v => exists new, trace v = trace w ++ new
                                          /\ Forall (fetch_from tz today wl) new)).
    intros item v' Hitem. apply processItem_fetches.
    apply worklist_In. exists (user, items). auto.
  - exists []. rewrite app_nil_r. auto.
Qed.
End AnyEnvironment.

(** ** The query *)

Lemma considered_In (tz : TimeZone) (now : Z) (w : World) (u : User)
  (item : FoodItem) :
  In (u, item) (considered tz now w) <->
  In u (users w) /\ In item (foodItems w) /\ userId item = u_id u
  /\ pushToken u <> None
  /\ setHours0 tz now <= expirationDate item <= addDate tz (setHours0 tz now) 3.
Proof.
  unfold considered, queried, user_findMany. rewrite in_flat_map. split.
  - intros (entry & He & H). apply in_map_iff in He.
    destruct He as (u' & <- & Hu). apply filter_In in Hu. destruct Hu as [Hu Ht].
    simpl in H. apply in_map_iff in H. destruct H as (it & E & Hit).
    inversion E; subst. apply filter_In in Hit. destruct Hit as [Hit C].
    apply andb_true_iff in C. destruct C as [C1 C2].
    apply String.eqb_eq in C1. unfold in_window in C2.
    apply andb_true_iff in C2. destruct C2 as [C2 C3].
    apply Z.leb_le in C2, C3. repeat split; auto.
    unfold has_token in Ht. destruct (pushToken u); [discriminate | discriminate].
  - intros (Hu & Hit & Heq & Ht & Hlo & Hhi).
    exists (u, filter (fun item0 => String.eqb (userId item0) (u_id u)
                                    && in_window (setHours0 tz now)
                                         (addDate tz (setHours0 tz now) 3) item0)
                      (foodItems w)). split.
    + apply in_map_iff. exists u. split; [reflexivity|].
      apply filter_In. split; [exact Hu|]. unfold has_token.
      destruct (pushToken u); [reflexivity | contradiction].
    + simpl. apply in_map. apply filter_In. split; [exact Hit|].
      apply andb_true_iff. split; [apply String.eqb_eq; exact Heq|].
      unfold in_window. apply andb_true_iff. split; apply Z.leb_le; assumption.
Qed.

Lemma truthy_Some (s : option string) (v : string) :
  truthy s = Some v -> s = Some v.
Proof.
  unfold truthy. destruct s as [x|]; [|discriminate].
  destruct (String.eqb x ""); [discriminate|]. intros H. exact H.
Qed.

Lemma worklist_considered (tz : TimeZone) (now : Z) (w : World) (token : string)
  (item : FoodItem) :
  In (token, item) (worklist tz now w) ->
  exists u, In (u, item) (considered tz now w) /\ pushToken u = Some token.
Proof.
  intros H. apply worklist_In in H. destruct H as ([u items] & He & T & Hit).
  exists u. split; [|apply truthy_Some; exact T].
  unfold considered. apply in_flat_map. exists (u, items). split; [exact He|].
  simpl. apply in_map. exact Hit.
Qed.

Lemma select_notification_templates (d : Z) (item : FoodItem) :
  select_notification d item
  = match kind_of_offset d with
    | Some ty => (Some ty, title_of ty, body_of ty (name item))
    | None => (None, ""%string, ""%string)
    end.
Proof.
  pose proof (select_notification_kind d item) as K.
  destruct (select_notification_cases d item)
    as [[-> E] | [[-> E] | [[-> E] | (H0 & H1 & H3 & E)]]];
    rewrite E in *; simpl in K; rewrite <- K; reflexivity.
Qed.

Lemma kind_of_offset_None (d : Z) :
  kind_of_offset d = None <-> d <> 3 /\ d <> 1 /\ d <> 0.
Proof.
  unfold kind_of_offset.
  destruct (Z.eqb_spec d 3); [split; [discriminate | tauto]|].
  destruct (Z.eqb_spec d 1); [split; [discriminate | tauto]|].
  destruct (Z.eqb_spec d 0); [split; [discriminate | tauto]|].
  tauto.
Qed.

Lemma kind_of_offset_Some (d : Z) (ty : string) :
  kind_of_offset d = Some ty ->
  (d = 3 /\ ty = "three_day"%string) \/ (d = 1 /\ ty = "one_day"%string)
  \/ (d = 0 /\ ty = "expiry_day"%string).
Proof.
  unfold kind_of_offset.
  destruct (Z.eqb_spec d 3); [intros H; injection H as <-; auto|].
  destruct (Z.eqb_spec d 1); [intros H; injection H as <-; auto|].
  destruct (Z.eqb_spec d 0); [intros H; injection H as <-; auto|].
  discriminate.
Qed.

(** ** Day arithmetic *)

Lemma Math_ceil_div_spec (a b : Z) :
  0 < b -> b * (Math_ceil_div a b - 1) < a <= b * Math_ceil_div a b.
Proof.
  intros Hb. unfold Math_ceil_div.
  pose proof (Z.div_mod (- a) b ltac:(lia)) as D.
  pose proof (Z.mod_pos_bound (- a) b Hb) as R. nia.
Qed.

Lemma setHours0_same_day (tz : TimeZone) (a b : Z) :
  same_calendar_day tz a b -> setHours0 tz a = setHours0 tz b.
Proof. unfold same_calendar_day, setHours0. intros ->. reflexivity. Qed.

(** C6: [calculateDaysUntilExpiration] (and the same computation inlined in
    the scheduler's loop) sets both the expiration instant and the reference
    instant to local midnight, subtracts, and takes the ceiling of the
    quotient by 86 400 000; so instants of the same calendar day give the
    same offset, and an expiration on the reference's own day gives 0. *)
Theorem days_until_expiration_ignores_time_of_day
  (tz : TimeZone) (now now' exp exp' : Z) (item : FoodItem) :
  same_calendar_day tz exp exp' ->
  same_calendar_day tz now now' ->
  expirationDate item = exp ->
  calculateDaysUntilExpiration tz now exp
  = Math_ceil_div (setHours0 tz exp - setHours0 tz now) msPerDay
  /\ msPerDay * (calculateDaysUntilExpiration tz now exp - 1)
     < setHours0 tz exp - setHours0 tz now
     <= msPerDay * calculateDaysUntilExpiration tz now exp
  /\ calculateDaysUntilExpiration tz now' exp'
     = calculateDaysUntilExpiration tz now exp
  /\ daysUntilExpiration tz (setHours0 tz now) item
     = calculateDaysUntilExpiration tz now exp
  /\ (same_calendar_day tz exp now -> calculateDaysUntilExpiration tz now exp = 0).
Proof.
  intros He Hn Hi. unfold calculateDaysUntilExpiration, daysUntilExpiration.
  rewrite Hi, <- (setHours0_same_day tz exp exp' He),
    <- (setHours0_same_day tz now now' Hn).
  repeat split; try reflexivity.
  - apply (Math_ceil_div_spec _ msPerDay). reflexivity.
  - apply (Math_ceil_div_spec _ msPerDay). reflexivity.
  - intros Hs. rewrite (setHours0_same_day tz exp now Hs), Z.sub_diag.
    reflexivity.
Qed.

(** Today 23:59 against today 00:01, and today 12:00 against today 09:00,
    New York time: offset 0 each. *)
Lemma days_until_expiration_ignores_time_of_day_witness :
  calculateDaysUntilExpiration edt (june10 + 4 * hour + 9 * hour)
    (june10 + 4 * hour + 12 * hour)
  = calculateDaysUntilExpiration edt (june10 + 4 * hour + 1 * minute)
      (june10 + 4 * hour + 23 * hour + 59 * minute)
  /\ calculateDaysUntilExpiration edt (june10 + 4 * hour + 1 * minute)
       (june10 + 4 * hour + 23 * hour + 59 * minute) = 0.
Proof.
  destruct (days_until_expiration_ignores_time_of_day edt
              (june10 + 4 * hour + 1 * minute) (june10 + 4 * hour + 9 * hour)
              (june10 + 4 * hour + 23 * hour + 59 * minute)
              (june10 + 4 * hour + 12 * hour)
              {| f_id := "C"; name := "Ham"; purchaseDate := june10;
                 expirationDate := june10 + 4 * hour + 23 * hour + 59 * minute;
                 isEstimated := true; userId := "temp-user-id" |})
    as (_ & _ & H1 & _ & H2).
  - vm_compute. reflexivity.
  - vm_compute. reflexivity.
  - reflexivity.
  - split; [exact H1 | apply H2; vm_compute; reflexivity].
Defined.

(** C10: whatever the gateway does with the request (accepts it, answers
    with a non-OK status, or the request fails), [sendPushNotification]
    completes normally with no value; the completion is the same in every
    environment, so the caller cannot tell success from failure. *)
Theorem sendPushNotification_never_rejects
  (env : Environment) (notification : ExpoNotification) (w : World) :
  fst (sendPushNotification env notification w) = Normal tt
  /\ forall (env' : Environment) (w' : World),
       fst (sendPushNotification env' notification w')
       = fst (sendPushNotification env notification w).
Proof.
  split; [|intros env' w']; rewrite !sendPushNotification_run; reflexivity.
Qed.

(** ** Thresholds are exact days *)

Lemma processItem_send_events (tz : TimeZone) (env : Environment) (today : Z)
  (token : string) (item : FoodItem) (w : World) (ty : string) :
  kind_of_offset (daysUntilExpiration tz today item) = Some ty ->
  ~ In {| foodItemId := f_id item; type := ty |} (notificationLog w) ->
  exists e,
    new_events w (snd (processItem tz env today token item w))
    = [EvFetch {| to := token; title := title_of ty;
                  body := body_of ty (name item); data := f_id item |}
         (gateway env (requests w)); e]
    /\ (e = EvCreate {| foodItemId := f_id item; type := ty |}
        \/ e = EvCreateRejected {| foodItemId := f_id item; type := ty |}).
Proof.
  intros K Hn.
  pose proof (select_notification_templates (daysUntilExpiration tz today item) item)
    as E. rewrite K in E.
  pose proof (processItem_send tz env today token item w ty _ _ E Hn) as P.
  cbv zeta in P. rewrite P.
  destruct (existsb _ _); simpl; eexists; (split; [apply new_events_app; simpl;
    rewrite <- app_assoc; reflexivity | auto]).
Qed.

(** C4: the loop body goes to the gateway only at an offset of exactly 3, 1
    or 0 days, with the notification of the kind of that offset; at any
    other offset it does nothing at all; and at a threshold, whether it
    sends depends on the row of this item and this kind alone, not on rows
    of the other kinds. *)
Theorem exact_day_thresholds
  (tz : TimeZone) (env : Environment) (today : Z) (token : string)
  (item : FoodItem) (w : World) :
  let d := daysUntilExpiration tz today item in
  let w' := snd (processItem tz env today token item w) in
  (d <> 3 -> d <> 1 -> d <> 0 ->
   processItem tz env today token item w = (Normal tt, w) /\ new_events w w' = [])
  /\ (forall n o, In (EvFetch n o) (new_events w w') ->
        exists ty,
          ((d = 3 /\ ty = "three_day"%string) \/ (d = 1 /\ ty = "one_day"%string)
           \/ (d = 0 /\ ty = "expiry_day"%string))
          /\ n = {| to := token; title := title_of ty;
                    body := body_of ty (name item); data := f_id item |})
  /\ (forall ty, kind_of_offset d = Some ty ->
        (In {| foodItemId := f_id item; type := ty |} (notificationLog w) ->
         processItem tz env today token item w = (Normal tt, w))
        /\ (~ In {| foodItemId := f_id item; type := ty |} (notificationLog w) ->
            exists e, new_events w w'
                      = [EvFetch {| to := token; title := title_of ty;
                                    body := body_of ty (name item);
                                    data := f_id item |}
                           (gateway env (requests w)); e])).
Proof.
  intros d w'. split; [|split].
  - intros H3 H1 H0. assert (kind_of_offset d = None) as K.
    { apply kind_of_offset_None. auto. }
    subst w'. rewrite (processItem_no_threshold tz env today token item w K).
    split; [reflexivity | apply new_events_same].
  - intros n o Hin. destruct (kind_of_offset d) as [ty|] eqn:K.
    + destruct (in_dec NotificationLog_eq_dec
                  {| foodItemId := f_id item; type := ty |} (notificationLog w))
        as [Hl | Hn].
      * pose proof (select_notification_templates d item) as E. rewrite K in E.
        subst w'. rewrite (processItem_logged tz env today token item w _ _ _ E Hl)
          in Hin. simpl in Hin. rewrite new_events_same in Hin. destruct Hin.
      * destruct (processItem_send_events tz env today token item w ty K Hn)
          as (e & Ev & He). subst w'. rewrite Ev in Hin.
        exists ty. split; [apply kind_of_offset_Some; exact K|].
        destruct Hin as [Hin | [Hin | []]]; [congruence|].
        destruct He as [-> | ->]; discriminate.
    + subst w'. rewrite (processItem_no_threshold tz env today token item w K) in Hin.
      simpl in Hin. rewrite new_events_same in Hin. destruct Hin.
  - intros ty K. split.
    + intros Hl. pose proof (select_notification_templates d item) as E.
      rewrite K in E. eapply processItem_logged; eauto.
    + intros Hn.
      destruct (processItem_send_events tz env today token item w ty K Hn)
        as (e & Ev & _). exists e. exact Ev.
Qed.

(** Item D, two days from expiring: nothing.  Item B, one day from expiring,
    with its three-day row absent, present, or its own row present. *)
Lemma exact_day_thresholds_witness :
  processItem utc gateway_up june10 "ExponentPushToken[abc]" itemD0
    (fresh_world [itemD0]) = (Normal tt, fresh_world [itemD0])
  /\ (exists e,
        new_events (fresh_world [itemB0])
          (snd (processItem utc gateway_up june10 "ExponentPushToken[abc]" itemB0
                  (fresh_world [itemB0])))
        = [EvFetch {| to := "ExponentPushToken[abc]";
                      title := "Food Expiring Tomorrow";
                      body := "Eggs expires tomorrow. Plan to use it soon!";
                      data := "B" |} accepted; e])
  /\ (exists e,
        new_events
          (set_notificationLog [{| foodItemId := "B"; type := "three_day" |}]
             (fresh_world [itemB0]))
          (snd (processItem utc gateway_up june10 "ExponentPushToken[abc]" itemB0
                  (set_notificationLog [{| foodItemId := "B"; type := "three_day" |}]
                     (fresh_world [itemB0]))))
        = [EvFetch {| to := "ExponentPushToken[abc]";
                      title := "Food Expiring Tomorrow";
                      body := "Eggs expires tomorrow. Plan to use it soon!";
                      data := "B" |} accepted; e]).
Proof.
  split; [|split].
  - apply (exact_day_thresholds utc gateway_up june10 "ExponentPushToken[abc]"
             itemD0 (fresh_world [itemD0])); vm_compute; discriminate.
  - apply (proj2 (proj2 (exact_day_thresholds utc gateway_up june10
                           "ExponentPushToken[abc]" itemB0 (fresh_world [itemB0])))
             "one_day"%string eq_refl).
    vm_compute. tauto.
  - apply (proj2 (proj2 (exact_day_thresholds utc gateway_up june10
                           "ExponentPushToken[abc]" itemB0
                           (set_notificationLog
                              [{| foodItemId := "B"; type := "three_day" |}]
                              (fresh_world [itemB0]))))
             "one_day"%string eq_refl).
    vm_compute. intros [H | []]. discriminate H.
Defined.

(** ** The window of the query *)

Lemma forM_map {A B} (h : A -> B) (l : list A) (f : B -> M unit) (w : World) :
  forM_ (map h l) f w = forM_ l (fun x => f (h x)) w.
Proof.
  revert w. induction l as [|x l IH]; intros w; [reflexivity|].
  simpl map. rewrite !forM_cons. destruct (f (h x) w) as [[[] | e] w1];
    [apply IH | reflexivity].
Qed.

(** The two nested loops are the loop body run over the work list. *)
Lemma check_worklist (tz : TimeZone) (env : Environment) (now : Z) (w : World) :
  checkAndSendExpirationNotifications tz env now w
  = forM_ (worklist tz now w)
      (fun p => processItem tz env (setHours0 tz now) (fst p) (snd p)) w.
Proof.
  rewrite check_unfold. unfold worklist.
  generalize (queried tz now w) as l. intros l. generalize w as v.
  induction l as [|[user items] l IH]; intros v; [reflexivity|].
  rewrite forM_cons. simpl flat_map. rewrite forM_app.
  assert (processUser tz env (setHours0 tz now) (user, items) v
          = forM_ match truthy (pushToken user) with
                  | Some token => map (pair token) items
                  | None => []
                  end
              (fun p => processItem tz env (setHours0 tz now) (fst p) (snd p)) v)
    as ->.
  { unfold processUser. destruct (truthy (pushToken user)) as [token|];
      [|reflexivity]. rewrite forM_map. reflexivity. }
  destruct (forM_ _ _ v) as [[[] | e] v1]; [apply IH | reflexivity].
Qed.

Lemma truthy_iff (s : option string) (v : string) :
  truthy s = Some v <-> s = Some v /\ v <> ""%string.
Proof.
  unfold truthy. destruct s as [x|].
  - destruct (String.eqb_spec x "") as [-> | Hne].
    + split; [discriminate | intros [H Hv]; injection H as <-; contradiction].
    + split; [intros H; injection H as <-; auto | intros [H _]; exact H].
  - split; [discriminate | intros [H _]; discriminate].
Qed.

(** The window as the query has it, an interval of instants: a run is handed
    exactly the items of users with a non-null push token whose
    [expirationDate] is in the closed interval from today's midnight to the
    midnight three days later; its loop body runs on those of them whose
    owner's token is not the empty string; and every request of the run is
    for such an item and goes to its owner's token. *)
Theorem run_considers_window
  (tz : TimeZone) (env : Environment) (now : Z) (w : World) :
  let today := setHours0 tz now in
  let threeDaysFromNow := addDate tz today 3 in
  checkAndSendExpirationNotifications tz env now w
  = forM_ (queried tz now w) (processUser tz env today) w
  /\ checkAndSendExpirationNotifications tz env now w
     = forM_ (worklist tz now w)
         (fun p => processItem tz env today (fst p) (snd p)) w
  /\ (forall u item,
        In (u, item) (considered tz now w) <->
        In u (users w) /\ In item (foodItems w) /\ userId item = u_id u
        /\ pushToken u <> None
        /\ today <= expirationDate item <= threeDaysFromNow)
  /\ (forall token item,
        In (token, item) (worklist tz now w) <->
        exists u, In (u, item) (considered tz now w)
                  /\ pushToken u = Some token /\ token <> ""%string)
  /\ (forall n o,
        In (EvFetch n o)
          (new_events w (snd (checkAndSendExpirationNotifications tz env now w))) ->
        exists u item,
          In u (users w) /\ In item (foodItems w) /\ userId item = u_id u
          /\ pushToken u = Some (to n) /\ data n = f_id item
          /\ today <= expirationDate item <= threeDaysFromNow).
Proof.
  intros today threeDaysFromNow. split; [apply check_unfold|].
  split; [apply check_worklist|].
  split; [intros u item; apply considered_In|]. split.
  - intros token item. rewrite worklist_In. unfold considered. split.
    + intros ([u items] & He & T & Hit). apply truthy_iff in T.
      destruct T as [T Hne]. exists u. split; [|auto].
      apply in_flat_map. exists (u, items). split; [exact He|].
      simpl. apply in_map. exact Hit.
    + intros (u & Hc & T & Hne). apply in_flat_map in Hc.
      destruct Hc as ([u' items] & He & Hit). simpl in Hit.
      apply in_map_iff in Hit. destruct Hit as (it & E & Hit).
      inversion E; subst. exists (u, items). split; [exact He|].
      split; [apply truthy_iff; auto | exact Hit].
  - intros n o Hin. destruct (run_fetches tz env now w) as (new & T & F).
    rewrite (new_events_app _ _ _ T) in Hin. rewrite Forall_forall in F.
    specialize (F _ Hin). destruct F as (token & item & Hwl & Hto & Hdata & _).
    apply worklist_considered in Hwl. destruct Hwl as (u & Hc & Htok).
    apply considered_In in Hc. destruct Hc as (Hu & Hit & Heq & _ & Hw).
    exists u, item. rewrite Hto. repeat split; auto; apply Hw.
Qed.

(** On June 10 the item expiring at midnight of June 13 is in; the one
    expiring June 13 at noon and the item of the user without a token are
    not, and a run makes no request for the latter. *)
Lemma run_considers_window_witness :
  In (tempUser, itemA0) (considered utc nine_am two_users_world)
  /\ ~ In (tempUser, itemA) (considered utc nine_am two_users_world)
  /\ ~ In (guestUser, itemG) (considered utc nine_am two_users_world)
  /\ forall o,
       ~ In (EvFetch {| to := ""; title := "Food Expiring Today!";
                        body := "Tea expires today. Use it before it goes bad!";
                        data := "G" |} o)
            (new_events two_users_world
               (snd (checkAndSendExpirationNotifications utc gateway_up nine_am
                       two_users_world))).
Proof.
  pose proof (run_considers_window utc gateway_up nine_am two_users_world)
    as (_ & _ & H & _ & F). cbv zeta in H, F. repeat split.
  - apply H. vm_compute. repeat split; try discriminate; auto.
  - intros Hin. apply H in Hin. destruct Hin as (_ & _ & _ & _ & _ & Hhi).
    vm_compute in Hhi. apply Hhi. reflexivity.
  - intros Hin. apply H in Hin. destruct Hin as (_ & _ & _ & Ht & _).
    apply Ht. reflexivity.
  - intros o Hin. apply F in Hin.
    destruct Hin as (u & item & Hu & _ & _ & Ht & _).
    destruct Hu as [<- | [<- | []]]; discriminate Ht.
Defined.

(** ** The last day of the window *)

Lemma msPerDay_nonzero : msPerDay <> 0.
Proof. discriminate. Qed.

Lemma setHours0_fixed (tz : TimeZone) (offset t : Z) :
  fixed_offset offset tz ->
  setHours0 tz t = (t + offset) / msPerDay * msPerDay - offset.
Proof.
  intros F. unfold setHours0, UTC, MakeDate, Day, LocalTime.
  rewrite (proj1 (F t)), (proj2 (F _)). lia.
Qed.

Lemma addDate_midnight_fixed (tz : TimeZone) (offset t n : Z) :
  fixed_offset offset tz ->
  addDate tz (setHours0 tz t) n
  = ((t + offset) / msPerDay + n) * msPerDay - offset.
Proof.
  intros F. unfold addDate. rewrite (setHours0_fixed tz offset t F).
  unfold LocalTime, UTC, MakeDate, Day, TimeWithinDay.
  rewrite (proj1 (F _)), (proj2 (F _)).
  replace ((t + offset) / msPerDay * msPerDay - offset + offset)
    with ((t + offset) / msPerDay * msPerDay) by lia.
  rewrite (Z.div_mul _ _ msPerDay_nonzero), Z_mod_mult. lia.
Qed.

(** Without clock changes the offset of the loop body is the difference of
    the calendar days. *)
Lemma daysUntilExpiration_fixed (tz : TimeZone) (offset now : Z) (item : FoodItem) :
  fixed_offset offset tz ->
  daysUntilExpiration tz (setHours0 tz now) item
  = calendar_days_between tz now (expirationDate item).
Proof.
  intros F. unfold daysUntilExpiration, calendar_days_between, Math_ceil_div.
  rewrite !(setHours0_fixed tz offset _ F). unfold Day, LocalTime.
  rewrite (proj1 (F now)), (proj1 (F (expirationDate item))).
  replace (- ((expirationDate item + offset) / msPerDay * msPerDay - offset
              - ((now + offset) / msPerDay * msPerDay - offset)))
    with (((now + offset) / msPerDay - (expirationDate item + offset) / msPerDay)
          * msPerDay) by lia.
  rewrite (Z.div_mul _ _ msPerDay_nonzero). lia.
Qed.

(** C5, where the code departs from it.  The loop body sets the time of day
    of an expiration date to midnight before it counts the days, and gives
    the notice of kind [three_day] at offset 3; the query that feeds the loop
    compares the date as stored with the midnight three days ahead.  In a
    zone without clock changes, an item that expires on the third day after
    today at any time later than midnight has offset 3 and is not among the
    items the run considers; and every request titled "Food Expiring Soon"
    that a run makes is for an item stored with an expiration exactly at the
    local midnight three days ahead. *)
Theorem three_day_notice_needs_midnight
  (tz : TimeZone) (offset : Z) (env : Environment) (now : Z) (w : World) :
  fixed_offset offset tz ->
  let today := setHours0 tz now in
  (forall item,
      calendar_days_between tz now (expirationDate item) = 3 ->
      setHours0 tz (expirationDate item) < expirationDate item ->
      select_notification (daysUntilExpiration tz today item) item
      = (Some "three_day"%string, "Food Expiring Soon"%string,
         (name item ++ " expires in 3 days.")%string)
      /\ (forall u, ~ In (u, item) (considered tz now w))
      /\ (forall token, ~ In (token, item) (worklist tz now w)))
  /\ (forall n o,
        In (EvFetch n o)
           (new_events w (snd (checkAndSendExpirationNotifications tz env now w))) ->
        title n = "Food Expiring Soon"%string ->
        exists item,
          In item (foodItems w) /\ data n = f_id item
          /\ expirationDate item = setHours0 tz (expirationDate item)
          /\ expirationDate item = addDate tz today 3).
Proof.
  intros F today. split.
  - intros item Hday Hlate.
    assert (forall u, ~ In (u, item) (considered tz now w)) as Hout.
    { intros u Hin. apply considered_In in Hin.
      destruct Hin as (_ & _ & _ & _ & _ & Hhi).
      rewrite (addDate_midnight_fixed tz offset now 3 F) in Hhi.
      rewrite (setHours0_fixed tz offset _ F) in Hlate.
      unfold calendar_days_between, Day, LocalTime in Hday.
      rewrite (proj1 (F now)), (proj1 (F (expirationDate item))) in Hday.
      replace ((now + offset) / msPerDay + 3)
        with ((expirationDate item + offset) / msPerDay) in Hhi by lia.
      lia. }
    split; [|split; [exact Hout|]].
    + unfold today. rewrite (daysUntilExpiration_fixed tz offset now item F), Hday.
      reflexivity.
    + intros token Hin. apply worklist_considered in Hin.
      destruct Hin as (u & Hc & _). exact (Hout u Hc).
  - intros n o Hin Ht. destruct (run_fetches tz env now w) as (new & T & Fe).
    rewrite (new_events_app _ _ _ T) in Hin. rewrite Forall_forall in Fe.
    specialize (Fe _ Hin). destruct Fe as (token & item & Hwl & _ & Hdata & E & K).
    apply worklist_considered in Hwl. destruct Hwl as (u & Hc & _).
    apply considered_In in Hc. destruct Hc as (_ & Hit & _ & _ & _ & Hhi).
    exists item. split; [exact Hit|]. split; [exact Hdata|].
    destruct (kind_of_offset (daysUntilExpiration tz (setHours0 tz now) item))
      as [ty|] eqn:Kd; [|contradiction].
    rewrite select_notification_templates, Kd in E. inversion E as [[Et Eb]].
    assert (daysUntilExpiration tz (setHours0 tz now) item = 3) as D3.
    { destruct (kind_of_offset_Some _ _ Kd) as [[D _] | [[_ ->] | [_ ->]]];
        [exact D | |]; rewrite Ht in Et; discriminate Et. }
    rewrite (daysUntilExpiration_fixed tz offset now item F) in D3.
    unfold calendar_days_between, Day, LocalTime in D3.
    rewrite (proj1 (F now)), (proj1 (F (expirationDate item))) in D3.
    unfold today. rewrite (addDate_midnight_fixed tz offset now 3 F) in *.
    rewrite (setHours0_fixed tz offset _ F).
    replace ((now + offset) / msPerDay + 3)
      with ((expirationDate item + offset) / msPerDay) in * by lia.
    pose proof (Z.mul_div_le (expirationDate item + offset) msPerDay
                  ltac:(reflexivity)) as L.
    split; lia.
Qed.

(** The server on UTC, the run of June 10, 09:00, and the milk that expires
    on June 13 at noon: its offset is 3 and the run does not consider it. *)
Lemma three_day_notice_needs_midnight_witness :
  select_notification
    (daysUntilExpiration utc (setHours0 utc nine_am) itemA) itemA
  = (Some "three_day"%string, "Food Expiring Soon"%string,
     "Milk expires in 3 days."%string)
  /\ ~ In (tempUser, itemA) (considered utc nine_am (fresh_world [itemA; itemB0]))
  /\ ~ In ("ExponentPushToken[abc]"%string, itemA)
         (worklist utc nine_am (fresh_world [itemA; itemB0])).
Proof.
  destruct (three_day_notice_needs_midnight utc 0 gateway_up nine_am
              (fresh_world [itemA; itemB0])) as [H _].
  - intros t. split; reflexivity.
  - destruct (H itemA) as (S & C & W).
    + vm_compute. reflexivity.
    + vm_compute. reflexivity.
    + split; [exact S|]. split; [apply C | apply W].
Defined.

(** The runs of June 9 to June 13, 09:00 each day.  The milk that expires on
    June 13 at noon gets the notices of the day before and of the day, and
    never the one three days ahead; the milk that expires on June 13 at
    00:00 gets all three.  With the server four hours west of UTC the milk
    stored with June 13, 00:00 UTC expires on June 12 at 20:00 local time,
    and never gets the notice three days ahead either. *)
Example noon_item_misses_three_day_notice :
  let days := [nine_am - msPerDay; nine_am; nine_am + msPerDay;
               nine_am + 2 * msPerDay; nine_am + 3 * msPerDay] in
  let at_noon := trace (snd (runs utc gateway_up days (fresh_world [itemA]))) in
  let at_midnight := trace (snd (runs utc gateway_up days (fresh_world [itemA0]))) in
  let west := trace (snd (runs edt gateway_up days (fresh_world [itemA0]))) in
  dispatches "A" "Food Expiring Soon" at_noon = 0%nat
  /\ dispatches "A" "Food Expiring Tomorrow" at_noon = 1%nat
  /\ dispatches "A" "Food Expiring Today!" at_noon = 1%nat
  /\ dispatches "A" "Food Expiring Soon" at_midnight = 1%nat
  /\ dispatches "A" "Food Expiring Tomorrow" at_midnight = 1%nat
  /\ dispatches "A" "Food Expiring Today!" at_midnight = 1%nat
  /\ dispatches "A" "Food Expiring Soon" west = 0%nat
  /\ dispatches "A" "Food Expiring Tomorrow" west = 1%nat
  /\ dispatches "A" "Food Expiring Today!" west = 1%nat.
Proof. vm_compute. repeat split. Qed.

(** ** Failures of the gateway *)



(** The whole of that run: three requests, the second one refused, three
    rows, one line on the console. *)
Example three_items_second_refused :
  let r := checkAndSendExpirationNotifications utc second_refused nine_am
             (fresh_world [itemA0; itemB0; itemC0]) in
  fst r = Normal tt
  /\ map (fun e => match e with
                   | EvFetch n o => (data n, Some o)
                   | EvCreate row => (foodItemId row, None)
                   | EvCreateRejected row => (foodItemId row, None)
                   end) (trace (snd r))
     = [("A", Some accepted); ("A", None); ("B", Some refused); ("B", None);
        ("C", Some accepted); ("C", None)]%string
  /\ notificationLog (snd r)
     = [{| foodItemId := "A"; type := "three_day" |};
        {| foodItemId := "B"; type := "one_day" |};
        {| foodItemId := "C"; type := "expiry_day" |}]
  /\ console (snd r) = ["Failed to send push notification: Too Many Requests"%string].
Proof. vm_compute. repeat split. Qed.

(** C1, as the code has it: in a run without concurrent writers every row is
    created right after the request for its item and kind, whatever the
    gateway did with that request; so a due pair is logged at the end of the
    run also when its dispatch failed, and a later run on the same day finds
    it logged and sends nothing. *)
Theorem log_entry_follows_dispatch_attempt
  (tz : TimeZone) (env : Environment) (now : Z) (w : World)
  (token : string) (item : FoodItem) (ty t b : string) :
  no_concurrent_writer env ->
  In (token, item) (worklist tz now w) ->
  select_notification (daysUntilExpiration tz (setHours0 tz now) item) item
  = (Some ty, t, b) ->
  exists w',
    checkAndSendExpirationNotifications tz env now w = (Normal tt, w')
    /\ create_follows_fetch None (new_events w w') = true
    /\ In {| foodItemId := f_id item; type := ty |} (notificationLog w')
    /\ forall env' now',
         setHours0 tz now' = setHours0 tz now ->
         checkAndSendExpirationNotifications tz env' now' w' = (Normal tt, w').
Proof.
  intros alone Hwl E.
  destruct (run_sequential tz env alone now w) as (w' & R & G & Q).
  exists w'. split; [exact R|].
  destruct (grows_trace _ _ _ _ _ G) as (new & T & C & _).
  rewrite (new_events_app _ _ _ T). split; [exact C|].
  split; [apply (Q token item Hwl ty t b E)|].
  intros env' now' D. apply run_idle. intros token' item' Hin.
  destruct G as (jobs & U & F & _).
  rewrite (worklist_same_tables tz now now' w w' U F D) in Hin.
  unfold eligible_logged. rewrite D. apply (Q token' item' Hin).
Qed.

(** The gateway unreachable: item C, expiring today, is logged by the first
    run, and the run an hour later sends nothing. *)
Lemma log_entry_follows_dispatch_attempt_witness :
  exists w',
    checkAndSendExpirationNotifications utc gateway_down nine_am
      (fresh_world [itemC0]) = (Normal tt, w')
    /\ create_follows_fetch None (new_events (fresh_world [itemC0]) w') = true
    /\ In {| foodItemId := "C"; type := "expiry_day" |} (notificationLog w')
    /\ forall env' now',
         setHours0 utc now' = setHours0 utc nine_am ->
         checkAndSendExpirationNotifications utc env' now' w' = (Normal tt, w').
Proof.
  apply (log_entry_follows_dispatch_attempt utc gateway_down nine_am
           (fresh_world [itemC0]) "ExponentPushToken[abc]" itemC0
           "expiry_day" "Food Expiring Today!"
           "Ham expires today. Use it before it goes bad!").
  - intros n. reflexivity.
  - vm_compute. auto.
  - vm_compute. reflexivity.
Defined.

(** C1 as stated fails: with the gateway unreachable the request for item C
    is rejected, the pair (C, expiry_day) is logged nevertheless, and the
    next run of the same day makes no request. *)
Lemma failed_dispatch_is_logged :
  let w1 := snd (checkAndSendExpirationNotifications utc gateway_down nine_am
                   (fresh_world [itemC0])) in
  let w2 := snd (checkAndSendExpirationNotifications utc gateway_down
                   (nine_am + hour) w1) in
  trace w1
  = [EvFetch {| to := "ExponentPushToken[abc]"; title := "Food Expiring Today!";
                body := "Ham expires today. Use it before it goes bad!";
                data := "C" |} Rejects;
     EvCreate {| foodItemId := "C"; type := "expiry_day" |}]
  /\ notificationLog w1 = [{| foodItemId := "C"; type := "expiry_day" |}]
  /\ console w1 = ["Error sending push notification:"%string]
  /\ new_events w1 w2 = []
  /\ ~ (forall n, In (EvFetch n Rejects) (trace w1) ->
                  rows_for {| foodItemId := data n; type := "expiry_day" |}
                    (notificationLog w1) = 0%nat).
Proof.
  vm_compute. repeat split. intros H.
  specialize (H _ (or_introl eq_refl)). discriminate H.
Qed.

(** ** Idempotence *)

(** C2, as the code has it: run one after the other any number of times (at
    least once) at clock readings of one day, without concurrent writers and
    from a log with unique keys, the scheduler leaves exactly one row for a
    due pair and has
    made at most one request for it; for every item and kind there is at most
    one row and at most one request; and one more run on that day changes
    nothing, so it makes no request at all. *)
Theorem scheduler_idempotent
  (tz : TimeZone) (env : Environment) (now : Z) (rest : list Z) (w : World)
  (token : string) (item : FoodItem) (ty t b : string) :
  no_concurrent_writer env ->
  unique_keys (notificationLog w) ->
  (forall n, In n rest -> setHours0 tz n = setHours0 tz now) ->
  In (token, item) (worklist tz now w) ->
  select_notification (daysUntilExpiration tz (setHours0 tz now) item) item
  = (Some ty, t, b) ->
  exists w',
    runs tz env (now :: rest) w = (Normal tt, w')
    /\ rows_for {| foodItemId := f_id item; type := ty |} (notificationLog w') = 1%nat
    /\ (dispatches (f_id item) t (trace w')
        <= dispatches (f_id item) t (trace w) + 1)%nat
    /\ (forall itemId kind,
          is_kind kind ->
          (rows_for {| foodItemId := itemId; type := kind |} (notificationLog w')
           <= 1)%nat
          /\ (dispatches itemId (title_of kind) (trace w')
              <= dispatches itemId (title_of kind) (trace w) + 1)%nat)
    /\ forall env' now',
         setHours0 tz now' = setHours0 tz now ->
         checkAndSendExpirationNotifications tz env' now' w' = (Normal tt, w')
         /\ new_events w' w' = [].
Proof.
  intros alone U Hday Hwl E.
  rewrite (runs_after_first tz env now rest w alone Hday).
  destruct (run_sequential tz env alone now w) as (w' & R & G & Q).
  exists w'. split; [exact R|].
  pose proof (grows_unique _ _ _ _ _ G U) as U'.
  assert (forall itemId kind,
             is_kind kind ->
             (rows_for {| foodItemId := itemId; type := kind |} (notificationLog w')
              <= 1)%nat
             /\ (dispatches itemId (title_of kind) (trace w')
                 <= dispatches itemId (title_of kind) (trace w) + 1)%nat) as All.
  { intros itemId kind V. split; [apply U'|].
    pose proof (grows_counts tz _ _ w w' itemId kind G V) as C.
    specialize (U' {| foodItemId := itemId; type := kind |}). lia. }
  destruct (select_notification_Some _ _ _ _ _ E) as (_ & -> & K & _).
  pose proof (kind_of_offset_is_kind _ _ K) as V.
  split; [|split; [apply All; exact V | split; [exact All|]]].
  - pose proof (Q token item Hwl ty _ b E) as Hin. apply rows_for_pos in Hin.
    specialize (U' {| foodItemId := f_id item; type := ty |}). lia.
  - intros env' now' D. split; [|apply new_events_same].
    apply run_idle. intros token' item' Hin.
    destruct G as (jobs & Us & Fs & _).
    rewrite (worklist_same_tables tz now now' w w' Us Fs D) in Hin.
    unfold eligible_logged. rewrite D. apply (Q token' item' Hin).
Qed.

(** The scenario of June 10: three runs at 09:00, 10:00 and 11:00 with items
    A, B, C and D; item A has one three-day row and one request. *)
Lemma scheduler_idempotent_witness :
  exists w',
    runs utc gateway_up [nine_am; nine_am + hour; nine_am + 2 * hour]
      (fresh_world [itemA0; itemB0; itemC0; itemD0]) = (Normal tt, w')
    /\ rows_for {| foodItemId := "A"; type := "three_day" |} (notificationLog w')
       = 1%nat
    /\ (dispatches "A" "Food Expiring Soon" (trace w') <= 0 + 1)%nat.
Proof.
  destruct (scheduler_idempotent utc gateway_up nine_am
              [nine_am + hour; nine_am + 2 * hour]
              (fresh_world [itemA0; itemB0; itemC0; itemD0])
              "ExponentPushToken[abc]" itemA0 "three_day" "Food Expiring Soon"
              "Milk expires in 3 days.")
    as (w' & R & H1 & H2 & _).
  - intros n. reflexivity.
  - apply unique_keys_nil.
  - intros n [<- | [<- | []]]; vm_compute; reflexivity.
  - vm_compute. auto.
  - vm_compute. reflexivity.
  - exists w'. split; [exact R|]. split; [exact H1 | exact H2].
Defined.

(** The points of a run are those of [checkAndSendExpirationNotifications]:
    a run that goes on alone from its query ends, with the completion and
    the world of the function. *)
Lemma loop_alone (tz : TimeZone) (env : Environment) (now : Z)
  (todo : list (string * FoodItem)) (b : RunPoint) (w : World) :
  exists k,
    interleave tz env now (repeat true k) (BeforeLookup todo) b w
    = (RunEnded
         (fst (forM_ todo
                 (fun p => processItem tz env (setHours0 tz now) (fst p) (snd p)) w)),
       b,
       snd (forM_ todo
              (fun p => processItem tz env (setHours0 tz now) (fst p) (snd p)) w)).
Proof.
  revert w. induction todo as [|[token item] todo IH]; intros w.
  - exists 1%nat. reflexivity.
  - rewrite forM_cons. cbn [fst snd].
    set (loop := forM_ todo _) in *. unfold processItem.
    destruct (select_notification (daysUntilExpiration tz (setHours0 tz now) item)
                item) as [[nt t] bd] eqn:E.
    destruct (truthy nt) as [ty|] eqn:T.
    + unfold bind, notificationLog_findUnique, ret.
      destruct (table_findUnique {| foodItemId := f_id item; type := ty |}
                  (notificationLog w)) as [found|] eqn:F.
      * destruct (IH w) as (k & Hk). exists (S k).
        cbn [repeat interleave advance]. rewrite E, T.
        unfold notificationLog_findUnique. rewrite F. exact Hk.
      * rewrite !sendPushNotification_run.
        set (w1 := sent_world env
                     {| to := token; title := t; body := bd; data := f_id item |} w).
        destruct (notificationLog_create {| foodItemId := f_id item; type := ty |} w1)
          as [[r | e] w2] eqn:C.
        -- destruct (IH w2) as (k & Hk). exists (S (S (S k))).
           cbn [repeat interleave advance]. rewrite E, T.
           unfold notificationLog_findUnique. rewrite F.
           cbn [interleave advance]. rewrite sendPushNotification_run. fold w1.
           cbn [interleave advance]. rewrite C. exact Hk.
        -- exists 3%nat.
           cbn [repeat interleave advance]. rewrite E, T.
           unfold notificationLog_findUnique. rewrite F.
           cbn [interleave advance]. rewrite sendPushNotification_run. fold w1.
           cbn [interleave advance]. rewrite C. reflexivity.
    + destruct (IH w) as (k & Hk). exists (S k).
      cbn [repeat interleave advance]. rewrite E, T. exact Hk.
Qed.

Lemma run_alone (tz : TimeZone) (env : Environment) (now : Z) (b : RunPoint)
  (w : World) :
  exists k,
    interleave tz env now (repeat true k) BeforeQuery b w
    = (RunEnded (fst (checkAndSendExpirationNotifications tz env now w)), b,
       snd (checkAndSendExpirationNotifications tz env now w)).
Proof.
  destruct (loop_alone tz env now (worklist tz now w) b w) as (k & Hk).
  exists (S k). rewrite check_worklist. exact Hk.
Qed.

(** C2 as stated fails for runs that overlap.  Item B is due tomorrow and
    two runs start on the same day, each going on when the other awaits:
    both look the pair (B, one_day) up and find no row, both send the
    notification, the first creates the row and the second is refused it.
    The gateway was called twice for the pair. *)
Lemma overlapping_runs_request_twice :
  let r := interleave utc gateway_up nine_am
             [true; false; true; false; true; false; true; false; true]
             BeforeQuery BeforeQuery (fresh_world [itemB0]) in
  fst r = (RunEnded (Normal tt),
           RunEnded (Throw (UniqueConstraintFailed
                              {| foodItemId := "B"; type := "one_day" |})))
  /\ dispatches "B" "Food Expiring Tomorrow" (trace (snd r)) = 2%nat
  /\ ~ (dispatches "B" "Food Expiring Tomorrow" (trace (snd r)) <= 1)%nat
  /\ rows_for {| foodItemId := "B"; type := "one_day" |} (notificationLog (snd r))
     = 1%nat.
Proof. vm_compute. repeat split. intros H. inversion H as [|m H1]. inversion H1. Qed.

(** The scenario evaluated: one request each for A, B and C, none for D, and
    nothing more from the second and third run. *)
Example june10_scenario :
  let w' := snd (runs utc gateway_up [nine_am; nine_am + hour; nine_am + 2 * hour]
                   (fresh_world [itemA0; itemB0; itemC0; itemD0])) in
  notificationLog w'
  = [{| foodItemId := "A"; type := "three_day" |};
     {| foodItemId := "B"; type := "one_day" |};
     {| foodItemId := "C"; type := "expiry_day" |}]
  /\ map (fun e => match e with EvFetch n _ => data n | _ => ""%string end)
       (filter is_fetch (trace w')) = ["A"; "B"; "C"]%string
  /\ requests w' = 3%nat.
Proof. vm_compute. repeat split. Qed.

(** ** The unique index *)

Lemma trigger_log (tz : TimeZone) (env : Environment) (now : Z) (w : World) :
  unique_keys (notificationLog w) ->
  unique_keys (notificationLog (snd (triggerNotificationCheck tz env now w))).
Proof.
  intros U. unfold triggerNotificationCheck, bind, console_log.
  apply (run_unique tz env now (add_console _ w)). exact U.
Qed.

Lemma cronJob_log (tz : TimeZone) (env : Environment) (now : Z) (w : World) :
  unique_keys (notificationLog w) ->
  unique_keys (notificationLog (snd (cronJob tz env now w))).
Proof.
  intros U. unfold cronJob, bind, try_catch, console_log, console_error.
  pose proof (run_unique tz env now
                (add_console "[CRON] Running daily expiration notification check at" w)
                U) as H.
  destruct (checkAndSendExpirationNotifications tz env now _) as [[[] | e] w1];
    exact H.
Qed.

Lemma create_unique (row : NotificationLog) (w : World) :
  unique_keys (notificationLog w) ->
  unique_keys (notificationLog (snd (notificationLog_create row w))).
Proof.
  intros U. unfold notificationLog_create.
  destruct (table_insert row (notificationLog w)) as [tbl|] eqn:E; simpl.
  - eapply table_insert_unique; eauto.
  - exact U.
Qed.

(** C3: in every state the server can reach, whatever the runs overlapped
    with and whoever wrote, a pair [(foodItemId, type)] has at most one row
    in [NotificationLog]; and it is the insert itself that refuses a second
    row for a pair, whether or not the writer looked first: [create] on a
    pair that is there throws and leaves the table as it was. *)
Theorem log_keys_unique (tz : TimeZone) (w : World) :
  reachable tz w ->
  unique_keys (notificationLog w)
  /\ forall row,
       In row (notificationLog w) ->
       notificationLog_create row w
       = (Throw (UniqueConstraintFailed row), add_event (EvCreateRejected row) w)
       /\ notificationLog (snd (notificationLog_create row w)) = notificationLog w.
Proof.
  intros R. split.
  - induction R as [us fs | env now w R IH | env now w R IH | row w R IH
                    | us fs w R IH].
    + apply unique_keys_nil.
    + apply trigger_log. exact IH.
    + apply cronJob_log. exact IH.
    + apply create_unique. exact IH.
    + exact IH.
  - intros row Hin. unfold notificationLog_create, table_insert.
    apply existsb_same_key in Hin. rewrite Hin. split; reflexivity.
Qed.

(** After a run that overlapped with another one, which logged (B, one_day)
    first. *)
Lemma log_keys_unique_witness :
  unique_keys
    (notificationLog
       (snd (triggerNotificationCheck utc overlapping_run nine_am
               (fresh_world [itemB0; itemC0]))))
  /\ fst (notificationLog_create {| foodItemId := "B"; type := "one_day" |}
            (snd (triggerNotificationCheck utc overlapping_run nine_am
                    (fresh_world [itemB0; itemC0]))))
     = Throw (UniqueConstraintFailed {| foodItemId := "B"; type := "one_day" |}).
Proof.
  destruct (log_keys_unique utc
              (snd (triggerNotificationCheck utc overlapping_run nine_am
                      (fresh_world [itemB0; itemC0])))
              (reach_trigger utc overlapping_run nine_am _
                 (reach_migrated utc [tempUser] [itemB0; itemC0]))) as [U C].
  split; [exact U|].
  destruct (C {| foodItemId := "B"; type := "one_day" |}) as [E _].
  - vm_compute. auto.
  - rewrite E. reflexivity.
Defined.

(** ** A lost race *)

(** C8, as the code has it: when the run has found no row for a due pair, has
    sent the notification, and another writer has logged the pair meanwhile,
    [create] is refused and the error is not caught.  The notification is not
    sent again and the refused [create] leaves the log as the other writer
    left it, but the run ends there with the error thrown to its caller: the
    items and users after this one are not worked on. *)
Theorem lost_race_aborts_run
  (tz : TimeZone) (env : Environment) (now : Z)
  (pre_users more_users : list (User * list FoodItem)) (user : User)
  (pre_items rest_items : list FoodItem) (item : FoodItem) (token : string)
  (w0 w1 w : World) (ty t b : string) :
  queried tz now w0
  = pre_users ++ (user, pre_items ++ item :: rest_items) :: more_users ->
  truthy (pushToken user) = Some token ->
  forM_ pre_users (processUser tz env (setHours0 tz now)) w0 = (Normal tt, w1) ->
  forM_ pre_items (processItem tz env (setHours0 tz now) token) w1 = (Normal tt, w) ->
  select_notification (daysUntilExpiration tz (setHours0 tz now) item) item
  = (Some ty, t, b) ->
  ~ In {| foodItemId := f_id item; type := ty |} (notificationLog w) ->
  In {| foodItemId := f_id item; type := ty |}
     (commit_all (concurrent env (requests w)) (notificationLog w)) ->
  let key := {| foodItemId := f_id item; type := ty |} in
  let notification := {| to := token; title := t; body := b; data := f_id item |} in
  let w2 := add_event (EvCreateRejected key) (sent_world env notification w) in
  checkAndSendExpirationNotifications tz env now w0
  = (Throw (UniqueConstraintFailed key), w2)
  /\ notificationLog w2
     = commit_all (concurrent env (requests w)) (notificationLog w)
  /\ new_events w w2
     = [EvFetch notification (gateway env (requests w)); EvCreateRejected key].
Proof.
  intros Hq T Hu Hi E Hn Hrace key notification w2.
  split; [|split].
  - rewrite check_unfold, Hq, forM_app, Hu, forM_cons.
    unfold processUser at 1. rewrite T, forM_app, Hi, forM_cons.
    pose proof (processItem_send tz env (setHours0 tz now) token item w ty t b E Hn)
      as P. cbv zeta in P. rewrite P.
    assert (existsb (same_key key)
              (notificationLog (sent_world env notification w)) = true) as X.
    { apply existsb_same_key. exact Hrace. }
    unfold key, notification in X. rewrite X. reflexivity.
  - reflexivity.
  - apply new_events_app. unfold w2. simpl. rewrite <- app_assoc. reflexivity.
Qed.

(** Items B and C due, and an overlapping run that logs (B, one_day) while
    the request for B is in flight. *)
Lemma lost_race_aborts_run_witness :
  checkAndSendExpirationNotifications utc overlapping_run nine_am
    (fresh_world [itemB0; itemC0])
  = (Throw (UniqueConstraintFailed {| foodItemId := "B"; type := "one_day" |}),
     add_event (EvCreateRejected {| foodItemId := "B"; type := "one_day" |})
       (sent_world overlapping_run
          {| to := "ExponentPushToken[abc]"; title := "Food Expiring Tomorrow";
             body := "Eggs expires tomorrow. Plan to use it soon!"; data := "B" |}
          (fresh_world [itemB0; itemC0]))).
Proof.
  apply (lost_race_aborts_run utc overlapping_run nine_am [] [] tempUser
           [] [itemC0] itemB0 "ExponentPushToken[abc]"
           (fresh_world [itemB0; itemC0]) (fresh_world [itemB0; itemC0])
           (fresh_world [itemB0; itemC0]) "one_day" "Food Expiring Tomorrow"
           "Eggs expires tomorrow. Plan to use it soon!").
  - vm_compute. reflexivity.
  - vm_compute. reflexivity.
  - reflexivity.
  - reflexivity.
  - vm_compute. reflexivity.
  - simpl. tauto.
  - vm_compute. auto.
Defined.

(** C8 as stated fails: in that run the refused [create] is not treated as
    success.  The run ends with the error, item C, due the same day, is
    neither requested nor logged, and the manual trigger hands the error to
    the error handler; with nobody else writing, C gets its request. *)
Lemma lost_race_is_not_success :
  let r := checkAndSendExpirationNotifications utc overlapping_run nine_am
             (fresh_world [itemB0; itemC0]) in
  fst r = Throw (UniqueConstraintFailed {| foodItemId := "B"; type := "one_day" |})
  /\ fst r <> Normal tt
  /\ dispatches "C" "Food Expiring Today!" (trace (snd r)) = 0%nat
  /\ notificationLog (snd r) = [{| foodItemId := "B"; type := "one_day" |}]
  /\ fst (triggerRoute utc overlapping_run nine_am (fresh_world [itemB0; itemC0]))
     = NextError (UniqueConstraintFailed {| foodItemId := "B"; type := "one_day" |})
  /\ dispatches "C" "Food Expiring Today!"
       (trace (snd (checkAndSendExpirationNotifications utc gateway_up nine_am
                      (fresh_world [itemB0; itemC0])))) = 1%nat.
Proof. vm_compute. repeat split. discriminate. Qed.

(** ** What the caller gets *)

Lemma failure_lines_app (a b : list Event) :
  failure_lines (a ++ b) = failure_lines a ++ failure_lines b.
Proof. unfold failure_lines. apply flat_map_app. Qed.

(** The loop body writes to the console what its request, if it makes one,
    leaves there, and nothing else. *)
Lemma processItem_console (tz : TimeZone) (env : Environment) (today : Z)
  (token : string) (item : FoodItem) (w0 w : World) :
  (exists new, trace w = trace w0 ++ new
               /\ console w = console w0 ++ failure_lines new) ->
  exists new,
    trace (snd (processItem tz env today token item w)) = trace w0 ++ new
    /\ console (snd (processItem tz env today token item w))
       = console w0 ++ failure_lines new.
Proof.
  intros (new & T & C).
  destruct (processItem_cases tz env today token item w)
    as [-> | (ty & t & b & _ & _ & [[_ ->] | [_ ->]])]; simpl.
  - exists new. auto.
  - eexists. rewrite T, C, <- !app_assoc. split; [reflexivity|].
    rewrite failure_lines_app. simpl. rewrite !app_nil_r. reflexivity.
  - eexists. rewrite T, C, <- !app_assoc. split; [reflexivity|].
    rewrite failure_lines_app. simpl. rewrite !app_nil_r. reflexivity.
Qed.

(** In any environment and however the run ends, the console lines of a run
    are those of its requests, in their order. *)
Lemma run_console (tz : TimeZone) (env : Environment) (now : Z) (w : World) :
  console (snd (checkAndSendExpirationNotifications tz env now w))
  = console w
    ++ failure_lines
         (new_events w (snd (checkAndSendExpirationNotifications tz env now w))).
Proof.
  assert (exists new,
             trace (snd (checkAndSendExpirationNotifications tz env now w))
             = trace w ++ new
             /\ console (snd (checkAndSendExpirationNotifications tz env now w))
                = console w ++ failure_lines new) as (new & T & C).
  { rewrite check_worklist.
    apply (forM_inv (fun v => exists new, trace v = trace w ++ new
                                          /\ console v = console w ++ failure_lines new)).
    - intros [token item] v _. apply processItem_console.
    - exists []. simpl. rewrite !app_nil_r. auto. }
  rewrite (new_events_app _ _ _ T). exact C.
Qed.

(** An accepted request leaves no line, any other outcome exactly one. *)
Lemma complaints_one (o : FetchOutcome) :
  (exists r, o = Resolves r /\ ok r = true)
  \/ (exists line, complaints o = [line]).
Proof.
  destruct o as [[k t] |]; simpl.
  - destruct k.
    + left. eexists. split; reflexivity.
    + right. destruct t; eexists; reflexivity.
  - right. eexists. reflexivity.
Qed.

(** C9, as the code has it: a run without concurrent writers ends, with
    every due pair of its work list logged, and completes with no value,
    whatever the gateway did; the manual trigger answers with the same fixed
    message, and the cron job completes as well.  What the gateway did is
    written to the console only: after the line of the trigger, one line for
    each request that was answered with a status that is not OK, whose body
    could not be read, or that was rejected, in the order of the requests,
    and no line for an accepted request. *)
Theorem run_completes_with_no_value
  (tz : TimeZone) (env : Environment) (now : Z) (w : World) :
  no_concurrent_writer env ->
  exists w',
    triggerNotificationCheck tz env now w = (Normal tt, w')
    /\ (forall token item,
          In (token, item) (worklist tz now w) ->
          eligible_logged tz (setHours0 tz now) item w')
    /\ triggerRoute tz env now w
       = (Json true "Notification check triggered"%string, w')
    /\ fst (cronJob tz env now w) = Normal tt
    /\ console w'
       = console w
         ++ "[CRON] Manually triggering notification check at"%string
            :: failure_lines (new_events w w')
    /\ (forall n o,
          In (EvFetch n o) (new_events w w') ->
          (exists r, o = Resolves r /\ ok r = true)
          \/ (exists line, complaints o = [line] /\ In line (console w'))).
Proof.
  intros alone.
  destruct (run_sequential tz env alone now
              (add_console "[CRON] Manually triggering notification check at" w))
    as (w' & R & G & Q).
  assert (triggerNotificationCheck tz env now w = (Normal tt, w')) as T.
  { unfold triggerNotificationCheck, bind, console_log. exact R. }
  assert (console w'
          = console w
            ++ "[CRON] Manually triggering notification check at"%string
               :: failure_lines (new_events w w')) as C.
  { pose proof (run_console tz env now
                  (add_console "[CRON] Manually triggering notification check at" w))
      as C. rewrite R in C. simpl in C. rewrite <- app_assoc in C. exact C. }
  exists w'. split; [exact T|]. split; [|split; [|split; [|split]]].
  - intros token item Hin. apply (Q token item).
    rewrite (worklist_same_tables tz now now w
               (add_console "[CRON] Manually triggering notification check at" w));
      auto.
  - unfold triggerRoute. rewrite T. reflexivity.
  - unfold cronJob, bind, try_catch, console_log, console_error.
    destruct (run_sequential tz env alone now
                (add_console
                   "[CRON] Running daily expiration notification check at" w))
      as (w'' & R' & _). rewrite R'. reflexivity.
  - exact C.
  - intros n o Hin. destruct (complaints_one o) as [A | (line & L)].
    + left. exact A.
    + right. exists line. split; [exact L|]. rewrite C.
      apply in_or_app. right. right. unfold failure_lines.
      apply in_flat_map. exists (EvFetch n o). split; [exact Hin|].
      rewrite L. left. reflexivity.
Qed.

(** With the gateway unreachable and with the gateway up the trigger answers
    the same; the three failed requests are three lines of the console. *)
Lemma run_completes_with_no_value_witness :
  (exists w',
     triggerRoute utc gateway_down nine_am (fresh_world [itemA0; itemB0; itemC0; itemD0])
     = (Json true "Notification check triggered"%string, w')
     /\ console w'
        = ["[CRON] Manually triggering notification check at";
           "Error sending push notification:";
           "Error sending push notification:";
           "Error sending push notification:"]%string)
  /\ (exists w',
        triggerRoute utc gateway_up nine_am (fresh_world [itemD0])
        = (Json true "Notification check triggered"%string, w')
        /\ console w' = ["[CRON] Manually triggering notification check at"%string]).
Proof.
  split.
  - destruct (run_completes_with_no_value utc gateway_down nine_am
                (fresh_world [itemA0; itemB0; itemC0; itemD0]))
      as (w' & T & _ & H & _ & C & _); [intros n; reflexivity|].
    exists w'. split; [exact H|]. rewrite C.
    replace w' with (snd (triggerNotificationCheck utc gateway_down nine_am
                            (fresh_world [itemA0; itemB0; itemC0; itemD0])))
      by (rewrite T; reflexivity).
    vm_compute. reflexivity.
  - destruct (run_completes_with_no_value utc gateway_up nine_am
                (fresh_world [itemD0]))
      as (w' & T & _ & H & _ & C & _); [intros n; reflexivity|].
    exists w'. split; [exact H|]. rewrite C.
    replace w' with (snd (triggerNotificationCheck utc gateway_up nine_am
                            (fresh_world [itemD0])))
      by (rewrite T; reflexivity).
    vm_compute. reflexivity.
Defined.

(** C9 as stated fails.  A run in which three notifications were sent, a run
    in which the three requests failed, and a run with nothing to send
    complete with the same value, so no count of sent, skipped or failed
    items can be read from what the caller gets; and the refused [create] of
    a lost race is thrown past the scheduler in the middle of the run. *)
Lemma run_reports_no_counts :
  (~ exists summary : Completion unit -> nat,
       summary (fst (checkAndSendExpirationNotifications utc gateway_up nine_am
                       (fresh_world [itemA0; itemB0; itemC0; itemD0])))
       = List.length
           (filter is_fetch
              (trace (snd (checkAndSendExpirationNotifications utc gateway_up
                             nine_am (fresh_world [itemA0; itemB0; itemC0; itemD0])))))
       /\ summary (fst (checkAndSendExpirationNotifications utc gateway_up nine_am
                          (fresh_world [itemD0])))
          = List.length
              (filter is_fetch
                 (trace (snd (checkAndSendExpirationNotifications utc gateway_up
                                nine_am (fresh_world [itemD0]))))))
  /\ fst (checkAndSendExpirationNotifications utc gateway_down nine_am
            (fresh_world [itemA0; itemB0; itemC0; itemD0]))
     = fst (checkAndSendExpirationNotifications utc gateway_up nine_am
              (fresh_world [itemA0; itemB0; itemC0; itemD0]))
  /\ fst (triggerRoute utc gateway_down nine_am
            (fresh_world [itemA0; itemB0; itemC0; itemD0]))
     = fst (triggerRoute utc gateway_up nine_am (fresh_world [itemD0]))
  /\ fst (checkAndSendExpirationNotifications utc overlapping_run nine_am
            (fresh_world [itemB0; itemC0]))
     = Throw (UniqueConstraintFailed {| foodItemId := "B"; type := "one_day" |}).
Proof.
  split; [|vm_compute; repeat split].
  intros (summary & H1 & H2). vm_compute in H1, H2. congruence.
Qed.

(** ** Calendar days and the zone's offset *)

Lemma calculateDaysUntilExpiration_offsets (tz : TimeZone) (now exp : Z) :
  setHours0 tz exp - setHours0 tz now
  = calendar_days_between tz now exp * msPerDay - offset_change tz now exp.
Proof.
  unfold setHours0, UTC, calendar_days_between, offset_change, local_midnight,
    MakeDate. lia.
Qed.

Lemma Math_ceil_div_unique (a b q : Z) :
  0 < b -> b * (q - 1) < a <= b * q -> Math_ceil_div a b = q.
Proof.
  intros Hb H. pose proof (Math_ceil_div_spec a b Hb) as S. nia.
Qed.

Lemma calculateDaysUntilExpiration_cases (tz : TimeZone) (now exp : Z) :
  (0 <= offset_change tz now exp < msPerDay ->
   calculateDaysUntilExpiration tz now exp = calendar_days_between tz now exp)
  /\ (- msPerDay < offset_change tz now exp < 0 ->
      calculateDaysUntilExpiration tz now exp
      = calendar_days_between tz now exp + 1).
Proof.
  unfold calculateDaysUntilExpiration.
  rewrite calculateDaysUntilExpiration_offsets.
  split; intros H; apply Math_ceil_div_unique; try reflexivity;
    unfold msPerDay in *; lia.
Qed.

(** X1: when the zone's offset at the local midnight of the expiration day
    is the one at today's local midnight, or larger by less than a day
    (clocks were set forward in between), [calculateDaysUntilExpiration] is
    exactly the number of calendar days from today to the expiration day. *)
Theorem days_until_expiration_is_calendar_difference
  (tz : TimeZone) (now exp : Z) :
  0 <= offset_change tz now exp < msPerDay ->
  calculateDaysUntilExpiration tz now exp = calendar_days_between tz now exp.
Proof. apply calculateDaysUntilExpiration_cases. Qed.

Lemma days_until_expiration_is_calendar_difference_witness :
  calculateDaysUntilExpiration edt (june10 + 4 * hour + 23 * hour)
    (june10 + 3 * msPerDay + 5 * hour) = 3.
Proof.
  apply (days_until_expiration_is_calendar_difference edt
           (june10 + 4 * hour + 23 * hour) (june10 + 3 * msPerDay + 5 * hour)).
  vm_compute. split; [discriminate | reflexivity].
Defined.

(** X2: when the zone's offset at the local midnight of the expiration day
    is smaller than at today's local midnight (clocks were set back in
    between), [calculateDaysUntilExpiration] is the number of calendar days
    plus one; so the scheduler's loop body does nothing for an item that
    expires tomorrow, its offset being 2. *)
Theorem clock_set_back_adds_a_day
  (tz : TimeZone) (env : Environment) (now : Z) (token : string)
  (item : FoodItem) (w : World) :
  - msPerDay < offset_change tz now (expirationDate item) < 0 ->
  calculateDaysUntilExpiration tz now (expirationDate item)
  = calendar_days_between tz now (expirationDate item) + 1
  /\ daysUntilExpiration tz (setHours0 tz now) item
     = calendar_days_between tz now (expirationDate item) + 1
  /\ (calendar_days_between tz now (expirationDate item) = 1 ->
      processItem tz env (setHours0 tz now) token item w = (Normal tt, w)).
Proof.
  intros H.
  pose proof (proj2 (calculateDaysUntilExpiration_cases tz now (expirationDate item)) H)
    as E.
  split; [exact E|]. split; [exact E|].
  intros D. apply processItem_no_threshold.
  change (daysUntilExpiration tz (setHours0 tz now) item)
    with (calculateDaysUntilExpiration tz now (expirationDate item)).
  rewrite E, D. reflexivity.
Qed.

(** New York, Sunday November 3, 2024, 09:00 EST, the day the clocks were set
    back, and an item that expires on Monday November 4. *)
Lemma clock_set_back_adds_a_day_witness :
  calculateDaysUntilExpiration new_york_2024 (nov3 + 14 * hour)
    (nov3 + msPerDay + 5 * hour) = 2
  /\ processItem new_york_2024 gateway_up
       (setHours0 new_york_2024 (nov3 + 14 * hour)) "ExponentPushToken[abc]"
       {| f_id := "M"; name := "Milk"; purchaseDate := nov3;
          expirationDate := nov3 + msPerDay + 5 * hour;
          isEstimated := true; userId := "temp-user-id" |}
       (fresh_world [])
     = (Normal tt, fresh_world []).
Proof.
  destruct (clock_set_back_adds_a_day new_york_2024 gateway_up (nov3 + 14 * hour)
              "ExponentPushToken[abc]"
              {| f_id := "M"; name := "Milk"; purchaseDate := nov3;
                 expirationDate := nov3 + msPerDay + 5 * hour;
                 isEstimated := true; userId := "temp-user-id" |}
              (fresh_world [])) as (E & _ & P).
  - vm_compute. split; reflexivity.
  - split; [exact E | apply P; vm_compute; reflexivity].
Defined.

Lemma addDays_local (tz : TimeZone) (date days : Z) :
  addDays tz date days = UTC tz (LocalTime tz date + days * msPerDay).
Proof.
  unfold addDays, addDate, MakeDate, Day, TimeWithinDay. f_equal.
  pose proof (Z.div_mod (LocalTime tz date) msPerDay ltac:(discriminate)). lia.
Qed.

(** X3: [addDays] and [calculateDaysUntilExpiration] undo each other: when
    the local time [addDays] lands on is a regular one (the zone's offset for
    it as a local time is its offset at the instant), and the offset did not
    shrink between the two midnights, a date moved [n] days from now is [n]
    days until expiration. *)
Theorem addDays_then_days_until (tz : TimeZone) (now n : Z) :
  LocalTZA_utc tz (addDays tz now n)
  = LocalTZA_local tz (LocalTime tz now + n * msPerDay) ->
  0 <= offset_change tz now (addDays tz now n) < msPerDay ->
  calculateDaysUntilExpiration tz now (addDays tz now n) = n.
Proof.
  intros Hreg Hoff.
  rewrite (proj1 (calculateDaysUntilExpiration_cases tz now (addDays tz now n)) Hoff).
  unfold calendar_days_between.
  assert (LocalTime tz (addDays tz now n) = LocalTime tz now + n * msPerDay) as L.
  { unfold LocalTime at 1. rewrite Hreg. rewrite addDays_local. unfold UTC. lia. }
  rewrite L. unfold Day. rewrite Z.div_add by discriminate. lia.
Qed.

Lemma addDays_then_days_until_witness :
  calculateDaysUntilExpiration edt nine_am (addDays edt nine_am 5) = 5
  /\ calculateDaysUntilExpiration edt nine_am (addDays edt nine_am (-2)) = -2.
Proof.
  split.
  - apply (addDays_then_days_until edt nine_am 5); vm_compute;
      [reflexivity | split; [discriminate | reflexivity]].
  - apply (addDays_then_days_until edt nine_am (-2)); vm_compute;
      [reflexivity | split; [discriminate | reflexivity]].
Defined.

(** ** The traffic light and the badge *)

Lemma run_fetch_item (tz : TimeZone) (env : Environment) (now : Z) (w : World)
  (n : ExpoNotification) (o : FetchOutcome) :
  In (EvFetch n o)
     (new_events w (snd (checkAndSendExpirationNotifications tz env now w))) ->
  exists item ty,
    In item (foodItems w) /\ data n = f_id item
    /\ kind_of_offset (daysUntilExpiration tz (setHours0 tz now) item) = Some ty
    /\ title n = title_of ty /\ body n = body_of ty (name item).
Proof.
  intros Hin. destruct (run_fetches tz env now w) as (new & T & F).
  rewrite (new_events_app _ _ _ T) in Hin. rewrite Forall_forall in F.
  specialize (F _ Hin). destruct F as (token & item & Hwl & _ & Hdata & E & K).
  apply worklist_considered in Hwl. destruct Hwl as (u & Hc & _).
  apply considered_In in Hc. destruct Hc as (_ & Hit & _).
  destruct (kind_of_offset (daysUntilExpiration tz (setHours0 tz now) item))
    as [ty|] eqn:Kd; [|contradiction].
  exists item, ty. rewrite select_notification_templates, Kd in E.
  inversion E. auto.
Qed.

(** X4: the scheduler runs on the server, the traffic light is computed on
    the phone.  When the phone's local midnights of its clock reading and of
    the items' expiration dates are the server's (the two are in one zone and
    read their clocks on the same day), every request a run makes to the
    gateway is for an item whose traffic light is yellow or red, never green;
    and it is red exactly for the requests titled "Food Expiring Today!". *)
Theorem notified_items_are_yellow_or_red
  (server phone : TimeZone) (env : Environment) (now phone_now : Z) (w : World)
  (n : ExpoNotification) (o : FetchOutcome) :
  setHours0 phone phone_now = setHours0 server now ->
  (forall item, In item (foodItems w) ->
                setHours0 phone (expirationDate item)
                = setHours0 server (expirationDate item)) ->
  In (EvFetch n o)
     (new_events w (snd (checkAndSendExpirationNotifications server env now w))) ->
  exists item,
    In item (foodItems w) /\ data n = f_id item
    /\ getTrafficLightStatus
         (calculateDaysUntilExpiration phone phone_now (expirationDate item)) <> Green
    /\ (getTrafficLightStatus
          (calculateDaysUntilExpiration phone phone_now (expirationDate item)) = Red
        <-> title n = "Food Expiring Today!"%string).
Proof.
  intros Hnow Hexp Hin. destruct (run_fetch_item server env now w n o Hin)
    as (item & ty & Hit & Hd & K & T & _).
  exists item. split; [exact Hit|]. split; [exact Hd|].
  assert (calculateDaysUntilExpiration phone phone_now (expirationDate item)
          = daysUntilExpiration server (setHours0 server now) item) as ->.
  { unfold calculateDaysUntilExpiration, daysUntilExpiration.
    rewrite Hnow, (Hexp item Hit). reflexivity. }
  rewrite T.
  destruct (kind_of_offset_Some _ _ K) as [[-> ->] | [[-> ->] | [-> ->]]];
    simpl; split; try discriminate; split; intros H; try discriminate H;
    reflexivity.
Qed.

(** Server and phone both four hours west of UTC, the phone reading its
    clock an hour after the run. *)
Lemma notified_items_are_yellow_or_red_witness :
  exists item,
    In item [itemA0; itemB0; itemC0; itemD0] /\ "B"%string = f_id item
    /\ getTrafficLightStatus
         (calculateDaysUntilExpiration edt (nine_am + hour) (expirationDate item))
       <> Green.
Proof.
  destruct (notified_items_are_yellow_or_red edt edt gateway_up nine_am
              (nine_am + hour)
              (fresh_world [itemA0; itemB0; itemC0; itemD0])
              {| to := "ExponentPushToken[abc]"; title := "Food Expiring Today!";
                 body := "Eggs expires today. Use it before it goes bad!";
                 data := "B" |} accepted) as (item & H1 & H2 & H3 & _).
  - vm_compute. reflexivity.
  - intros item _. reflexivity.
  - vm_compute. auto.
  - exists item. auto.
Defined.

(** Across zones the agreement is lost.  The server is four hours west of
    UTC and runs on June 9 at 19:00 local time; the item expires that day at
    22:00 local time, so the request is titled "Food Expiring Today!".  On a
    phone on UTC it is June 9, 23:00, the item expires on June 10, and the
    light is yellow. *)
Example light_differs_across_zones :
  let item := {| f_id := "H"; name := "Ham"; purchaseDate := june10 - 2 * msPerDay;
                 expirationDate := june10 + 2 * hour;
                 isEstimated := false; userId := "temp-user-id" |} in
  let now := june10 - 1 * hour in
  new_events (fresh_world [item])
    (snd (checkAndSendExpirationNotifications edt gateway_up now (fresh_world [item])))
  = [EvFetch {| to := "ExponentPushToken[abc]"; title := "Food Expiring Today!";
                body := "Ham expires today. Use it before it goes bad!";
                data := "H" |} accepted;
     EvCreate {| foodItemId := "H"; type := "expiry_day" |}]
  /\ getTrafficLightStatus (calculateDaysUntilExpiration utc now (expirationDate item))
     = Yellow.
Proof. vm_compute. split; reflexivity. Qed.

Lemma prefix_empty (s : string) : prefix "" s = true.
Proof. destruct s; reflexivity. Qed.

(** X5: the text of the badge agrees with its colour: the light is red
    exactly when the text is "Expires today" or begins with "Expired", it
    begins with "Expired" exactly for a negative offset, and under a green
    light it is "Expires in N days" with N the offset. *)
Theorem badge_text_agrees_with_light (d : Z) :
  (getTrafficLightStatus d = Red
   <-> formatRelativeExpiration d = "Expires today"%string
       \/ prefix "Expired " (formatRelativeExpiration d) = true)
  /\ (prefix "Expired " (formatRelativeExpiration d) = true <-> d < 0)
  /\ (getTrafficLightStatus d = Green ->
      formatRelativeExpiration d
      = ("Expires in " ++ Number_toString d ++ " days")%string).
Proof.
  unfold getTrafficLightStatus, formatRelativeExpiration.
  destruct (Z.eqb_spec d 0) as [-> | H0].
  { simpl. repeat split; try tauto; try discriminate; try lia; auto. }
  destruct (Z.eqb_spec d 1) as [-> | H1].
  { simpl. repeat split; try discriminate; try lia.
    intros [H | H]; discriminate H. }
  destruct (Z.gtb_spec d 1) as [Hg | Hg].
  { destruct (Z.leb_spec d 0) as [Hle | Hlt]; [lia|]. simpl.
    destruct (Z.leb_spec d 3) as [H3 | H3];
      repeat split; try discriminate; try lia; try reflexivity;
      intros [E | E]; discriminate E. }
  destruct (Z.leb_spec d 0) as [Hle | Hlt]; [|lia].
  destruct (Z.eqb_spec d (-1)) as [-> | Hm]; simpl; rewrite ?prefix_empty;
    repeat split; intros; first [lia | discriminate | auto].
Qed.

Lemma Number_toString_inj (a b : Z) :
  Number_toString a = Number_toString b -> a = b.
Proof.
  unfold Number_toString. intros H. apply to_int_inj.
  assert (forall z, Z.to_int z <> Decimal.Pos Decimal.Nil
                    /\ Z.to_int z <> Decimal.Neg Decimal.Nil) as N.
  { intros [|p|p]; simpl; split; try discriminate; intros E; injection E;
      apply Unsigned.to_uint_nonnil. }
  apply (f_equal NilZero.int_of_string) in H.
  rewrite !NilZero.isi in H by apply N. injection H. auto.
Qed.

Lemma append_cancel_r (s1 s2 t : string) :
  (s1 ++ t)%string = (s2 ++ t)%string -> s1 = s2.
Proof.
  assert (forall a b, String.length (a ++ b) = (String.length a + String.length b)%nat)
    as L.
  { induction a; intros; simpl; auto. }
  revert s2. induction s1 as [|c s1 IH]; intros [|c' s2] H; simpl in H.
  - reflexivity.
  - apply (f_equal String.length) in H. simpl in H. rewrite L in H. lia.
  - apply (f_equal String.length) in H. simpl in H. rewrite L in H. lia.
  - injection H as -> H. f_equal. apply IH. exact H.
Qed.

Lemma Number_toString_head (n : Z) :
  exists c rest, Number_toString n = String c rest
                 /\ c <> "y"%char /\ c <> "t"%char /\ c <> "i"%char.
Proof.
  unfold Number_toString.
  destruct (Z.to_int n) as [u | u]; simpl.
  - destruct u; simpl; eexists; eexists; (split; [reflexivity|]);
      repeat split; discriminate.
  - eexists; eexists; (split; [reflexivity|]); repeat split; discriminate.
Qed.

(** X6: the badge text determines the offset: different numbers of days never
    get the same text. *)
Theorem formatRelativeExpiration_injective (d1 d2 : Z) :
  formatRelativeExpiration d1 = formatRelativeExpiration d2 -> d1 = d2.
Proof.
  unfold formatRelativeExpiration.
  destruct (Number_toString_head (Z.abs d1)) as (c1 & r1 & E1 & Y1 & _).
  destruct (Number_toString_head (Z.abs d2)) as (c2 & r2 & E2 & Y2 & _).
  destruct (Z.eqb_spec d1 0) as [-> | A0];
    [|destruct (Z.eqb_spec d1 1) as [-> | A1];
      [|destruct (Z.gtb_spec d1 1) as [Ag | Ag];
        [|destruct (Z.eqb_spec d1 (-1)) as [-> | Am]]]];
    (destruct (Z.eqb_spec d2 0) as [-> | B0];
     [|destruct (Z.eqb_spec d2 1) as [-> | B1];
       [|destruct (Z.gtb_spec d2 1) as [Bg | Bg];
         [|destruct (Z.eqb_spec d2 (-1)) as [-> | Bm]]]]);
    simpl; intros H; try reflexivity; try discriminate H.
  - injection H as H'. apply append_cancel_r in H'.
    apply Number_toString_inj. exact H'.
  - rewrite E2 in H. simpl in H. injection H as H' _. congruence.
  - rewrite E1 in H. simpl in H. injection H as H' _. congruence.
  - injection H as H'. apply append_cancel_r in H'.
    apply Number_toString_inj in H'. lia.
Qed.

Lemma formatRelativeExpiration_injective_witness :
  formatRelativeExpiration (-12) = "Expired 12 days ago"%string
  /\ formatRelativeExpiration (-12) = formatRelativeExpiration (3 - 15)
  /\ -12 = 3 - 15.
Proof.
  split; [reflexivity|]. split; [reflexivity|].
  apply (formatRelativeExpiration_injective (-12) (3 - 15)). reflexivity.
Defined.

(** ** The list of cards *)

Lemma severity_monotone (d1 d2 : Z) :
  d1 <= d2 ->
  severity (getTrafficLightStatus d1) <= severity (getTrafficLightStatus d2).
Proof.
  unfold getTrafficLightStatus. intros H.
  destruct (Z.leb_spec d1 0), (Z.leb_spec d2 0), (Z.leb_spec d1 3),
    (Z.leb_spec d2 3); simpl; lia.
Qed.

Lemma Forall_perm {A} (P : A -> Prop) (l l' : list A) :
  Permutation l l' -> Forall P l' -> Forall P l.
Proof.
  intros H F. apply (Permutation_Forall (Permutation_sym H)). exact F.
Qed.

Lemma insert_by_days_perm (x : FoodItemWithStatus) (l : list FoodItemWithStatus) :
  Permutation (insert_by_days x l) (x :: l).
Proof.
  induction l as [|y l IH]; simpl; [reflexivity|].
  destruct (days_until_expiration x <=? days_until_expiration y); [reflexivity|].
  rewrite IH. apply perm_swap.
Qed.

Lemma sort_by_days_perm (l : list FoodItemWithStatus) :
  Permutation (sort_by_days l) l.
Proof.
  induction l as [|x l IH]; simpl; [reflexivity|].
  rewrite insert_by_days_perm. constructor. exact IH.
Qed.

Lemma insert_by_days_sorted (x : FoodItemWithStatus) (l : list FoodItemWithStatus) :
  StronglySorted (fun a b => days_until_expiration a <= days_until_expiration b) l ->
  StronglySorted (fun a b => days_until_expiration a <= days_until_expiration b)
    (insert_by_days x l).
Proof.
  induction l as [|y l IH]; simpl; intros S.
  - repeat constructor.
  - inversion S as [|? ? Sl Fy]; subst.
    destruct (Z.leb_spec (days_until_expiration x) (days_until_expiration y)).
    + constructor; [exact S|]. constructor; [assumption|].
      eapply Forall_impl; [|exact Fy]. simpl. intros; lia.
    + constructor; [apply IH; exact Sl|].
      apply (Forall_perm _ _ _ (insert_by_days_perm x l)).
      constructor; [lia | exact Fy].
Qed.

Lemma sort_by_days_sorted (l : list FoodItemWithStatus) :
  StronglySorted (fun a b => days_until_expiration a <= days_until_expiration b)
    (sort_by_days l).
Proof.
  induction l as [|x l IH]; simpl; [constructor|].
  apply insert_by_days_sorted. exact IH.
Qed.

Lemma insert_by_days_filter (d : Z) (x : FoodItemWithStatus)
  (l : list FoodItemWithStatus) :
  filter (fun r => days_until_expiration r =? d) (insert_by_days x l)
  = filter (fun r => days_until_expiration r =? d) (x :: l).
Proof.
  induction l as [|y l IH]; [reflexivity|]. simpl insert_by_days.
  destruct (Z.leb_spec (days_until_expiration x) (days_until_expiration y));
    [reflexivity|].
  cbn [filter] in *. rewrite IH.
  destruct (Z.eqb_spec (days_until_expiration x) d),
    (Z.eqb_spec (days_until_expiration y) d); try reflexivity. lia.
Qed.

Lemma sort_by_days_filter (d : Z) (l : list FoodItemWithStatus) :
  filter (fun r => days_until_expiration r =? d) (sort_by_days l)
  = filter (fun r => days_until_expiration r =? d) l.
Proof.
  induction l as [|x l IH]; [reflexivity|]. simpl sort_by_days.
  rewrite insert_by_days_filter. cbn [filter]. rewrite IH. reflexivity.
Qed.

(** X7: [addStatusToItems] returns the items it was given, each once, with
    the offset [calculateDaysUntilExpiration] gives it and the light of that
    offset, in ascending order of offset; hence every red card comes before
    every yellow one and every yellow before every green; and items of equal
    offset keep the order they came in. *)
Theorem addStatusToItems_sorted (tz : TimeZone) (now : Z) (items : list FoodItem) :
  Permutation (map base (addStatusToItems tz now items)) items
  /\ Forall (fun r =>
               days_until_expiration r
               = calculateDaysUntilExpiration tz now (expirationDate (base r))
               /\ status r = getTrafficLightStatus (days_until_expiration r))
       (addStatusToItems tz now items)
  /\ StronglySorted
       (fun a b => days_until_expiration a <= days_until_expiration b)
       (addStatusToItems tz now items)
  /\ StronglySorted (fun a b => severity (status a) <= severity (status b))
       (addStatusToItems tz now items)
  /\ forall d,
       map base (filter (fun r => days_until_expiration r =? d)
                   (addStatusToItems tz now items))
       = filter (fun item =>
                   calculateDaysUntilExpiration tz now (expirationDate item) =? d)
           items.
Proof.
  unfold addStatusToItems.
  set (annotate := fun item =>
         {| base := item;
            days_until_expiration :=
              calculateDaysUntilExpiration tz now (expirationDate item);
            status := getTrafficLightStatus
                        (calculateDaysUntilExpiration tz now (expirationDate item)) |}).
  change (sort_by_days (map _ items)) with (sort_by_days (map annotate items)).
  assert (Forall (fun r =>
                    days_until_expiration r
                    = calculateDaysUntilExpiration tz now (expirationDate (base r))
                    /\ status r = getTrafficLightStatus (days_until_expiration r))
            (sort_by_days (map annotate items))) as A.
  { apply (Forall_perm _ _ _ (sort_by_days_perm (map annotate items))).
    apply Forall_forall. intros r Hr. apply in_map_iff in Hr.
    destruct Hr as (item & <- & _). split; reflexivity. }
  split; [|split; [exact A | split; [apply sort_by_days_sorted | split]]].
  - rewrite (Permutation_map base (sort_by_days_perm (map annotate items))).
    rewrite map_map. simpl. rewrite map_id. reflexivity.
  - pose proof (sort_by_days_sorted (map annotate items)) as S.
    induction S as [|r l S IH F]; [constructor|].
    inversion A as [|? ? [_ Hr] Al]; subst. constructor; [apply IH; exact Al|].
    rewrite Forall_forall in *. intros r' Hr'.
    destruct (Al r' Hr') as [_ ->]. rewrite Hr.
    apply severity_monotone. apply F. exact Hr'.
  - clear A. intros d. rewrite sort_by_days_filter.
    induction items as [|item items IH]; [reflexivity|]. cbn [map filter].
    simpl days_until_expiration.
    destruct (calculateDaysUntilExpiration tz now (expirationDate item) =? d);
      simpl; rewrite IH; reflexivity.
Qed.

(** ** Pairs that are logged *)

Lemma dispatches_snoc2 (itemId t : string) (tr : list Event) (e1 e2 : Event) :
  dispatch_for itemId t e1 = false -> dispatch_for itemId t e2 = false ->
  dispatches itemId t ((tr ++ [e1]) ++ [e2]) = dispatches itemId t tr.
Proof.
  intros H1 H2. rewrite !dispatches_app. unfold dispatches at 2 3. simpl.
  rewrite H1, H2. simpl. lia.
Qed.

Lemma processItem_logged_pair (tz : TimeZone) (env : Environment) (today : Z)
  (token : string) (item : FoodItem) (itemId ty : string) (w0 w : World) :
  is_kind ty ->
  In {| foodItemId := itemId; type := ty |} (notificationLog w)
  /\ dispatches itemId (title_of ty) (trace w)
     = dispatches itemId (title_of ty) (trace w0) ->
  In {| foodItemId := itemId; type := ty |}
     (notificationLog (snd (processItem tz env today token item w)))
  /\ dispatches itemId (title_of ty)
       (trace (snd (processItem tz env today token item w)))
     = dispatches itemId (title_of ty) (trace w0).
Proof.
  intros V [Hin Hd].
  destruct (processItem_cases tz env today token item w)
    as [-> | (ty' & t & b & E & Hn & Hcase)]; [simpl; auto|].
  destruct (select_notification_Some _ _ _ _ _ E) as (_ & -> & K & _).
  assert (dispatch_for itemId (title_of ty)
            (EvFetch {| to := token; title := title_of ty';
                        body := b; data := f_id item |}
               (gateway env (requests w))) = false) as Hf.
  { unfold dispatch_for. simpl.
    destruct (String.eqb_spec (f_id item) itemId) as [Ei | Ei]; [|reflexivity].
    destruct (String.eqb_spec (title_of ty') (title_of ty)) as [Et | Et];
      [|reflexivity].
    exfalso. apply Hn.
    rewrite (title_of_inj_kind _ ty' ty K V Et), Ei. exact Hin. }
  cbv zeta in Hcase. destruct Hcase as [[_ ->] | [_ ->]]; simpl; split.
  - apply commit_all_incl. exact Hin.
  - rewrite dispatches_snoc2; auto.
  - apply in_or_app. left. apply commit_all_incl. exact Hin.
  - rewrite dispatches_snoc2; auto.
Qed.

(** X8: a run, in any environment, makes no request for a pair that is
    already in the log: once an item has been notified for a kind it is not
    notified for that kind again, whatever its expiration date is changed
    to. *)
Theorem logged_pair_is_never_requested
  (tz : TimeZone) (env : Environment) (now : Z) (w : World) (itemId ty : string) :
  is_kind ty ->
  In {| foodItemId := itemId; type := ty |} (notificationLog w) ->
  dispatches itemId (title_of ty)
    (trace (snd (checkAndSendExpirationNotifications tz env now w)))
  = dispatches itemId (title_of ty) (trace w)
  /\ In {| foodItemId := itemId; type := ty |}
        (notificationLog (snd (checkAndSendExpirationNotifications tz env now w))).
Proof.
  intros V Hin. rewrite check_unfold.
  set (I := fun v => In {| foodItemId := itemId; type := ty |} (notificationLog v)
                     /\ dispatches itemId (title_of ty) (trace v)
                        = dispatches itemId (title_of ty) (trace w)).
  assert (I (snd (forM_ (queried tz now w) (processUser tz env (setHours0 tz now)) w)))
    as [H1 H2]; [|split; assumption].
  apply (forM_inv I); [|split; [exact Hin | reflexivity]].
  intros [user items] v _ Iv. unfold processUser.
  destruct (truthy (pushToken user)) as [token|]; [|exact Iv].
  revert Iv. apply (forM_inv I). intros item v' _ Iv'.
  apply processItem_logged_pair; assumption.
Qed.

(** Item C was notified on June 10 for its expiry day; its expiration date is
    then moved to June 11 at midnight, and on June 11 it is due again. *)
Lemma logged_pair_is_never_requested_witness :
  dispatches "C" "Food Expiring Today!"
    (trace (snd (checkAndSendExpirationNotifications utc gateway_up
                   (nine_am + msPerDay)
                   (set_foodItems [item_at_midnight "C" "Ham" 1]
                      (snd (checkAndSendExpirationNotifications utc gateway_up
                              nine_am (fresh_world [itemC0])))))))
  = 1%nat.
Proof.
  pose proof (proj1 (logged_pair_is_never_requested utc gateway_up
                       (nine_am + msPerDay)
                       (set_foodItems [item_at_midnight "C" "Ham" 1]
                          (snd (checkAndSendExpirationNotifications utc gateway_up
                                  nine_am (fresh_world [itemC0]))))
                       "C" "expiry_day" (or_introl eq_refl)
                       ltac:(vm_compute; auto))) as H.
  change (title_of "expiry_day") with "Food Expiring Today!"%string in H.
  rewrite H. vm_compute. reflexivity.
Defined.

(** ** The notification routes *)

(** X9: [POST /api/notifications/trigger] answers either 200 with the fixed
    success message or, when the run threw, 500 with the generic
    INTERNAL_ERROR body, which carries nothing of the error; without
    concurrent writers it is always the 200, whatever the gateway did. *)
Theorem trigger_endpoint_answers
  (tz : TimeZone) (env : Environment) (now : Z) (w : World) :
  (fst (POST_notifications_trigger tz env now w)
   = {| http_status := 200;
        http_body := BodySuccess true "Notification check triggered" |}
   \/ fst (POST_notifications_trigger tz env now w)
      = {| http_status := 500;
           http_body := BodyApiError "INTERNAL_ERROR"
                          "An unexpected error occurred" None |})
  /\ (no_concurrent_writer env ->
      fst (POST_notifications_trigger tz env now w)
      = {| http_status := 200;
           http_body := BodySuccess true "Notification check triggered" |})
  /\ (forall e, fst (triggerNotificationCheck tz env now w) = Throw e ->
                fst (POST_notifications_trigger tz env now w)
                = {| http_status := 500;
                     http_body := BodyApiError "INTERNAL_ERROR"
                                    "An unexpected error occurred" None |}).
Proof.
  unfold POST_notifications_trigger, with_errorHandler, triggerRoute.
  split; [|split].
  - destruct (triggerNotificationCheck tz env now w) as [[[] | e] w']; simpl; auto.
  - intros alone.
    destruct (run_sequential tz env alone now
                (add_console "[CRON] Manually triggering notification check at" w))
      as (w' & R & _).
    assert (triggerNotificationCheck tz env now w = (Normal tt, w')) as ->.
    { unfold triggerNotificationCheck, bind, console_log. exact R. }
    reflexivity.
  - intros e E. destruct (triggerNotificationCheck tz env now w) as [[[] | e'] w'];
      simpl in *; [discriminate | reflexivity].
Qed.

Lemma trigger_endpoint_answers_witness :
  fst (POST_notifications_trigger utc gateway_down nine_am
         (fresh_world [itemA0; itemB0; itemC0]))
  = {| http_status := 200;
       http_body := BodySuccess true "Notification check triggered" |}
  /\ fst (POST_notifications_trigger utc overlapping_run nine_am
            (fresh_world [itemB0; itemC0]))
     = {| http_status := 500;
          http_body := BodyApiError "INTERNAL_ERROR"
                         "An unexpected error occurred" None |}.
Proof.
  split.
  - apply (trigger_endpoint_answers utc gateway_down nine_am
             (fresh_world [itemA0; itemB0; itemC0])).
    intros n. reflexivity.
  - apply (proj2 (proj2 (trigger_endpoint_answers utc overlapping_run nine_am
                           (fresh_world [itemB0; itemC0])))
             (UniqueConstraintFailed {| foodItemId := "B"; type := "one_day" |})).
    vm_compute. reflexivity.
Defined.

Lemma validate_pushToken_ok (v : JsValue) :
  validate_pushToken v = [] <-> exists s, v = JsString s /\ s <> ""%string.
Proof.
  split.
  - destruct v as [| | b | n | s |]; try discriminate.
    destruct s; [discriminate|]. intros _. eexists. split; [reflexivity|discriminate].
  - intros (s & -> & Hs). destruct s; [contradiction | reflexivity].
Qed.

Lemma user_upsert_In (id : string) (token : option string) (w : World) :
  In {| u_id := id; pushToken := token |} (users (user_upsert id token w)).
Proof.
  unfold user_upsert.
  destruct (existsb (fun u => String.eqb (u_id u) id) (users w)) eqn:E; simpl.
  - apply existsb_exists in E. destruct E as (u & Hu & Eu).
    apply in_map_iff. exists u. rewrite Eu. apply String.eqb_eq in Eu.
    rewrite Eu. auto.
  - apply in_or_app. right. left. reflexivity.
Qed.

Lemma registerRoute_cases (v : JsValue) (w : World) :
  (exists s, v = JsString s /\ s <> ""%string
             /\ POST_notifications_register v w
                = ({| http_status := 200;
                      http_body := BodySuccess true "Push token registered" |},
                   user_upsert TEMP_USER_ID (Some s) w))
  \/ ((forall s, v = JsString s -> s = ""%string)
      /\ POST_notifications_register v w
         = ({| http_status := 400;
               http_body := BodyApiError "VALIDATION_ERROR" "Validation failed"
                              (Some (validate_pushToken v)) |}, w)).
Proof.
  unfold POST_notifications_register, with_errorHandler, registerRoute.
  destruct v as [| | b | n | s |];
    try (right; split; [intros s' H; discriminate H | reflexivity]).
  destruct s as [|c s].
  - right. split; [intros s' H; injection H as <-; reflexivity | reflexivity].
  - left. eexists. split; [reflexivity|]. split; [discriminate | reflexivity].
Qed.

(** X10: registering a token makes the next run notify: after a request to
    [POST /api/notifications/register] with a non-empty string, answered 200,
    a run without concurrent writers requests and logs every due, not yet
    logged item of the temporary user that is in the window. *)
Theorem register_then_run_notifies
  (tz : TimeZone) (env : Environment) (now : Z) (w : World)
  (token : string) (item : FoodItem) (ty t b : string) :
  token <> ""%string ->
  no_concurrent_writer env ->
  In item (foodItems w) ->
  userId item = TEMP_USER_ID ->
  setHours0 tz now <= expirationDate item <= addDate tz (setHours0 tz now) 3 ->
  select_notification (daysUntilExpiration tz (setHours0 tz now) item) item
  = (Some ty, t, b) ->
  ~ In {| foodItemId := f_id item; type := ty |} (notificationLog w) ->
  fst (POST_notifications_register (JsString token) w)
  = {| http_status := 200; http_body := BodySuccess true "Push token registered" |}
  /\ exists w',
       checkAndSendExpirationNotifications tz env now
         (snd (POST_notifications_register (JsString token) w)) = (Normal tt, w')
       /\ In {| foodItemId := f_id item; type := ty |} (notificationLog w')
       /\ (dispatches (f_id item) t (trace w) < dispatches (f_id item) t (trace w'))%nat.
Proof.
  intros Ht alone Hit Hown Hwin E Hn.
  destruct (registerRoute_cases (JsString token) w)
    as [(s & Es & _ & R) | (Hbad & _)];
    [|exfalso; apply Ht; apply Hbad; reflexivity].
  injection Es as <-. rewrite R. simpl. split; [reflexivity|].
  set (w1 := user_upsert TEMP_USER_ID (Some token) w).
  assert (foodItems w1 = foodItems w /\ notificationLog w1 = notificationLog w
          /\ trace w1 = trace w) as (F1 & L1 & T1).
  { unfold w1, user_upsert. destruct (existsb _ _); simpl; auto. }
  assert (In (token, item) (worklist tz now w1)) as Hwl.
  { apply worklist_In.
    exists ({| u_id := TEMP_USER_ID; pushToken := Some token |},
            filter (fun item0 => String.eqb (userId item0) TEMP_USER_ID
                                 && in_window (setHours0 tz now)
                                      (addDate tz (setHours0 tz now) 3) item0)
                   (foodItems w1)).
    split; [|split].
    - unfold queried, user_findMany. apply in_map_iff.
      exists {| u_id := TEMP_USER_ID; pushToken := Some token |}.
      split; [reflexivity|]. apply filter_In. split; [apply user_upsert_In|].
      reflexivity.
    - cbn [fst pushToken]. apply truthy_iff. auto.
    - cbn [snd]. apply filter_In. rewrite F1. split; [exact Hit|].
      apply andb_true_iff. split; [apply String.eqb_eq; exact Hown|].
      unfold in_window. apply andb_true_iff. split; apply Z.leb_le; apply Hwin. }
  destruct (run_sequential tz env alone now w1) as (w' & Run & G & Q).
  exists w'. split; [exact Run|]. pose proof (Q token item Hwl ty t b E) as Hin.
  split; [exact Hin|].
  destruct (select_notification_Some _ _ _ _ _ E) as (_ & -> & K & _).
  pose proof (grows_counts tz _ _ w1 w' (f_id item) ty G
                (kind_of_offset_is_kind _ _ K)) as C.
  rewrite L1, T1 in C. apply rows_for_zero in Hn. apply rows_for_pos in Hin. lia.
Qed.

(** The seeded user, whose token is null, registers; item C expires today. *)
Lemma register_then_run_notifies_witness :
  exists w',
    checkAndSendExpirationNotifications utc gateway_up nine_am
      (snd (POST_notifications_register (JsString "ExponentPushToken[xyz]")
              (set_users [{| u_id := "temp-user-id"; pushToken := None |}]
                 (fresh_world [itemC0])))) = (Normal tt, w')
    /\ In {| foodItemId := "C"; type := "expiry_day" |} (notificationLog w').
Proof.
  destruct (register_then_run_notifies utc gateway_up nine_am
              (set_users [{| u_id := "temp-user-id"; pushToken := None |}]
                 (fresh_world [itemC0]))
              "ExponentPushToken[xyz]" itemC0 "expiry_day" "Food Expiring Today!"
              "Ham expires today. Use it before it goes bad!")
    as (_ & w' & R & Hin & _).
  - discriminate.
  - intros n. reflexivity.
  - simpl. auto.
  - reflexivity.
  - vm_compute. split; discriminate.
  - vm_compute. reflexivity.
  - simpl. tauto.
  - exists w'. auto.
Defined.

Lemma user_upsert_users (id : string) (token : option string) (w : World) (u : User) :
  In u (users (user_upsert id token w)) ->
  (In u (users w) /\ u_id u <> id) \/ u = {| u_id := id; pushToken := token |}.
Proof.
  unfold user_upsert.
  destruct (existsb (fun u0 => String.eqb (u_id u0) id) (users w)) eqn:X; simpl.
  - intros H. apply in_map_iff in H. destruct H as (u0 & E & H0).
    destruct (String.eqb_spec (u_id u0) id) as [Ei | Ei].
    + right. rewrite <- E, Ei. reflexivity.
    + left. subst u. auto.
  - intros H. apply in_app_or in H. destruct H as [H | [H | []]].
    + left. split; [exact H|]. intros Ei.
      assert (existsb (fun u0 => String.eqb (u_id u0) id) (users w) = true) as Y.
      { apply existsb_exists. exists u. split; [exact H|].
        apply String.eqb_eq. exact Ei. }
      congruence.
    + right. symmetry. exact H.
Qed.

Lemma user_upsert_ids (id : string) (token : option string) (w : World) :
  NoDup (map u_id (users w)) -> NoDup (map u_id (users (user_upsert id token w))).
Proof.
  unfold user_upsert. intros N.
  destruct (existsb (fun u0 => String.eqb (u_id u0) id) (users w)) eqn:X; simpl.
  - rewrite map_map.
    replace (map (fun x => u_id (if String.eqb (u_id x) id
                                 then {| u_id := u_id x; pushToken := token |}
                                 else x)) (users w))
      with (map u_id (users w)); [exact N|].
    apply map_ext. intros u. destruct (String.eqb (u_id u) id); reflexivity.
  - rewrite map_app. simpl.
    apply (Permutation_NoDup (l := id :: map u_id (users w))).
    + apply Permutation_cons_append.
    + constructor; [|exact N]. intros Hin. apply in_map_iff in Hin.
      destruct Hin as (u & Eu & Hu).
      assert (existsb (fun u0 => String.eqb (u_id u0) id) (users w) = true) as Y.
      { apply existsb_exists. exists u. split; [exact Hu|].
        apply String.eqb_eq. exact Eu. }
      congruence.
Qed.

(** X11: [POST /api/notifications/register] never stores an empty token and
    keeps the users' ids distinct; it writes the [User] table only; and a
    body whose [pushToken] is missing, not a string, or the empty string is
    answered 400 VALIDATION_ERROR with nothing written. *)
Theorem register_keeps_tokens_truthy (v : JsValue) (w : World) :
  tokens_truthy w ->
  NoDup (map u_id (users w)) ->
  tokens_truthy (snd (POST_notifications_register v w))
  /\ NoDup (map u_id (users (snd (POST_notifications_register v w))))
  /\ foodItems (snd (POST_notifications_register v w)) = foodItems w
  /\ notificationLog (snd (POST_notifications_register v w)) = notificationLog w
  /\ ((forall s, v = JsString s -> s = ""%string) ->
      snd (POST_notifications_register v w) = w
      /\ http_status (fst (POST_notifications_register v w)) = 400).
Proof.
  intros T N.
  destruct (registerRoute_cases v w) as [(s & -> & Hs & R) | (Hbad & R)];
    rewrite R; simpl.
  - split; [|split; [apply user_upsert_ids; exact N | split; [|split]]].
    + intros u token Hu Ht. apply user_upsert_users in Hu.
      destruct Hu as [[Hu _] | ->]; [eapply T; eauto|].
      simpl in Ht. injection Ht as <-. exact Hs.
    + unfold user_upsert. destruct (existsb _ _); reflexivity.
    + unfold user_upsert. destruct (existsb _ _); reflexivity.
    + intros Hbad. exfalso. apply Hs. apply Hbad. reflexivity.
  - repeat split; auto.
Qed.

Lemma register_keeps_tokens_truthy_witness :
  tokens_truthy (snd (POST_notifications_register (JsString "ExponentPushToken[xyz]")
                        (fresh_world [itemC0])))
  /\ snd (POST_notifications_register (JsString "") (fresh_world [itemC0]))
     = fresh_world [itemC0]
  /\ snd (POST_notifications_register JsUndefined (fresh_world [itemC0]))
     = fresh_world [itemC0].
Proof.
  assert (tokens_truthy (fresh_world [itemC0])) as T.
  { intros u token [<- | []] H. injection H as <-. discriminate. }
  assert (NoDup (map u_id (users (fresh_world [itemC0])))) as N.
  { repeat constructor. simpl. tauto. }
  split; [|split].
  - apply (register_keeps_tokens_truthy (JsString "ExponentPushToken[xyz]")
             (fresh_world [itemC0]) T N).
  - apply (register_keeps_tokens_truthy (JsString "") (fresh_world [itemC0]) T N).
    intros s H. injection H as <-. reflexivity.
  - apply (register_keeps_tokens_truthy JsUndefined (fresh_world [itemC0]) T N).
    intros s H. discriminate H.
Defined.

(** X12: when every stored token is non-empty, as the register route leaves
    them, the loop's guard [if (!user.pushToken) continue] skips none of the
    users the query returns: the loop body runs on every item the query
    hands over, with its owner's token. *)
Theorem truthy_tokens_reach_loop_body
  (tz : TimeZone) (now : Z) (w : World) (u : User) (item : FoodItem) :
  tokens_truthy w ->
  In (u, item) (considered tz now w) ->
  exists token, pushToken u = Some token /\ In (token, item) (worklist tz now w).
Proof.
  intros T Hc. pose proof Hc as Hc'. apply considered_In in Hc'.
  destruct Hc' as (Hu & _ & _ & Hn & _).
  destruct (pushToken u) as [token|] eqn:P; [|contradiction].
  exists token. split; [reflexivity|].
  unfold considered in Hc. apply in_flat_map in Hc.
  destruct Hc as ([u' items] & He & Hit). simpl in Hit.
  apply in_map_iff in Hit. destruct Hit as (it & E & Hit). inversion E; subst.
  apply worklist_In. exists (u, items). split; [exact He|]. split; [|exact Hit].
  cbn [fst]. apply truthy_iff. split; [exact P|]. eapply T; eauto.
Qed.

Lemma truthy_tokens_reach_loop_body_witness :
  exists token,
    pushToken tempUser = Some token
    /\ In (token, itemA0) (worklist utc nine_am two_users_world).
Proof.
  apply (truthy_tokens_reach_loop_body utc nine_am two_users_world tempUser itemA0).
  - intros u token [<- | [<- | []]] H; [injection H as <-|]; discriminate.
  - vm_compute. auto.
Defined.

(** ** Reading and deleting a food item *)

Section FoodItemRouteFacts.
Variable isUUID : string -> bool.

Lemma foodItem_findUnique_Some (id : string) (w : World) (item : FoodItem) :
  foodItem_findUnique id w = Some item -> In item (foodItems w) /\ f_id item = id.
Proof.
  unfold foodItem_findUnique. intros H. apply find_some in H.
  destruct H as [H E]. apply String.eqb_eq in E. auto.
Qed.

Lemma foodItem_findUnique_None (id : string) (w : World) :
  foodItem_findUnique id w = None <->
  forall item, In item (foodItems w) -> f_id item <> id.
Proof.
  unfold foodItem_findUnique. split.
  - intros H item Hin E. apply (find_none _ _ H) in Hin.
    apply String.eqb_neq in Hin. contradiction.
  - intros H. destruct (find _ (foodItems w)) as [item|] eqn:F; [|reflexivity].
    apply find_some in F. destruct F as [Hin E]. apply String.eqb_eq in E.
    exfalso. eapply H; eauto.
Qed.

(** The four ways [DELETE /api/food-items/:id] can go. *)
Lemma DELETE_foodItem_cases (id : string) (w : World) :
  (isUUID id = false
   /\ DELETE_foodItem isUUID id w
      = ({| http_status := 400;
            http_body := BodyApiError "VALIDATION_ERROR" "Validation failed"
                           (Some ["Invalid food item ID"%string]) |}, w))
  \/ (isUUID id = true
      /\ (foodItem_findUnique id w = None
          \/ exists existing, foodItem_findUnique id w = Some existing
                              /\ userId existing <> TEMP_USER_ID)
      /\ DELETE_foodItem isUUID id w
         = ({| http_status := 404;
               http_body := BodyApiError "FOOD_ITEM_NOT_FOUND" "Food item not found"
                              None |}, add_console "Error:" w))
  \/ (isUUID id = true
      /\ (exists existing, foodItem_findUnique id w = Some existing
                           /\ userId existing = TEMP_USER_ID)
      /\ DELETE_foodItem isUUID id w
         = ({| http_status := 204; http_body := BodyEmpty |},
            set_foodItems
              (filter (fun item => negb (String.eqb (f_id item) id)) (foodItems w))
              w)).
Proof.
  unfold DELETE_foodItem, with_errorHandler, deleteFoodItemRoute,
    validateFoodItemId, foodItem_delete.
  destruct (isUUID id); simpl; [|left; auto]. right.
  destruct (foodItem_findUnique id w) as [existing|] eqn:F; simpl.
  - destruct (String.eqb_spec (userId existing) TEMP_USER_ID) as [E | E]; simpl.
    + right. split; [reflexivity|]. split; [eauto | reflexivity].
    + left. split; [reflexivity|]. split; [eauto | reflexivity].
  - left. auto.
Qed.

(** X13: a [DELETE /api/food-items/:id] answered 204 removed the rows with
    that id, an item of the temporary user, and nothing else: every other
    item is still there, and the users and the notification log (so also the
    rows logged for the deleted item) are as before. *)
Theorem delete_removes_the_item (id : string) (w : World) :
  http_status (fst (DELETE_foodItem isUUID id w)) = 204 ->
  (exists existing, In existing (foodItems w) /\ f_id existing = id
                    /\ userId existing = TEMP_USER_ID)
  /\ (forall item, In item (foodItems (snd (DELETE_foodItem isUUID id w)))
                   <-> In item (foodItems w) /\ f_id item <> id)
  /\ users (snd (DELETE_foodItem isUUID id w)) = users w
  /\ notificationLog (snd (DELETE_foodItem isUUID id w)) = notificationLog w.
Proof.
  intros H.
  destruct (DELETE_foodItem_cases id w)
    as [(_ & R) | [(_ & _ & R) | (_ & (existing & F & Own) & R)]];
    rewrite R in *; simpl in H; try discriminate H.
  simpl. split; [|split; [|auto]].
  - exists existing. apply foodItem_findUnique_Some in F. tauto.
  - intros item. rewrite filter_In, negb_true_iff, String.eqb_neq. reflexivity.
Qed.

(** X14: a [DELETE] that is not answered 204 is answered 400 (the id is not
    a UUID) or 404 FOOD_ITEM_NOT_FOUND (no such item, or an item of another
    user) and changes no table; and after a 204 the same request is answered
    with that 404. *)
Theorem delete_refused_changes_nothing (id : string) (w : World) :
  (http_status (fst (DELETE_foodItem isUUID id w)) <> 204 ->
   (http_status (fst (DELETE_foodItem isUUID id w)) = 400
    \/ fst (DELETE_foodItem isUUID id w)
       = {| http_status := 404;
            http_body := BodyApiError "FOOD_ITEM_NOT_FOUND" "Food item not found"
                           None |})
   /\ foodItems (snd (DELETE_foodItem isUUID id w)) = foodItems w
   /\ users (snd (DELETE_foodItem isUUID id w)) = users w
   /\ notificationLog (snd (DELETE_foodItem isUUID id w)) = notificationLog w)
  /\ (http_status (fst (DELETE_foodItem isUUID id w)) = 204 ->
      fst (DELETE_foodItem isUUID id (snd (DELETE_foodItem isUUID id w)))
      = {| http_status := 404;
           http_body := BodyApiError "FOOD_ITEM_NOT_FOUND" "Food item not found"
                          None |}).
Proof.
  destruct (DELETE_foodItem_cases id w)
    as [(_ & R) | [(_ & _ & R) | (U & _ & R)]]; rewrite R; simpl;
    (split; [intros H | intros H; try discriminate H]);
    try (split; [auto | auto]); try contradiction.
  set (w' := set_foodItems _ w).
  destruct (DELETE_foodItem_cases id w')
    as [(U' & _) | [(_ & _ & R') | (_ & (existing & F & _) & _)]].
  - congruence.
  - rewrite R'. reflexivity.
  - exfalso. apply foodItem_findUnique_Some in F. destruct F as [Hin E].
    unfold w' in Hin. simpl in Hin. apply filter_In in Hin.
    destruct Hin as [_ Hne]. apply negb_true_iff, String.eqb_neq in Hne.
    contradiction.
Qed.

(** X15: after a [DELETE] answered 204 no run, in any environment, makes a
    request to the gateway for the deleted id. *)
Theorem deleted_item_is_never_notified
  (tz : TimeZone) (env : Environment) (now : Z) (id : string) (w : World)
  (n : ExpoNotification) (o : FetchOutcome) :
  http_status (fst (DELETE_foodItem isUUID id w)) = 204 ->
  In (EvFetch n o)
     (new_events (snd (DELETE_foodItem isUUID id w))
        (snd (checkAndSendExpirationNotifications tz env now
                (snd (DELETE_foodItem isUUID id w))))) ->
  data n <> id.
Proof.
  intros H Hin.
  destruct (DELETE_foodItem_cases id w)
    as [(_ & R) | [(_ & _ & R) | (_ & _ & R)]];
    rewrite R in *; simpl in H; try discriminate H. simpl snd in Hin.
  apply run_fetch_item in Hin. destruct Hin as (item & ty & Hit & Hd & _).
  simpl in Hit. apply filter_In in Hit. destruct Hit as [_ Hne].
  apply negb_true_iff, String.eqb_neq in Hne. congruence.
Qed.

(** X16: [GET /api/food-items/:id] answers with an item only if it is a
    stored item with that id that belongs to the temporary user; an id that
    is absent and an id of another user's item get the same 404 answer; and
    the request changes no table. *)
Theorem get_item_only_own (id : string) (w : World) :
  (forall item, http_body (fst (GET_foodItem isUUID id w)) = BodyFoodItem item ->
                In item (foodItems w) /\ f_id item = id
                /\ userId item = TEMP_USER_ID
                /\ http_status (fst (GET_foodItem isUUID id w)) = 200)
  /\ (isUUID id = true ->
      (foodItem_findUnique id w = None
       \/ exists other, foodItem_findUnique id w = Some other
                        /\ userId other <> TEMP_USER_ID) ->
      fst (GET_foodItem isUUID id w)
      = {| http_status := 404;
           http_body := BodyApiError "FOOD_ITEM_NOT_FOUND" "Food item not found"
                          None |})
  /\ users (snd (GET_foodItem isUUID id w)) = users w
  /\ foodItems (snd (GET_foodItem isUUID id w)) = foodItems w
  /\ notificationLog (snd (GET_foodItem isUUID id w)) = notificationLog w.
Proof.
  unfold GET_foodItem, with_errorHandler, getFoodItemRoute, validateFoodItemId.
  destruct (isUUID id); simpl.
  - destruct (foodItem_findUnique id w) as [foodItem|] eqn:F; simpl.
    + destruct (String.eqb_spec (userId foodItem) TEMP_USER_ID) as [E | E]; simpl.
      * repeat split; auto.
        -- injection H as <-. apply foodItem_findUnique_Some in F. tauto.
        -- injection H as <-. apply foodItem_findUnique_Some in F. tauto.
        -- injection H as <-. exact E.
        -- intros _ [H | (other & H & Ho)]; [discriminate H|].
           injection H as <-. contradiction.
      * repeat split; auto; discriminate.
    + repeat split; auto; discriminate.
  - repeat split; auto; discriminate.
Qed.
End FoodItemRouteFacts.

(** ** Image data *)

Lemma string_length_append (a b : string) :
  String.length (a ++ b) = (String.length a + String.length b)%nat.
Proof. induction a; simpl; auto. Qed.

Lemma prefix_append (p a s : string) :
  prefix p a = true -> prefix p (a ++ s) = true.
Proof.
  revert a. induction p as [|c p IH]; intros a H; [apply prefix_empty|].
  destruct a as [|d a]; simpl in *; [discriminate|].
  destruct (ascii_dec c d); [apply IH; exact H | discriminate].
Qed.

Lemma substring_append (n : nat) (a s : string) :
  (n <= String.length a)%nat -> substring 0 n (a ++ s) = substring 0 n a.
Proof.
  revert a. induction n as [|n IH]; intros a H.
  - destruct a; destruct s; reflexivity.
  - destruct a as [|c a]; simpl in *; [lia|]. f_equal. apply IH. lia.
Qed.

Lemma prefix_substring (p : string) (n : nat) (s : string) :
  (String.length p <= n)%nat -> prefix p (substring 0 n s) = prefix p s.
Proof.
  revert n s. induction p as [|c p IH]; intros n s H.
  - rewrite !prefix_empty. reflexivity.
  - destruct n as [|n]; simpl in H; [lia|].
    destruct s as [|d s]; [reflexivity|]. simpl.
    destruct (ascii_dec c d); [apply IH; lia | reflexivity].
Qed.

Lemma strip_prefix_append (p a r s : string) :
  strip_prefix p a = Some r -> strip_prefix p (a ++ s) = Some (r ++ s)%string.
Proof.
  revert a. induction p as [|c p IH]; intros a H; simpl in *.
  - injection H as <-. reflexivity.
  - destruct a as [|d a]; [discriminate|]. simpl.
    destruct (Ascii.eqb c d); [apply IH; exact H | discriminate].
Qed.

Lemma strip_prefix_sound (p a r : string) :
  strip_prefix p a = Some r -> a = (p ++ r)%string.
Proof.
  revert a. induction p as [|c p IH]; intros a H; simpl in *.
  - injection H as <-. reflexivity.
  - destruct a as [|d a]; [discriminate|].
    destruct (Ascii.eqb_spec c d) as [-> | Hne]; [|discriminate].
    f_equal. apply IH. exact H.
Qed.

Lemma strip_prefix_complete (p r : string) :
  strip_prefix p (p ++ r) = Some r.
Proof.
  induction p as [|c p IH]; simpl; [reflexivity|].
  rewrite Ascii.eqb_refl. exact IH.
Qed.

Lemma skip_word_append (rest s : string) (d : ascii) (r' : string) :
  skip_word rest = String d r' -> skip_word (rest ++ s) = (String d r' ++ s)%string.
Proof.
  induction rest as [|c rest IH]; simpl; [discriminate|].
  destruct (is_word_char c); [exact IH|]. intros H. injection H as <- <-.
  reflexivity.
Qed.

Lemma prefix_head (x : ascii) (p a : string) :
  prefix (String x p) a = true -> exists rest, a = String x rest.
Proof.
  destruct a as [|c rest]; [discriminate|]. cbn [prefix].
  destruct (ascii_dec x c) as [<- | _]; [eauto | discriminate].
Qed.

Lemma valid_prefix_head (a : string) :
  existsb (fun p => prefix p a) validPrefixes = true ->
  exists c rest, a = String c rest
                 /\ (c = "i" \/ c = "/" \/ c = "R" \/ c = "U")%char.
Proof.
  unfold validPrefixes. cbn [existsb]. rewrite !orb_true_iff.
  intros [H | [H | [H | [H | H]]]]; try discriminate H;
    apply prefix_head in H; destruct H as (rest & ->); eauto 10.
Qed.

Lemma strip_data_uri_magic (c : ascii) (rest : string) :
  (c = "i" \/ c = "/" \/ c = "R" \/ c = "U")%char ->
  strip_data_uri (String c rest) = String c rest.
Proof. intros [-> | [-> | [-> | ->]]]; reflexivity. Qed.

Lemma strip_data_uri_eq (p1 p2 value : string) :
  p1 = "data:image/"%string -> p2 = ";base64,"%string ->
  strip_data_uri value
  = match strip_prefix p1 value with
    | Some (String c rest) =>
        if is_word_char c then
          match strip_prefix p2 (skip_word rest) with
          | Some payload => payload
          | None => value
          end
        else value
    | _ => value
    end.
Proof. intros -> ->. reflexivity. Qed.

Lemma strip_data_uri_magic_append (value s : string) :
  existsb (fun p => prefix p value) validPrefixes = true ->
  strip_data_uri (value ++ s) = (value ++ s)%string.
Proof.
  intros V. destruct (valid_prefix_head _ V) as (c & rest & -> & Hc).
  apply (strip_data_uri_magic c (rest ++ s) Hc).
Qed.

(** Appending to an accepted value appends to what is left of it after the
    data-URI prefix. *)
Lemma strip_data_uri_append (value s : string) :
  existsb (fun p => prefix p (strip_data_uri value)) validPrefixes = true ->
  strip_data_uri (value ++ s) = (strip_data_uri value ++ s)%string.
Proof.
  remember "data:image/"%string as p1 eqn:E1.
  remember ";base64,"%string as p2 eqn:E2.
  rewrite (strip_data_uri_eq p1 p2 value E1 E2).
  destruct (strip_prefix p1 value) as [[|c rest]|] eqn:P;
    try apply strip_data_uri_magic_append.
  destruct (is_word_char c) eqn:W; [|apply strip_data_uri_magic_append].
  destruct (strip_prefix p2 (skip_word rest)) as [payload|] eqn:Q;
    [|apply strip_data_uri_magic_append].
  intros _. rewrite (strip_data_uri_eq p1 p2 (value ++ s) E1 E2).
  rewrite (strip_prefix_append _ _ _ s P).
  change (String c rest ++ s)%string with (String c (rest ++ s)). cbv iota.
  rewrite W.
  assert (exists d r', skip_word rest = String d r') as (d & r' & Sk).
  { apply strip_prefix_sound in Q. rewrite Q, E2. simpl. eauto. }
  rewrite (skip_word_append rest s d r' Sk), <- Sk.
  rewrite (strip_prefix_append _ _ _ s Q). reflexivity.
Qed.

Lemma isValidBase64Image_spec (value : string) :
  isValidBase64Image value = true <->
  value <> ""%string
  /\ (100 <= String.length (strip_data_uri value))%nat
  /\ base64Regex_test (substring 0 100 (strip_data_uri value)) = true
  /\ existsb (fun p => prefix p (strip_data_uri value)) validPrefixes = true.
Proof.
  unfold isValidBase64Image.
  destruct (String.eqb_spec value "") as [-> | Hne].
  - split; [discriminate | intros [H _]; contradiction].
  - destruct (Nat.ltb_spec (String.length (strip_data_uri value)) 100).
    + split; [discriminate | intros (_ & H1 & _); lia].
    + destruct (base64Regex_test _); simpl.
      * split; [intros E; auto | intros (_ & _ & _ & E); exact E].
      * split; [discriminate | intros (_ & _ & E & _); discriminate E].
Qed.

(** X17: [isValidBase64Image] looks at the first 100 characters of the data
    and no further: whatever is appended to an accepted value, the result is
    accepted too. *)
Theorem isValidBase64Image_checks_first_100 (value s : string) :
  isValidBase64Image value = true ->
  isValidBase64Image (value ++ s) = true.
Proof.
  intros H. apply isValidBase64Image_spec in H. destruct H as (Hne & Hl & Hr & Hp).
  apply isValidBase64Image_spec. rewrite (strip_data_uri_append value s Hp).
  split; [|split; [|split]].
  - destruct value; [contradiction | discriminate].
  - rewrite string_length_append. lia.
  - rewrite substring_append by exact Hl. exact Hr.
  - unfold validPrefixes in *. simpl in *. rewrite !orb_true_iff in *.
    destruct Hp as [Hp | [Hp | [Hp | [Hp | Hp]]]]; try discriminate Hp;
      [left | right; left | right; right; left | right; right; right; left];
      apply prefix_append; exact Hp.
Qed.

Lemma isValidBase64Image_checks_first_100_witness :
  isValidBase64Image (sample_png ++ " <- not base64 from here on \ {}") = true.
Proof.
  apply (isValidBase64Image_checks_first_100 sample_png
           " <- not base64 from here on \ {}").
  vm_compute. reflexivity.
Defined.

Lemma no_data_prefix_no_strip (image : string) :
  prefix "data:" image = false -> strip_data_uri image = image.
Proof.
  intros H.
  remember "data:image/"%string as p1 eqn:E1.
  remember ";base64,"%string as p2 eqn:E2.
  rewrite (strip_data_uri_eq p1 p2 image E1 E2).
  destruct (strip_prefix p1 image) as [[|c rest]|] eqn:P; try reflexivity.
  apply strip_prefix_sound in P. rewrite P, E1 in H. discriminate H.
Qed.

Lemma imageUrl_of_cases (image : string) :
  prefix "data:" image = false ->
  exists fmt,
    (fmt = "png" \/ fmt = "jpeg" \/ fmt = "gif" \/ fmt = "webp")%string
    /\ detectImageFormat image = fmt
    /\ imageUrl_of image = ("data:image/" ++ fmt ++ ";base64," ++ image)%string
    /\ strip_data_uri ("data:image/" ++ fmt ++ ";base64," ++ image) = image.
Proof.
  intros H. unfold imageUrl_of. rewrite H. cbn [negb].
  unfold detectImageFormat.
  destruct (prefix "iVBORw0KGgo" _);
    [|destruct (prefix "/9j/" _);
      [|destruct (prefix "R0lGOD" _); [|destruct (prefix "UklGR" _)]]];
    eexists; (split; [|split; [reflexivity | split; reflexivity]]); auto.
Qed.

(** X18: the data-URI prefix the LLM service puts before an image is the one
    the validator takes off: for an image that does not start with [data:],
    stripping the built URL gives the image back, and the validator's verdict
    on the URL is its verdict on the image. *)
Theorem data_uri_round_trip (image : string) :
  prefix "data:" image = false ->
  strip_data_uri (imageUrl_of image) = image
  /\ isValidBase64Image (imageUrl_of image) = isValidBase64Image image.
Proof.
  intros H. destruct (imageUrl_of_cases image H) as (fmt & Hf & _ & U & S).
  rewrite U. split; [exact S|].
  unfold isValidBase64Image. rewrite S, (no_data_prefix_no_strip image H).
  destruct Hf as [-> | [-> | [-> | ->]]]; cbn [append String.eqb Ascii.eqb];
    (destruct (String.eqb_spec image "") as [-> | _]; reflexivity).
Qed.

Lemma data_uri_round_trip_witness :
  strip_data_uri (imageUrl_of sample_png) = sample_png
  /\ isValidBase64Image (imageUrl_of sample_png) = isValidBase64Image sample_png.
Proof.
  apply (data_uri_round_trip sample_png). vm_compute. reflexivity.
Defined.

Lemma validateImageUpload_ok (v : JsValue) :
  validateImageUpload v = [] <->
  exists image, v = JsString image /\ isValidBase64Image image = true.
Proof.
  split.
  - destruct v as [| | b | n | image |]; try discriminate.
    unfold validateImageUpload. destruct (isValidBase64Image image) eqn:V.
    + intros _. eauto.
    + destruct image; discriminate.
  - intros (image & -> & V). unfold validateImageUpload. rewrite V.
    destruct image; [discriminate V | reflexivity].
Qed.

Lemma prefix_differs (x y : ascii) (p q a : string) :
  x <> y -> prefix (String x p) a = true -> prefix (String y q) a = false.
Proof.
  intros Hne H. apply prefix_head in H. destruct H as (rest & ->).
  cbn [prefix]. destruct (ascii_dec y x) as [E | _]; [|reflexivity].
  exfalso. apply Hne. symmetry. exact E.
Qed.

Lemma detectImageFormat_magic (image : string) :
  (prefix "iVBORw0KGgo" image = true -> detectImageFormat image = "png"%string)
  /\ (prefix "R0lGOD" image = true -> detectImageFormat image = "gif"%string)
  /\ (prefix "UklGR" image = true -> detectImageFormat image = "webp"%string).
Proof.
  unfold detectImageFormat. rewrite !prefix_substring by (simpl; lia).
  split; [|split]; intros H.
  - rewrite H. reflexivity.
  - rewrite (prefix_differs "R" "i" _ _ _ ltac:(discriminate) H),
      (prefix_differs "R" "/" _ _ _ ltac:(discriminate) H), H. reflexivity.
  - rewrite (prefix_differs "U" "i" _ _ _ ltac:(discriminate) H),
      (prefix_differs "U" "/" _ _ _ ltac:(discriminate) H),
      (prefix_differs "U" "R" _ _ _ ltac:(discriminate) H), H. reflexivity.
Qed.

Section ScanFacts.
Variable RECEIPT_PROMPT : string.
Variable JSON : Type.
Variable JSON_parse : string -> string + JSON.
Variable openai : string -> string -> (string * string) + option string.

(** X19: the receipt route refuses every bare base64 JPEG: an image that
    passed [validateImageUpload] and starts with the JPEG magic [/9j/] is
    taken for a file path and answered 400 INVALID_IMAGE_DATA.  For the
    images that get through, the URL handed to the model is the client's own
    data URI, or [data:image/png], [gif] or [webp] according to the image's
    magic prefix: the JPEG branches of [detectImageFormat] are never the ones
    taken. *)
Theorem scan_route_refuses_bare_jpeg (image : string) (w : World) :
  validateImageUpload (JsString image) = [] ->
  (prefix "/9j/" image = true ->
   fst (POST_scan_receipt RECEIPT_PROMPT JSON JSON_parse openai (JsString image) w)
   = ScanError JSON
       {| http_status := 400;
          http_body :=
            BodyApiError "INVALID_IMAGE_DATA"
              "Received file path instead of base64-encoded image data. Please convert the image to base64 before sending."
              None |})
  /\ (looks_like_file_path image = false ->
      (prefix "data:image/" image = true /\ imageUrl_of image = image)
      \/ (prefix "iVBORw0KGgo" image = true
          /\ imageUrl_of image = ("data:image/png;base64," ++ image)%string)
      \/ (prefix "R0lGOD" image = true
          /\ imageUrl_of image = ("data:image/gif;base64," ++ image)%string)
      \/ (prefix "UklGR" image = true
          /\ imageUrl_of image = ("data:image/webp;base64," ++ image)%string)).
Proof.
  intros V. split.
  - intros J. unfold POST_scan_receipt. rewrite V. cbn [handleValidationErrors].
    assert (looks_like_file_path image = true) as ->; [|reflexivity].
    apply prefix_head in J. destruct J as (rest & ->).
    unfold looks_like_file_path. simpl. rewrite prefix_empty. reflexivity.
  - intros G. apply validateImageUpload_ok in V.
    destruct V as (image' & E & V). injection E as <-.
    apply isValidBase64Image_spec in V. destruct V as (_ & _ & _ & P).
    destruct (prefix "data:" image) eqn:D.
    + left. split; [|unfold imageUrl_of; rewrite D; reflexivity].
      remember "data:image/"%string as p1 eqn:E1.
      remember ";base64,"%string as p2 eqn:E2.
      rewrite (strip_data_uri_eq p1 p2 image E1 E2) in P.
      assert (existsb (fun p => prefix p image) validPrefixes = false) as N.
      { apply prefix_head in D. destruct D as (rest & ->). reflexivity. }
      destruct (strip_prefix p1 image) as [[|c rest]|] eqn:S;
        try (rewrite N in P; discriminate P).
      apply strip_prefix_sound in S. rewrite S.
      apply prefix_correct. rewrite substring_append by lia.
      clear. induction p1; simpl; [reflexivity | f_equal; assumption].
    + right. rewrite (no_data_prefix_no_strip image D) in P.
      unfold imageUrl_of. rewrite D. cbn [negb].
      destruct (detectImageFormat_magic image) as (Hpng & Hgif & Hwebp).
      unfold validPrefixes in P. cbn [existsb] in P. rewrite !orb_true_iff in P.
      destruct P as [P | [P | [P | [P | P]]]]; try discriminate P.
      * left. rewrite (Hpng P). auto.
      * exfalso. apply prefix_head in P. destruct P as (rest & ->).
        unfold looks_like_file_path in G. simpl in G.
        rewrite prefix_empty in G. discriminate G.
      * right; left. rewrite (Hgif P). auto.
      * right; right. rewrite (Hwebp P). auto.
Qed.
End ScanFacts.

Lemma scan_route_refuses_bare_jpeg_witness :
  fst (POST_scan_receipt "Analyze this shopping receipt image" unit
         (fun _ => inr tt) (fun _ _ => inr (Some "[]"%string))
         (JsString sample_jpeg) (fresh_world []))
  = ScanError unit
      {| http_status := 400;
         http_body :=
           BodyApiError "INVALID_IMAGE_DATA"
             "Received file path instead of base64-encoded image data. Please convert the image to base64 before sending."
             None |}
  /\ imageUrl_of sample_png = ("data:image/png;base64," ++ sample_png)%string.
Proof.
  split.
  - apply (scan_route_refuses_bare_jpeg "Analyze this shopping receipt image" unit
             (fun _ => inr tt) (fun _ _ => inr (Some "[]"%string))
             sample_jpeg (fresh_world [])).
    + vm_compute. reflexivity.
    + vm_compute. reflexivity.
  - destruct (proj2 (scan_route_refuses_bare_jpeg
                       "Analyze this shopping receipt image" unit
                       (fun _ => inr tt) (fun _ _ => inr (Some "[]"%string))
                       sample_png (fresh_world []) ltac:(vm_compute; reflexivity))
                ltac:(vm_compute; reflexivity))
      as [[H _] | [[_ H] | [[H _] | [H _]]]];
      [discriminate H | exact H | discriminate H | discriminate H].
Defined.

(** ** The answers of the receipt scan *)




Section ReceiptFacts.
Variable RECEIPT_PROMPT : string.
Variable JSON : Type.
Variable JSON_parse : string -> string + JSON.
Variable openai : string -> string -> (string * string) + option string.

(** X21: the answers of [POST /api/scan/receipt] for an image that passed
    validation and the file-path test.  No content from the model is a 422
    "No response from LLM"; content without a bracketed part is 200 with no
    items; content whose bracketed part parses is 200 with the parsed value.
    An error of the model call or of [JSON.parse] is a 422 "Failed to
    process receipt image", unless its message contains "No response": then
    the error passes the [catch] as it is and the answer is the generic
    500. *)
Theorem scan_receipt_answers (image : string) (w : World) :
  validateImageUpload (JsString image) = [] ->
  looks_like_file_path image = false ->
  let answer :=
    fst (POST_scan_receipt RECEIPT_PROMPT JSON JSON_parse openai (JsString image) w) in
  let reply := openai RECEIPT_PROMPT (imageUrl_of image) in
  (forall content, reply = inr content -> truthy content = None ->
                   answer = ScanError JSON (failed_422 "No response from LLM"))
  /\ (forall content, reply = inr (Some content) -> content <> ""%string ->
        match_bracketed content = None -> answer = ScanOk JSON (NoItems JSON))
  /\ (forall content jsonMatch items,
        reply = inr (Some content) -> content <> ""%string ->
        match_bracketed content = Some jsonMatch ->
        JSON_parse jsonMatch = inr items ->
        answer = ScanOk JSON (ParsedItems JSON items))
  /\ (forall errorName m,
        reply = inl (errorName, m)
        \/ (exists content jsonMatch,
              reply = inr (Some content) /\ content <> ""%string
              /\ match_bracketed content = Some jsonMatch
              /\ JSON_parse jsonMatch = inl m) ->
        answer = ScanError JSON
                   (if includes m "No response" then internal_500
                    else failed_422 "Failed to process receipt image")).
Proof.
  intros V G answer reply. subst answer.
  unfold POST_scan_receipt. rewrite V, G. cbn [handleValidationErrors].
  unfold processReceiptImage, processReceiptImage_try. fold reply.
  split; [|split; [|split]].
  - intros content -> T. rewrite T. reflexivity.
  - intros content -> Hne B. unfold truthy.
    destruct (String.eqb_spec content "") as [E | _]; [contradiction|].
    rewrite B. reflexivity.
  - intros content jsonMatch items -> Hne B P. unfold truthy.
    destruct (String.eqb_spec content "") as [E | _]; [contradiction|].
    rewrite B, P. reflexivity.
  - intros errorName m [-> | (content & jsonMatch & -> & Hne & B & P)].
    + cbn [error_message]. destruct (includes m "No response"); reflexivity.
    + unfold truthy.
      destruct (String.eqb_spec content "") as [E | _]; [contradiction|].
      rewrite B, P. cbn [error_message].
      destruct (includes m "No response"); reflexivity.
Qed.
End ReceiptFacts.

Lemma scan_receipt_answers_witness :
  fst (POST_scan_receipt "Analyze this shopping receipt image" (list string)
         (fun _ => inl "Unexpected token"%string)
         (fun _ _ => inl ("APIConnectionError", "No response from server")%string)
         (JsString sample_png) (fresh_world []))
  = ScanError (list string) internal_500
  /\ fst (POST_scan_receipt "Analyze this shopping receipt image" (list string)
            (fun _ => inl "Unexpected token"%string)
            (fun _ _ => inr (Some "Here you are: [milk, eggs] enjoy"%string))
            (JsString sample_png) (fresh_world []))
     = ScanError (list string) (failed_422 "Failed to process receipt image")
  /\ fst (POST_scan_receipt "Analyze this shopping receipt image" (list string)
            (fun _ => inl "Unexpected token"%string)
            (fun _ _ => inr None)
            (JsString sample_png) (fresh_world []))
     = ScanError (list string) (failed_422 "No response from LLM").
Proof.
  split; [|split].
  - apply (proj2 (proj2 (proj2
             (scan_receipt_answers "Analyze this shopping receipt image"
                (list string) (fun _ => inl "Unexpected token"%string)
                (fun _ _ => inl ("APIConnectionError", "No response from server")%string)
                sample_png (fresh_world [])
                ltac:(vm_compute; reflexivity) ltac:(vm_compute; reflexivity))))
             "APIConnectionError"%string "No response from server"%string).
    left. reflexivity.
  - apply (proj2 (proj2 (proj2
             (scan_receipt_answers "Analyze this shopping receipt image"
                (list string) (fun _ => inl "Unexpected token"%string)
                (fun _ _ => inr (Some "Here you are: [milk, eggs] enjoy"%string))
                sample_png (fresh_world [])
                ltac:(vm_compute; reflexivity) ltac:(vm_compute; reflexivity))))
             "SyntaxError"%string "Unexpected token"%string).
    right. exists "Here you are: [milk, eggs] enjoy"%string, "[milk, eggs]"%string.
    repeat split. discriminate.
  - apply (scan_receipt_answers "Analyze this shopping receipt image"
             (list string) (fun _ => inl "Unexpected token"%string)
             (fun _ _ => inr None)
             sample_png (fresh_world [])
             ltac:(vm_compute; reflexivity) ltac:(vm_compute; reflexivity))
      with (content := None); reflexivity.
Defined.

(** ** The food item routes on the scenario's items *)

Lemma delete_removes_the_item_witness :
  (forall item,
      In item (foodItems (snd (DELETE_foodItem uuid_shape milk_id
                                 (fresh_world [milk; guest_tea]))))
      <-> In item [milk; guest_tea] /\ f_id item <> milk_id)
  /\ notificationLog
       (snd (DELETE_foodItem uuid_shape milk_id
               (set_notificationLog [{| foodItemId := milk_id; type := "expiry_day" |}]
                  (fresh_world [milk; guest_tea]))))
     = [{| foodItemId := milk_id; type := "expiry_day" |}].
Proof.
  split.
  - apply (delete_removes_the_item uuid_shape milk_id (fresh_world [milk; guest_tea])).
    vm_compute. reflexivity.
  - apply (delete_removes_the_item uuid_shape milk_id
             (set_notificationLog [{| foodItemId := milk_id; type := "expiry_day" |}]
                (fresh_world [milk; guest_tea]))).
    vm_compute. reflexivity.
Defined.

(** Another user's item, an id that is no UUID, and a second delete. *)
Lemma delete_refused_changes_nothing_witness :
  foodItems (snd (DELETE_foodItem uuid_shape (f_id guest_tea)
                    (fresh_world [milk; guest_tea]))) = [milk; guest_tea]
  /\ foodItems (snd (DELETE_foodItem uuid_shape "1; DROP TABLE"
                       (fresh_world [milk; guest_tea]))) = [milk; guest_tea]
  /\ fst (DELETE_foodItem uuid_shape milk_id
            (snd (DELETE_foodItem uuid_shape milk_id (fresh_world [milk; guest_tea]))))
     = {| http_status := 404;
          http_body := BodyApiError "FOOD_ITEM_NOT_FOUND" "Food item not found"
                         None |}.
Proof.
  split; [|split].
  - apply (proj1 (delete_refused_changes_nothing uuid_shape (f_id guest_tea)
                    (fresh_world [milk; guest_tea]))).
    vm_compute. discriminate.
  - apply (proj1 (delete_refused_changes_nothing uuid_shape "1; DROP TABLE"
                    (fresh_world [milk; guest_tea]))).
    vm_compute. discriminate.
  - apply (proj2 (delete_refused_changes_nothing uuid_shape milk_id
                    (fresh_world [milk; guest_tea]))).
    vm_compute. reflexivity.
Defined.

(** The milk and the ham expire today; once the milk is deleted, the run of
    the day asks the gateway for the ham, and that request is not for the
    milk. *)
Lemma deleted_item_is_never_notified_witness :
  exists n o,
    In (EvFetch n o)
       (new_events
          (snd (DELETE_foodItem uuid_shape milk_id (fresh_world [milk; itemC0])))
          (snd (checkAndSendExpirationNotifications utc gateway_up nine_am
                  (snd (DELETE_foodItem uuid_shape milk_id
                          (fresh_world [milk; itemC0]))))))
    /\ data n = "C"%string
    /\ data n <> milk_id.
Proof.
  assert (E : exists n o,
             In (EvFetch n o)
                (new_events
                   (snd (DELETE_foodItem uuid_shape milk_id
                           (fresh_world [milk; itemC0])))
                   (snd (checkAndSendExpirationNotifications utc gateway_up nine_am
                           (snd (DELETE_foodItem uuid_shape milk_id
                                   (fresh_world [milk; itemC0]))))))
             /\ data n = "C"%string).
  { vm_compute. eexists. eexists. split; [left; reflexivity | reflexivity]. }
  destruct E as (n & o & Hin & Hd). exists n, o.
  split; [exact Hin|]. split; [exact Hd|].
  apply (deleted_item_is_never_notified uuid_shape utc gateway_up nine_am milk_id
           (fresh_world [milk; itemC0]) n o).
  - vm_compute. reflexivity.
  - exact Hin.
Defined.

Lemma get_item_only_own_witness :
  fst (GET_foodItem uuid_shape (f_id guest_tea) (fresh_world [milk; guest_tea]))
  = {| http_status := 404;
       http_body := BodyApiError "FOOD_ITEM_NOT_FOUND" "Food item not found" None |}
  /\ fst (GET_foodItem uuid_shape "3f2b8c1e-0a1b-4c2d-8e3f-00000000ffff"
            (fresh_world [milk; guest_tea]))
     = {| http_status := 404;
          http_body := BodyApiError "FOOD_ITEM_NOT_FOUND" "Food item not found" None |}.
Proof.
  split.
  - apply (get_item_only_own uuid_shape (f_id guest_tea)
             (fresh_world [milk; guest_tea])); [vm_compute; reflexivity|].
    right. exists guest_tea. split; [vm_compute; reflexivity | discriminate].
  - apply (get_item_only_own uuid_shape "3f2b8c1e-0a1b-4c2d-8e3f-00000000ffff"
             (fresh_world [milk; guest_tea])); [vm_compute; reflexivity|].
    left. vm_compute. reflexivity.
Defined.

(** ** What a run leaves alone *)

Lemma commit_all_extends (rows tbl : list NotificationLog) :
  exists added, commit_all rows tbl = tbl ++ added.
Proof.
  unfold commit_all. revert tbl. induction rows as [|r rows IH]; intros tbl; simpl.
  - exists []. rewrite app_nil_r. reflexivity.
  - unfold table_insert at 2. destruct (existsb (same_key r) tbl); [apply IH|].
    destruct (IH (tbl ++ [r])) as (added & ->). exists (r :: added).
    rewrite <- app_assoc. reflexivity.
Qed.

Lemma extends_refl (w : World) : extends w w.
Proof.
  repeat split; auto; exists []; rewrite app_nil_r; reflexivity.
Qed.

Lemma extends_trans (w1 w2 w3 : World) :
  extends w1 w2 -> extends w2 w3 -> extends w1 w3.
Proof.
  intros (U1 & F1 & (a1 & L1) & (n1 & T1) & (c1 & C1))
         (U2 & F2 & (a2 & L2) & (n2 & T2) & (c2 & C2)).
  repeat split; try congruence.
  - exists (a1 ++ a2). rewrite L2, L1, app_assoc. reflexivity.
  - exists (n1 ++ n2). rewrite T2, T1, app_assoc. reflexivity.
  - exists (c1 ++ c2). rewrite C2, C1, app_assoc. reflexivity.
Qed.

Lemma sent_world_extends (env : Environment) (n : ExpoNotification) (w : World) :
  extends w (sent_world env n w).
Proof.
  unfold sent_world. repeat split; simpl; eauto.
  apply commit_all_extends.
Qed.

Lemma processItem_extends (tz : TimeZone) (env : Environment) (today : Z)
  (token : string) (item : FoodItem) (w : World) :
  extends w (snd (processItem tz env today token item w))
  /\ (fetches (trace (snd (processItem tz env today token item w)))
      <= S (fetches (trace w)))%nat.
Proof.
  destruct (processItem_cases tz env today token item w)
    as [-> | (ty & t & b & _ & _ & Hcase)]; [split; [apply extends_refl | simpl; lia]|].
  cbv zeta in Hcase.
  pose proof (sent_world_extends env
                {| to := token; title := t; body := b; data := f_id item |} w) as X.
  destruct Hcase as [[_ ->] | [_ ->]]; simpl; split.
  - eapply extends_trans; [exact X|]. repeat split; simpl; eauto;
      try (exists []; rewrite app_nil_r; reflexivity).
  - unfold fetches. rewrite !filter_app, !length_app. simpl. lia.
  - eapply extends_trans; [exact X|]. repeat split; simpl; eauto;
      try (exists []; rewrite app_nil_r; reflexivity).
  - unfold fetches. rewrite !filter_app, !length_app. simpl. lia.
Qed.

Lemma forM_fetches_bound {A} (f : A -> M unit) (l : list A) :
  (forall x v, (fetches (trace (snd (f x v))) <= S (fetches (trace v)))%nat) ->
  forall w, (fetches (trace (snd (forM_ l f w)))
             <= fetches (trace w) + List.length l)%nat.
Proof.
  intros Hstep. induction l as [|x l IH]; intros w; [simpl; lia|].
  rewrite forM_cons. specialize (Hstep x w).
  destruct (f x w) as [[[] | e] w1]; simpl in *.
  - specialize (IH w1). lia.
  - lia.
Qed.

(** X22: a run, in any environment and however it ends, never writes the
    [User] or [FoodItem] tables, and never removes or reorders anything: the
    notification log, the trace of requests and the console it leaves start
    with the ones it found. *)
Theorem run_only_appends
  (tz : TimeZone) (env : Environment) (now : Z) (w : World) :
  extends w (snd (checkAndSendExpirationNotifications tz env now w)).
Proof.
  rewrite check_unfold. apply (forM_inv (extends w)); [|apply extends_refl].
  intros [user items] v _ Ev. unfold processUser.
  destruct (truthy (pushToken user)) as [token|]; [|exact Ev].
  revert Ev. apply (forM_inv (extends w)). intros item v' _ Ev'.
  eapply extends_trans; [exact Ev'|]. apply processItem_extends.
Qed.

(** X23: a run, in any environment, makes at most one request to the gateway
    for each pair of its work list: never more requests than there are items
    in the window owned by users with a token. *)
Theorem run_request_bound
  (tz : TimeZone) (env : Environment) (now : Z) (w : World) :
  (fetches (trace (snd (checkAndSendExpirationNotifications tz env now w)))
   <= fetches (trace w) + List.length (worklist tz now w))%nat
  /\ (List.length (worklist tz now w) <= List.length (considered tz now w))%nat.
Proof.
  split.
  - rewrite check_worklist. apply forM_fetches_bound.
    intros [token item] v. apply processItem_extends.
  - unfold worklist, considered. induction (queried tz now w) as [|[u items] l IH];
      [reflexivity|]. cbn [flat_map fst snd]. rewrite !length_app.
    destruct (truthy (pushToken u)); rewrite ?length_map; simpl; lia.
Qed.

(** ** The cron job and the dispatcher *)

(** X24: the callback of the daily cron job never rejects: when the run
    throws, the error ends in the console, and the tables are left as the run
    left them. *)
Theorem cronJob_never_rejects
  (tz : TimeZone) (env : Environment) (now : Z) (w : World) :
  let started := add_console
                   "[CRON] Running daily expiration notification check at" w in
  let run := checkAndSendExpirationNotifications tz env now started in
  fst (cronJob tz env now w) = Normal tt
  /\ console (snd (cronJob tz env now w))
     = console (snd run)
       ++ [match fst run with
           | Normal _ =>
               "[CRON] Expiration notification check completed successfully"
           | Throw _ => "[CRON] Error running expiration notification check:"
           end]%string
  /\ notificationLog (snd (cronJob tz env now w)) = notificationLog (snd run)
  /\ trace (snd (cronJob tz env now w)) = trace (snd run).
Proof.
  intros started run. unfold cronJob, bind, try_catch, console_log, console_error.
  fold started. fold run. destruct run as [[[] | e] w1]; simpl; auto.
Qed.

(** X25: one call of [sendPushNotification] makes exactly one request to the
    gateway, with the notification it was given, and never a second one when
    the first fails; a failure shows as one line on the console, a success as
    none. *)
Theorem sendPushNotification_one_request
  (env : Environment) (notification : ExpoNotification) (w : World) :
  let w' := snd (sendPushNotification env notification w) in
  trace w' = trace w ++ [EvFetch notification (gateway env (requests w))]
  /\ requests w' = S (requests w)
  /\ (exists lines, console w' = console w ++ lines
                    /\ (List.length lines <= 1)%nat
                    /\ (lines = [] <->
                        exists r, gateway env (requests w) = Resolves r /\ ok r = true))
  /\ users w' = users w /\ foodItems w' = foodItems w.
Proof.
  rewrite sendPushNotification_run. simpl. repeat split.
  exists (complaints (gateway env (requests w))). split; [reflexivity|].
  unfold complaints. destruct (gateway env (requests w)) as [[o t] |]; simpl.
  - destruct o; simpl.
    + split; [lia|]. split; [eauto | reflexivity].
    + destruct t; simpl; (split; [lia|]);
        (split; [discriminate | intros (r & E & Hr); injection E as <-; discriminate Hr]).
  - split; [lia|]. split; [discriminate | intros (r & E & _); discriminate E].
Qed.
